(** * go-xml: a shallow embedding of the marshalling pipeline

    The development follows the Go sources of the serializer:
    [utils.go] (escaping, emptiness test, scalar stringification),
    [nodes.go] (the element / text node model), the tree builder
    ([structToNode] and its helpers), the encoder ([VisitElement],
    [VisitText]) and the [Marshal] orchestrator with its optional
    gzip step.

    Go strings are byte sequences; they are modelled by [string], one
    [ascii] per byte.  A [for _, c := range s] loop decodes UTF-8, so the
    decoder of the Go runtime and the encoder behind
    [strings.Builder.WriteRune] are part of the model. *)

From Stdlib Require Import ZArith Lia String Ascii List Bool Permutation.
From Stdlib Require Import DecimalString DecimalZ DecimalN DecimalPos.
From Stdlib Require Import SpecFloat.
From stdpp Require Import base gmap strings list.

Import ListNotations.
#[local] Set Warnings "-register-all".
Local Open Scope string_scope.
Local Open Scope list_scope.
Local Open Scope Z_scope.

(** ** Bytes and runes *)

Module Utf8.

(** The numeric value of a byte, and the byte of a number ([byte(x)]
    truncates to the low eight bits). *)
Definition byteVal (c : ascii) : Z := Z.of_N (N_of_ascii c).
Definition byteOf (z : Z) : ascii := ascii_of_N (Z.to_N (z mod 256)).

(** Constants of [runtime/utf8.go] and [unicode/utf8]. *)
Definition runeError : Z := 0xFFFD.
Definition maxRune : Z := 0x10FFFF.
Definition surrogateMin : Z := 0xD800.
Definition surrogateMax : Z := 0xDFFF.
Definition tx : Z := 0x80.
Definition t2 : Z := 0xC0.
Definition t3 : Z := 0xE0.
Definition t4 : Z := 0xF0.
Definition t5 : Z := 0xF8.
Definition maskx : Z := 0x3F.
Definition mask2 : Z := 0x1F.
Definition mask3 : Z := 0x0F.
Definition mask4 : Z := 0x07.
Definition rune1Max : Z := 0x7F.
Definition rune2Max : Z := 0x7FF.
Definition rune3Max : Z := 0xFFFF.
Definition locb : Z := 0x80.
Definition hicb : Z := 0xBF.

(** [locb <= b && b <= hicb]: a continuation byte. *)
Definition isCont (c : ascii) : bool :=
  (locb <=? byteVal c) && (byteVal c <=? hicb).

(** The rune at the head of [s] and the number of bytes it takes: what one
    iteration of [range s] yields.  The loop takes a byte below 0x80 as it
    is and calls [decoderune] of the runtime on the others; anything that
    is not a complete, shortest-form, in-range sequence gives [runeError]
    and width one. *)
Definition decoderune (s : string) : Z * nat :=
  match s with
  | EmptyString => (runeError, 1%nat)
  | String c0 r0 =>
    let b0 := byteVal c0 in
    if b0 <? tx then (b0, 1%nat)
    else if (t2 <=? b0) && (b0 <? t3) then
      match r0 with
      | String c1 _ =>
        if isCont c1 then
          let r := Z.lor (Z.shiftl (Z.land b0 mask2) 6) (Z.land (byteVal c1) maskx) in
          if rune1Max <? r then (r, 2%nat) else (runeError, 1%nat)
        else (runeError, 1%nat)
      | _ => (runeError, 1%nat)
      end
    else if (t3 <=? b0) && (b0 <? t4) then
      match r0 with
      | String c1 (String c2 _) =>
        if isCont c1 && isCont c2 then
          let r := Z.lor (Z.lor (Z.shiftl (Z.land b0 mask3) 12)
                                (Z.shiftl (Z.land (byteVal c1) maskx) 6))
                         (Z.land (byteVal c2) maskx) in
          if (rune2Max <? r) && negb ((surrogateMin <=? r) && (r <=? surrogateMax))
          then (r, 3%nat) else (runeError, 1%nat)
        else (runeError, 1%nat)
      | _ => (runeError, 1%nat)
      end
    else if (t4 <=? b0) && (b0 <? t5) then
      match r0 with
      | String c1 (String c2 (String c3 _)) =>
        if isCont c1 && isCont c2 && isCont c3 then
          let r := Z.lor (Z.lor (Z.lor (Z.shiftl (Z.land b0 mask4) 18)
                                       (Z.shiftl (Z.land (byteVal c1) maskx) 12))
                                (Z.shiftl (Z.land (byteVal c2) maskx) 6))
                         (Z.land (byteVal c3) maskx) in
          if (rune3Max <? r) && (r <=? maxRune) then (r, 4%nat) else (runeError, 1%nat)
        else (runeError, 1%nat)
      | _ => (runeError, 1%nat)
      end
    else (runeError, 1%nat)
  end.

(** [utf8.AppendRune], as called by [strings.Builder.WriteRune].  The
    conversion [byte(x)] keeps the low eight bits of [x]. *)
Definition lowByte (x : Z) : Z := x mod 256.

Definition AppendRune (p : string) (r : Z) : string :=
  if r <=? rune1Max then p +:+ String (byteOf r) EmptyString
  else if r <=? rune2Max then
    p +:+ String (byteOf (Z.lor t2 (lowByte (Z.shiftr r 6))))
           (String (byteOf (Z.lor tx (Z.land (lowByte r) maskx))) EmptyString)
  else
    let three (r : Z) :=
      p +:+ String (byteOf (Z.lor t3 (lowByte (Z.shiftr r 12))))
             (String (byteOf (Z.lor tx (Z.land (lowByte (Z.shiftr r 6)) maskx)))
               (String (byteOf (Z.lor tx (Z.land (lowByte r) maskx))) EmptyString)) in
    if (maxRune <? r) || ((surrogateMin <=? r) && (r <=? surrogateMax)) then three runeError
    else if r <=? rune3Max then three r
    else
      p +:+ String (byteOf (Z.lor t4 (lowByte (Z.shiftr r 18))))
             (String (byteOf (Z.lor tx (Z.land (lowByte (Z.shiftr r 12)) maskx)))
               (String (byteOf (Z.lor tx (Z.land (lowByte (Z.shiftr r 6)) maskx)))
                 (String (byteOf (Z.lor tx (Z.land (lowByte r) maskx))) EmptyString))).

(** [for _, c := range s { body }]: the loop decodes a rune at the current
    position, runs the body on it and advances by the rune's width.  [skip]
    counts the bytes of the current rune still to be stepped over. *)
Fixpoint rangeString {A : Type} (body : A -> Z -> A) (skip : nat) (s : string) (acc : A) : A :=
  match s with
  | EmptyString => acc
  | String _ s' =>
    match skip with
    | S k => rangeString body k s' acc
    | O => let '(c, w) := decoderune s in rangeString body (Nat.pred w) s' (body acc c)
    end
  end.

(** Well-formed UTF-8 byte sequences, after table 3-7 of the Unicode
    standard; this is independent of the decoder above. *)
Definition inRange (lo hi : Z) (c : ascii) : bool :=
  (lo <=? byteVal c) && (byteVal c <=? hi).

Fixpoint validUTF8 (s : string) : bool :=
  match s with
  | EmptyString => true
  | String c0 r0 =>
    if byteVal c0 <? 0x80 then validUTF8 r0
    else
      match r0 with
      | String c1 r1 =>
        if inRange 0xC2 0xDF c0 then inRange 0x80 0xBF c1 && validUTF8 r1
        else
          match r1 with
          | String c2 r2 =>
            if inRange 0xE0 0xEF c0 then
              inRange (if byteVal c0 =? 0xE0 then 0xA0 else 0x80)
                      (if byteVal c0 =? 0xED then 0x9F else 0xBF) c1
              && inRange 0x80 0xBF c2 && validUTF8 r2
            else
              match r2 with
              | String c3 r3 =>
                inRange 0xF0 0xF4 c0
                && inRange (if byteVal c0 =? 0xF0 then 0x90 else 0x80)
                           (if byteVal c0 =? 0xF4 then 0x8F else 0xBF) c1
                && inRange 0x80 0xBF c2 && inRange 0x80 0xBF c3 && validUTF8 r3
              | EmptyString => false
              end
          | EmptyString => false
          end
      | EmptyString => false
      end
  end.

End Utf8.

(** ** Results *)

(** A Go call returning [(T, error)]: the error is kept as its message. *)
Inductive result (A : Type) : Type :=
| Ok (a : A)
| Err (e : string).
Arguments Ok {A} a.
Arguments Err {A} e.

Definition bind {A B : Type} (r : result A) (k : A -> result B) : result B :=
  match r with
  | Ok a => k a
  | Err e => Err e
  end.

Notation "'do' x <- r ; k" := (bind r (fun x => k))
  (at level 10, x name, r at level 100, k at level 200).

(** What a call of the exported entry point does: it returns, or the
    goroutine panics. *)
Inductive outcome (A : Type) : Type :=
| Returned (r : result A)
| Panicked (msg : string).
Arguments Returned {A} r.
Arguments Panicked {A} msg.

(** ** nodes.go *)

Record Attribute : Type := mkAttribute { AttrName : string; AttrValue : string }.

(** The two implementations of the [Node] interface.  A nil [Node] is
    [None] in an [option Node]. *)
Inductive Node : Type :=
| ElementNode (Name : string) (Attributes : list Attribute)
              (Children : list Node) (SelfClose : bool)
| TextNode (Text : string).

Definition HasAttribute (attrs : list Attribute) (name : string) : bool :=
  existsb (fun attr => String.eqb (AttrName attr) name) attrs.

(** Field updates on an element under construction. *)
Definition setName (name : string) (n : Node) : Node :=
  match n with
  | ElementNode _ attrs children sc => ElementNode name attrs children sc
  | TextNode t => TextNode t
  end.

Definition appendAttributes (n : Node) (more : list Attribute) : Node :=
  match n with
  | ElementNode name attrs children sc => ElementNode name (attrs ++ more) children sc
  | TextNode t => TextNode t
  end.

Definition appendChildren (n : Node) (more : list Node) : Node :=
  match n with
  | ElementNode name attrs children sc => ElementNode name attrs (children ++ more) sc
  | TextNode t => TextNode t
  end.

(** ** Values seen through reflection *)

Inductive IntKind := Int | Int8 | Int16 | Int32 | Int64.
Inductive UintKind := Uint | Uint8 | Uint16 | Uint32 | Uint64 | Uintptr.
Inductive FloatKind := Float32 | Float64.
Inductive OpaqueKind := Complex64 | Complex128 | Chan | Func | UnsafePointer.

(** What the serializer reads of a [reflect.StructField]: the identifier,
    the value of the [xml] key of its tag, whether the field is embedded,
    and whether its type is [xml.Name].  [GetFieldMetadata] keeps a field
    whether it is exported or not, and reflection reads the kind, the
    length, the items and the scalar content of an unexported field as of
    an exported one.  What it refuses on a value reached through an
    unexported field is [Interface()], and the builder makes that call in
    two places: on a field of type [xml.Name], and in the default branch
    of [valueToString]; there the code panics.  The values of the model
    are those on which neither call meets an unexported field: a
    statement on what the builder returns holds for them, and says
    nothing on the others. *)
Record StructField : Type := mkStructField {
  FieldName : string;
  Tag : string;
  Anonymous : bool;
  IsXMLName : bool
}.

(** A valid [reflect.Value], by kind.  A struct carries its fields in
    declaration order, each with its value.  [Float] of a [Float32] value
    is its exact [float64]; a float is kept as its IEEE 754 datum. *)
Inductive Value : Type :=
| VBool (b : bool)
| VInt (k : IntKind) (i : Z)
| VUint (k : UintKind) (u : N)
| VFloat (k : FloatKind) (f : spec_float)
| VString (s : string)
| VPtr (elem : option Value)
| VInterface (elem : option Value)
| VSlice (items : list Value)
| VArray (items : list Value)
| VMap (len : nat)
| VOpaque (k : OpaqueKind)
| VStruct (fields : list (StructField * Value)).

(** The argument of [Marshal], an [interface{}]: the untyped nil, or a
    dynamic type (of which only [Name()] is read) with its value. *)
Inductive Interface : Type :=
| NilInterface
| Iface (typeName : string) (val : Value).

(** [reflect.TypeOf(v)]: the dynamic type of the argument, kept as the
    name that [Name()] gives; the nil [Type] for the untyped nil. *)
Definition TypeOf (v : Interface) : option string :=
  match v with
  | NilInterface => None
  | Iface typeName _ => Some typeName
  end.

(** [t.Name()]: a method call through the nil [Type] interface is a nil
    dereference, a run-time panic. *)
Definition Name (t : option string) : outcome string :=
  match t with
  | Some typeName => Returned (Ok typeName)
  | None => Panicked "runtime error: invalid memory address or nil pointer dereference"
  end.

(** [reflect.ValueOf(v)]: the zero [Value], of kind [Invalid], for the
    untyped nil. *)
Definition ValueOf (v : Interface) : option Value :=
  match v with
  | NilInterface => None
  | Iface _ val => Some val
  end.

(** [val.Interface()] on what [ValueOf] returned: the zero [Value] has
    nothing to hand out. *)
Definition InterfaceOf (rv : option Value) : outcome Value :=
  match rv with
  | Some val => Returned (Ok val)
  | None => Panicked "reflect: call of reflect.Value.Interface on zero Value"
  end.

(** Sequencing of calls that may panic: a panic or an error ends the
    caller. *)
Definition andThen {A B : Type} (o : outcome A) (k : A -> outcome B) : outcome B :=
  match o with
  | Returned (Ok a) => k a
  | Returned (Err e) => Returned (Err e)
  | Panicked msg => Panicked msg
  end.

(** What the model takes from the Go runtime and standard library without
    defining it: the default [%v] text of a value that is not a plain
    scalar; the order in which the goroutines started for the items of a
    sequence reach their effect, each of them once since the caller waits
    for all; and the gzip writer. *)
Class GoRuntime : Type := {
  Sprintf_v : Value -> string;
  completionOrder : list Value -> list nat;
  completionOrder_all :
    forall items : list Value, Permutation (completionOrder items) (seq 0 (length items));
  gzipWrite : string -> string
}.

(** ** utils.go *)

Definition insertAttributeAtBeginning (attrs : list Attribute) (attr : Attribute)
  : list Attribute :=
  attr :: attrs.

Definition hasNonEmptyChildren (children : list Node) : bool :=
  existsb (fun child =>
             match child with
             | ElementNode _ _ _ _ => true
             | TextNode text => negb (String.eqb text "")
             end) children.

(** One iteration of the loop of [escapeString]: the switch on the rune. *)
Definition escapeRune (buf : string) (c : Z) : string :=
  if c =? 38 then buf +:+ "&amp;"
  else if c =? 60 then buf +:+ "&lt;"
  else if c =? 62 then buf +:+ "&gt;"
  else if c =? 34 then buf +:+ "&quot;"
  else if c =? 39 then buf +:+ "&apos;"
  else Utf8.AppendRune buf c.

Definition escapeString (s : string) : string :=
  Utf8.rangeString escapeRune 0 s "".

Definition contains (options : list string) (opt : string) : bool :=
  existsb (fun o => String.eqb o opt) options.

Definition isEmptyValue (val : Value) : bool :=
  match val with
  | VArray items | VSlice items => Nat.eqb (length items) 0
  | VMap len => Nat.eqb len 0
  | VString s => Nat.eqb (String.length s) 0
  | VBool b => negb b
  | VInt _ i => i =? 0
  | VUint _ u => N.eqb u 0
  | VFloat _ f =>
    match f with
    | S754_zero _ => true
    | _ => false
    end
  | VInterface elem | VPtr elem =>
    match elem with
    | None => true
    | Some _ => false
    end
  | VOpaque _ | VStruct _ => false
  end.

(** *** The verbs of [fmt.Sprintf] that [valueToString] uses *)

(** [%d]: an optional minus sign and the decimal digits. *)
Definition Sprintf_d (i : Z) : string :=
  NilZero.string_of_int (Z.to_int i).

(** The decimal digits of a natural number. *)
Definition decimal (n : Z) : string :=
  NilZero.string_of_uint (N.to_uint (Z.to_N n)).

(** [%t]. *)
Definition Sprintf_t (b : bool) : string :=
  if b then "true" else "false".

Definition digitChar (d : Z) : ascii := ascii_of_N (Z.to_N (48 + d)).

(** The integer nearest to [n / d], ties to even ([0 < d]). *)
Definition roundHalfEven (n d : Z) : Z :=
  let q := n / d in
  let r := n mod d in
  if 2 * r <? d then q
  else if d <? 2 * r then q + 1
  else if Z.even q then q else q + 1.

(** The magnitude [m * 2^e], in hundredths, correctly rounded. *)
Definition hundredths (m : positive) (e : Z) : Z :=
  if 0 <=? e then Z.pos m * 2 ^ e * 100
  else roundHalfEven (Z.pos m * 100) (2 ^ (- e)).

Definition fixed2 (neg : bool) (h : Z) : string :=
  (if neg then "-" else "") +:+ decimal (h / 100) +:+ "."
  +:+ String (digitChar (h mod 100 / 10)) (String (digitChar (h mod 10)) EmptyString).

(** [%.2f]: [strconv] converts the binary value exactly and rounds it to
    two fractional digits, ties to even; the sign is kept, also on zero;
    infinities and NaN have their own spellings. *)
Definition Sprintf_2f (f : spec_float) : string :=
  match f with
  | S754_nan => "NaN"
  | S754_infinity false => "+Inf"
  | S754_infinity true => "-Inf"
  | S754_zero s => fixed2 s 0
  | S754_finite s m e => fixed2 s (hundredths m e)
  end.

Section WithRuntime.
Context `{GoRuntime}.

Fixpoint valueToString (val : Value) : string :=
  match val with
  | VPtr None => ""
  | VPtr (Some elem) => valueToString elem
  | VFloat _ f => Sprintf_2f f
  | VString s => s
  | VBool b => Sprintf_t b
  | VInt _ i => Sprintf_d i
  | VUint _ u => Sprintf_d (Z.of_N u)
  | _ => Sprintf_v val
  end.

End WithRuntime.

(** *** The shape of a fixed-point number with two fractional digits

    An optional minus sign, one digit or more, a point, two digits. *)
Definition isDigit (c : ascii) : bool :=
  (48 <=? Utf8.byteVal c) && (Utf8.byteVal c <=? 57).

Fixpoint digitsPointTwo (seenDigit : bool) (s : string) : bool :=
  match s with
  | EmptyString => false
  | String c rest =>
    if isDigit c then digitsPointTwo true rest
    else if Ascii.eqb c "." then
      seenDigit
      && match rest with
         | String d1 (String d2 EmptyString) => isDigit d1 && isDigit d2
         | _ => false
         end
    else false
  end.

Definition isFixed2 (s : string) : bool :=
  match s with
  | String c rest =>
    if Ascii.eqb c "-" then digitsPointTwo false rest else digitsPointTwo false s
  | EmptyString => false
  end.

(** *** The escaping table, read byte by byte

    The table of the specification: each of the five reserved characters
    has its entity, every other byte stands for itself. *)
Definition escapeByte (c : ascii) : string :=
  if Ascii.eqb c "&" then "&amp;"
  else if Ascii.eqb c "<" then "&lt;"
  else if Ascii.eqb c ">" then "&gt;"
  else if Ascii.eqb c "034" then "&quot;"
  else if Ascii.eqb c "'" then "&apos;"
  else String c EmptyString.

Fixpoint escapeBytes (s : string) : string :=
  match s with
  | EmptyString => EmptyString
  | String c rest => escapeByte c +:+ escapeBytes rest
  end.

Fixpoint hasPrefix (p s : string) : bool :=
  match p with
  | EmptyString => true
  | String a p' =>
    match s with
    | String b s' => Ascii.eqb a b && hasPrefix p' s'
    | EmptyString => false
    end
  end.

(** The inverse of the table: an entity is read back as its character,
    any other byte as itself.  [skip] counts the bytes of the current
    entity still to be stepped over. *)
Fixpoint unescapeFrom (skip : nat) (s : string) : string :=
  match s with
  | EmptyString => EmptyString
  | String c rest =>
    match skip with
    | S k => unescapeFrom k rest
    | O =>
      if Ascii.eqb c "&" then
        if hasPrefix "amp;" rest then String "&" (unescapeFrom 4 rest)
        else if hasPrefix "lt;" rest then String "<" (unescapeFrom 3 rest)
        else if hasPrefix "gt;" rest then String ">" (unescapeFrom 3 rest)
        else if hasPrefix "quot;" rest then String "034" (unescapeFrom 5 rest)
        else if hasPrefix "apos;" rest then String "'" (unescapeFrom 5 rest)
        else String c (unescapeFrom 0 rest)
      else String c (unescapeFrom 0 rest)
    end
  end.

Definition unescape (s : string) : string := unescapeFrom 0 s.

(** ** The serializer: options and helpers from the standard library *)

Record MarshalOptions : Type := mkMarshalOptions {
  Indent : string;
  XMLHeader : bool;
  Namespace : string;
  RootTag : string;
  Compress : bool;
  SelfClosingTags : list string;
  SpacedSelfClose : bool
}.

(** [&MarshalOptions{}], used when the caller passes nil options. *)
Definition defaultOptions : MarshalOptions :=
  mkMarshalOptions "" false "" "" false [] false.

(** A double quote, as a string. *)
Definition dquote : string := String "034" EmptyString.

Definition xmlHeader : string :=
  "<?xml version=" +:+ dquote +:+ "1.0" +:+ dquote
  +:+ " encoding=" +:+ dquote +:+ "UTF-8" +:+ dquote +:+ "?>".

(** [strings.Split(s, sep)] for a one-byte separator: the pieces between
    the separators, one piece (the whole string) when there is none. *)
Fixpoint Split (s : string) (sep : ascii) : list string :=
  match s with
  | EmptyString => [EmptyString]
  | String c rest =>
    if Ascii.eqb c sep then EmptyString :: Split rest sep
    else
      match Split rest sep with
      | piece :: pieces => String c piece :: pieces
      | [] => [String c EmptyString]
      end
  end.

(** [strings.Contains(s, sep)] for a one-byte separator. *)
Fixpoint Contains (s : string) (sep : ascii) : bool :=
  match s with
  | EmptyString => false
  | String c rest => Ascii.eqb c sep || Contains rest sep
  end.

(** ** Field metadata *)

Record fieldMeta : Type := mkFieldMeta { MetaName : string; FieldType : StructField }.

(** The name of a field on the wire: the first comma-separated part of its
    tag, or the identifier when that part is empty. *)
Definition tagName (field : StructField) : string :=
  let name := hd EmptyString (Split (Tag field) ",") in
  if String.eqb name "" then FieldName field else name.

Definition tagOptions (field : StructField) : list string :=
  tl (Split (Tag field) ",").

(** [GetFieldMetadata]: the declared fields, in order, without those tagged
    ["-"].  The cache in front of it returns what a fresh computation
    returns.  Each entry is kept with what the caller reads at the field's
    index. *)
Fixpoint GetFieldMetadata {A : Type} (fields : list (StructField * A))
  : list (fieldMeta * A) :=
  match fields with
  | [] => []
  | (field, a) :: rest =>
    if String.eqb (Tag field) "-" then GetFieldMetadata rest
    else (mkFieldMeta (tagName field) field, a) :: GetFieldMetadata rest
  end.

(** ** The tree builder *)

(** The loop at the head of [structToNode] ends on a nil pointer or a nil
    interface. *)
Fixpoint derefsToNil (val : Value) : bool :=
  match val with
  | VPtr None | VInterface None => true
  | VPtr (Some elem) | VInterface (Some elem) => derefsToNil elem
  | _ => false
  end.

(** The node of an item that was built without error; nil otherwise. *)
Definition nodeOf (r : result (option Node)) : option Node :=
  match r with
  | Ok childNode => childNode
  | Err _ => None
  end.

Definition isOk {A : Type} (r : result A) : bool :=
  match r with
  | Ok _ => true
  | Err _ => false
  end.

Section Builder.
Context `{GoRuntime}.

(** The recursive call, [structToNode] with the options fixed. *)
Variable build : Value -> list string -> result (option Node).

Definition handleSimpleNode (val : Value) (currentTag : string) : result (option Node) :=
  Ok (Some (ElementNode currentTag [] [TextNode (valueToString val)] false)).

(** The loops [for i := 0; i < val.Len(); i++] of the sequential builders:
    one call per item in index order, the first error returned at once,
    nil nodes left out, the others appended to [children]. *)
Fixpoint buildItemsFrom (items : list Value) (tags : list string) (children : list Node)
         {struct items} : result (list Node) :=
  match items with
  | [] => Ok children
  | item :: rest =>
    match build item tags with
    | Err e => Err e
    | Ok None => buildItemsFrom rest tags children
    | Ok (Some childNode) => buildItemsFrom rest tags (children ++ [childNode])
    end
  end.

Definition buildItems (items : list Value) (tags : list string) : result (list Node) :=
  buildItemsFrom items tags [].

(** The chain of wrapper elements of [processChildTags], around [inner]. *)
Fixpoint wrapChain (names : list string) (inner : list Node) : list Node :=
  match names with
  | [] => inner
  | name :: rest => [ElementNode name [] (wrapChain rest inner) false]
  end.

Definition processChildTags (element : Node) (fieldValue : Value) (childTags : list string)
  : result Node :=
  let lastTag := List.last childTags EmptyString in
  do kids <- match fieldValue with
             | VSlice items | VArray items => buildItems items [lastTag]
             | _ =>
               do childNode <- build fieldValue [lastTag];
               Ok (match childNode with
                   | Some n => [n]
                   | None => []
                   end)
             end;
  Ok (appendChildren element (wrapChain (removelast childTags) kids)).

Definition processField (element : Node) (fieldValue : Value) (tagName : string)
           (tagOptions : list string) : result Node :=
  if contains tagOptions "attr" then
    Ok (appendAttributes element [mkAttribute tagName (valueToString fieldValue)])
  else if contains tagOptions "omitempty" && isEmptyValue fieldValue then
    Ok element
  else
    let childTags := if Contains tagName ">" then Split tagName ">" else [tagName] in
    processChildTags element fieldValue childTags.

Definition processAnonymousField (element : Node) (fieldValue : Value) : result Node :=
  do embeddedNode <- build fieldValue [];
  Ok (match embeddedNode with
      | Some (ElementNode _ attrs children _) =>
        appendChildren (appendAttributes element attrs) children
      | _ => element
      end).

(** [xml.Name.Local] of a field of type [xml.Name] (fields [Space], [Local]). *)
Definition xmlNameLocal (fieldValue : Value) : string :=
  match fieldValue with
  | VStruct [(_, VString _); (_, VString local)] => local
  | _ => EmptyString
  end.

(** The body of the loop of [handleStructNode] for one field. *)
Definition handleField (element : Node) (field : StructField) (fieldValue : Value)
  : result Node :=
  if Anonymous field then processAnonymousField element fieldValue
  else if String.eqb (Tag field) "-" then Ok element
  else if IsXMLName field then
    Ok (if String.eqb (xmlNameLocal fieldValue) "" then element
        else setName (xmlNameLocal fieldValue) element)
  else processField element fieldValue (tagName field) (tagOptions field).

(** [handleStructNode]: the loop runs over [GetFieldMetadata(typ)], that is
    over the declared fields that are not tagged ["-"].  It is written on
    the declared fields, so that the recursion on the value is structural;
    [handleMetas] below is the loop on the metadata list, and the two are
    proved equal. *)
Fixpoint handleFields (fields : list (StructField * Value)) (element : Node)
         {struct fields} : result (option Node) :=
  match fields with
  | [] => Ok (Some element)
  | (field, fieldValue) :: rest =>
    if String.eqb (Tag field) "-" then handleFields rest element
    else
      match handleField element field fieldValue with
      | Err e => Err e
      | Ok element' => handleFields rest element'
      end
  end.

(** The loop over the metadata list as [GetFieldMetadata] returns it. *)
Fixpoint handleMetas (metas : list (fieldMeta * Value)) (element : Node)
  : result (option Node) :=
  match metas with
  | [] => Ok (Some element)
  | (meta, fieldValue) :: rest =>
    match handleField element (FieldType meta) fieldValue with
    | Err e => Err e
    | Ok element' => handleMetas rest element'
    end
  end.

Definition handleStructNode (fields : list (StructField * Value)) (currentTag : string)
  : result (option Node) :=
  handleFields fields (ElementNode currentTag [] [] false).

(** *** The two builds of a sequence *)

(** The sequential build: one item after the other. *)
Definition handleSliceNode_seq (items : list Value) (currentTag : string)
           (remainingTags : list string) : result (option Node) :=
  do children <- buildItems items remainingTags;
  Ok (Some (ElementNode currentTag [] children false)).

(** The parallel build.  The goroutines share the pre-sized [childNodes]
    and the channel [errChan] of capacity one; each computes the node of its
    own item and then either stores it at its index or tries to send its
    error, which succeeds only while the channel is empty. *)
Record sliceState : Type := mkSliceState {
  childNodes : list (option Node);
  errChan : option string
}.

Definition goroutine (results : list (result (option Node))) (st : sliceState)
           (index : nat) : sliceState :=
  match results !! index with
  | Some (Err e) =>
    mkSliceState (childNodes st)
                 (match errChan st with
                  | None => Some e
                  | Some first => Some first
                  end)
  | Some (Ok childNode) =>
    mkSliceState (<[index := childNode]> (childNodes st)) (errChan st)
  | None => st
  end.

(** [order] is the order in which the goroutines reach their effect. *)
Definition handleSliceNode (order : list nat) (items : list Value) (currentTag : string)
           (remainingTags : list string) : result (option Node) :=
  let results := map (fun item => build item remainingTags) items in
  let st := foldl (goroutine results)
                  (mkSliceState (replicate (length items) None) None) order in
  match errChan st with
  | Some err => Err err
  | None => Ok (Some (ElementNode currentTag [] (omap id (childNodes st)) false))
  end.

End Builder.

Section StructToNode.
Context `{GoRuntime}.

(** [structToNode] of the revision with embedded fields and the parallel
    build of sequences. *)
Fixpoint structToNode (val : Value) (opts : MarshalOptions) (tagHierarchy : list string)
         {struct val} : result (option Node) :=
  match val with
  | VPtr None | VInterface None => Ok None
  | VPtr (Some elem) | VInterface (Some elem) => structToNode elem opts tagHierarchy
  | VStruct fields =>
    handleStructNode (fun v tags => structToNode v opts tags) fields
                     (hd EmptyString tagHierarchy)
  | VSlice items | VArray items =>
    handleSliceNode (fun v tags => structToNode v opts tags) (completionOrder items) items
                    (hd EmptyString tagHierarchy) (tl tagHierarchy)
  | _ => handleSimpleNode val (hd EmptyString tagHierarchy)
  end.

End StructToNode.

(** ** Properties of a recursive call of the builders *)

Definition isElement (n : Node) : Prop :=
  match n with
  | ElementNode _ _ _ _ => True
  | TextNode _ => False
  end.

(** A recursive call that behaves on [val]: it does not fail, returns nil
    exactly when [val] ends on nil, and returns an element otherwise. *)
Definition total (build : Value -> list string -> result (option Node)) (val : Value)
  : Prop :=
  forall tags : list string,
    if derefsToNil val then build val tags = Ok None
    else exists node : Node, build val tags = Ok (Some node) /\ isElement node.

(** The same on a field value and, when it is a sequence, on its items:
    those are the values [processChildTags] builds from. *)
Definition fieldTotal (build : Value -> list string -> result (option Node))
           (fieldValue : Value) : Prop :=
  total build fieldValue
  /\ match fieldValue with
     | VSlice items | VArray items => Forall (total build) items
     | _ => True
     end.

(** Two recursive calls that agree on a value, and on a field value with
    its items. *)
Definition agree (build1 build2 : Value -> list string -> result (option Node))
           (val : Value) : Prop :=
  forall tags : list string, build1 val tags = build2 val tags.

Definition fieldAgree (build1 build2 : Value -> list string -> result (option Node))
           (fieldValue : Value) : Prop :=
  agree build1 build2 fieldValue
  /\ match fieldValue with
     | VSlice items | VArray items => Forall (agree build1 build2) items
     | _ => True
     end.

(** ** The empty values, as the specification lists them *)


(** ** encoder.go *)

(** The encoder writes into a [bytes.Buffer], whose [Write] never returns
    an error: [w] is the content written so far. *)
Record Encoder : Type := mkEncoder {
  w : string;
  selfClosing : gmap string bool;
  indent : string;
  depth : nat
}.

Definition NewEncoder (buf : string) (selfClosingTags : list string) (indent : string)
  : Encoder :=
  mkEncoder buf (foldl (fun m tag => <[tag := true]> m) ∅ selfClosingTags) indent 0.

Definition Write (e : Encoder) (p : string) : Encoder :=
  mkEncoder (w e +:+ p) (selfClosing e) (indent e) (depth e).

Definition setDepth (e : Encoder) (d : nat) : Encoder :=
  mkEncoder (w e) (selfClosing e) (indent e) d.

(** [strings.Repeat]. *)
Fixpoint Repeat (s : string) (count : nat) : string :=
  match count with
  | O => EmptyString
  | S n => s +:+ Repeat s n
  end.

Definition writeIndent (e : Encoder) : Encoder :=
  if negb (String.eqb (indent e) "") then Write e (Repeat (indent e) (depth e))
  else e.

Definition VisitText (e : Encoder) (text : string) : Encoder :=
  Write e (escapeString text).

(** [e.selfClosing[name]]: a missing key reads as false. *)
Definition isSelfClosingTag (e : Encoder) (name : string) : bool :=
  default false (selfClosing e !! name).

Definition shouldSelfClose (e : Encoder) (name : string) (children : list Node)
           (selfClose : bool) : bool :=
  selfClose || (isSelfClosingTag e name && negb (hasNonEmptyChildren children)).

Definition writeAttributes (e : Encoder) (attrs : list Attribute) : Encoder :=
  foldl (fun e attr =>
           Write e (" " +:+ AttrName attr +:+ "=" +:+ dquote
                    +:+ escapeString (AttrValue attr) +:+ dquote))
        e attrs.

(** The text of the attributes of a start tag, and of what precedes the
    tag on its line. *)
Fixpoint attributesText (attrs : list Attribute) : string :=
  match attrs with
  | [] => EmptyString
  | attr :: rest =>
    (" " +:+ AttrName attr +:+ "=" +:+ dquote +:+ escapeString (AttrValue attr) +:+ dquote)
    +:+ attributesText rest
  end.

Definition linePrefix (e : Encoder) : string :=
  (if (0 <? depth e)%nat then String "010" EmptyString else EmptyString)
  +:+ (if negb (String.eqb (indent e) "") then Repeat (indent e) (depth e)
       else EmptyString).

(** The start of [VisitElement], up to the self-closing decision: the line
    break and indentation, the name and the attributes. *)
Definition openTag (e : Encoder) (name : string) (attrs : list Attribute) : Encoder :=
  let e := if (0 <? depth e)%nat then Write e (String "010" EmptyString) else e in
  let e := writeIndent e in
  let e := Write e ("<" +:+ name) in
  writeAttributes e attrs.

(** [len(children) > 0] and the last child is an element. *)
Definition lastIsElement (children : list Node) : bool :=
  match List.last children (TextNode EmptyString) with
  | ElementNode _ _ _ _ => true
  | TextNode _ => false
  end.

(** [VisitElement], with [accept] the dynamic call [child.Accept(e)]. *)
Definition VisitElement (accept : Encoder -> Node -> Encoder) (e : Encoder) (name : string)
           (attrs : list Attribute) (children : list Node) (selfClose : bool) : Encoder :=
  let e := openTag e name attrs in
  if shouldSelfClose e name children selfClose then Write e "/>"
  else
    let e := Write e ">" in
    let e := setDepth e (S (depth e)) in
    let e := foldl accept e children in
    let e := setDepth e (Nat.pred (depth e)) in
    let e := if lastIsElement children
             then writeIndent (Write e (String "010" EmptyString)) else e in
    Write e ("</" +:+ name +:+ ">").

Fixpoint Accept (e : Encoder) (node : Node) {struct node} : Encoder :=
  match node with
  | ElementNode name attrs children selfClose =>
    VisitElement Accept e name attrs children selfClose
  | TextNode text => VisitText e text
  end.

(** ** The compressor and [Marshal] *)

Section Marshal.
Context `{GoRuntime}.

(** [GzipCompressor.Compress]: the whole buffer goes through one gzip
    writer into a fresh buffer; writing into a buffer cannot fail. *)
Definition GzipCompressor_Compress (data : string) : result string :=
  Ok (gzipWrite data).

Definition compressBuffer (buf : string) : result string :=
  match GzipCompressor_Compress buf with
  | Err err => Err ("error compressing data: " +:+ err)
  | Ok compressedBuf => Ok compressedBuf
  end.

(** The namespace step of [Marshal]. *)
Definition injectNamespace (opts : MarshalOptions) (node : Node) : Node :=
  if negb (String.eqb (Namespace opts) "") then
    match node with
    | ElementNode name attrs children sc =>
      if negb (HasAttribute attrs "xmlns") then
        ElementNode name
                    (insertAttributeAtBeginning attrs (mkAttribute "xmlns" (Namespace opts)))
                    children sc
      else node
    | TextNode _ => node
    end
  else node.

(** The prolog step of [Marshal]: what it writes into the buffer. *)
Definition headerText (opts : MarshalOptions) : string :=
  if XMLHeader opts then
    if negb (String.eqb (Indent opts) "") then xmlHeader +:+ String "010" EmptyString
    else xmlHeader
  else EmptyString.

(** What [Marshal] does once the tree is built and [encoder] is
    constructed on the empty buffer. *)
Definition encodeWith (encoder : Encoder) (opts : MarshalOptions) (node : Node)
  : result string :=
  let encoder := Write encoder (headerText opts) in
  let node := injectNamespace opts node in
  let encoder := Accept encoder node in
  if Compress opts then compressBuffer (w encoder) else Ok (w encoder).

(** The same with the encoder that [NewEncoder] of [encoder.go]
    constructs from the options. *)
Definition encodeRoot (opts : MarshalOptions) (node : Node) : result string :=
  encodeWith (NewEncoder EmptyString (SelfClosingTags opts) (Indent opts)) opts node.

(** Modelled from the spec: the constructor that [Marshal] calls, with
    [opts.SpacedSelfClose] as a fourth argument, is not among the sources.
    The spec gives the encoder three inputs beside the tree, the sink, the
    names to self-close and the indentation, and one form of the
    self-closing tag: the encoder is the one of [encoder.go], whatever the
    flag. *)
Definition NewEncoderSpaced (buf : string) (selfClosingTags : list string)
           (indent : string) (spacedSelfClose : bool) : Encoder :=
  NewEncoder buf selfClosingTags indent.

(** [valueToString] on what [ValueOf] returned.  The zero [Value] has the
    kind [Invalid]: it is no pointer, and the switch takes its default
    branch, [fmt.Sprintf("%v", val.Interface())]. *)
Definition valueToStringOf (rv : option Value) : outcome string :=
  match rv with
  | Some val => Returned (Ok (valueToString val))
  | None => andThen (InterfaceOf rv) (fun v => Returned (Ok (Sprintf_v v)))
  end.

(** [structToNode] on what [ValueOf] returned.  The zero [Value] is
    neither a pointer nor an interface, a struct or a sequence: it goes
    to [handleSimpleNode], which asks [valueToString] for its text. *)
Definition structToNodeOf (rv : option Value) (opts : MarshalOptions)
           (tagHierarchy : list string) : outcome (option Node) :=
  match rv with
  | Some val => Returned (structToNode val opts tagHierarchy)
  | None =>
    andThen (valueToStringOf rv)
            (fun text =>
               Returned (Ok (Some (ElementNode (hd EmptyString tagHierarchy) []
                                               [TextNode text] false))))
  end.

(** [Marshal]: the root tag is resolved first, by [Name()] on the type of
    the argument when the options give none; then the tree is built; then
    the node is compared with nil.  The result is the content of the
    buffer when [Marshal] returns. *)
Definition Marshal (v : Interface) (opts : option MarshalOptions) : outcome string :=
  let opts := default defaultOptions opts in
  andThen (if String.eqb (RootTag opts) "" then Name (TypeOf v)
           else Returned (Ok (RootTag opts)))
          (fun rootTag =>
             match structToNodeOf (ValueOf v) opts [rootTag] with
             | Panicked msg => Panicked msg
             | Returned (Err err) =>
               Returned (Err ("error converting structure to node: " +:+ err))
             | Returned (Ok None) => Returned (Err "returned node is null")
             | Returned (Ok (Some node)) =>
               Returned (encodeWith (NewEncoderSpaced EmptyString (SelfClosingTags opts)
                                                      (Indent opts) (SpacedSelfClose opts))
                                    opts node)
             end).

End Marshal.

(** The options with the compression switch set to [b]. *)
Definition withCompress (b : bool) (opts : MarshalOptions) : MarshalOptions :=
  mkMarshalOptions (Indent opts) (XMLHeader opts) (Namespace opts) (RootTag opts) b
                   (SelfClosingTags opts) (SpacedSelfClose opts).

(** ** Well-formed markup

    A recognizer for XML 1.0 documents that consist of one element, with
    start tags, end tags, empty-element tags, attributes, character data
    and references to the predefined entities or to characters (no prolog,
    comment, processing instruction, CDATA section or document type: a
    document with one of those is rejected).  On ASCII it follows the
    productions of the recommendation; every byte from 0x80 on counts as a
    name character, and the number of a character reference is not
    checked. *)

Module Xml.

Definition code (c : ascii) : N := N_of_ascii c.

Definition isSpace (c : ascii) : bool :=
  N.eqb (code c) 32 || N.eqb (code c) 9 || N.eqb (code c) 10 || N.eqb (code c) 13.

Definition isLetter (c : ascii) : bool :=
  (N.leb 65 (code c) && N.leb (code c) 90) || (N.leb 97 (code c) && N.leb (code c) 122).

Definition isDigit (c : ascii) : bool :=
  N.leb 48 (code c) && N.leb (code c) 57.

Definition isHexDigit (c : ascii) : bool :=
  isDigit c || (N.leb 65 (code c) && N.leb (code c) 70)
  || (N.leb 97 (code c) && N.leb (code c) 102).

(** NameStartChar and NameChar. *)
Definition isNameStart (c : ascii) : bool :=
  isLetter c || N.eqb (code c) 58 || N.eqb (code c) 95 || N.leb 128 (code c).

Definition isNameChar (c : ascii) : bool :=
  isNameStart c || isDigit c || N.eqb (code c) 45 || N.eqb (code c) 46.

(** Char: no control character other than tab, line feed, carriage return. *)
Definition isChar (c : ascii) : bool :=
  N.leb 32 (code c) || N.eqb (code c) 9 || N.eqb (code c) 10 || N.eqb (code c) 13.

Definition snoc (s : string) (c : ascii) : string := s +:+ String c EmptyString.

Fixpoint allNameChars (s : string) : bool :=
  match s with
  | EmptyString => true
  | String c rest => isNameChar c && allNameChars rest
  end.



(** The text between [&] and [;] of a reference that needs no
    declaration: a predefined entity or a character reference. *)
Definition isReference (ref : string) : bool :=
  match ref with
  | String "#" (String "x" (String h hs)) =>
    forallb isHexDigit (h :: list_ascii_of_string hs)
  | String "#" (String d ds) => forallb isDigit (d :: list_ascii_of_string ds)
  | _ =>
    String.eqb ref "amp" || String.eqb ref "lt" || String.eqb ref "gt"
    || String.eqb ref "quot" || String.eqb ref "apos"
  end.

(** Where the recognizer stands.  [name] is the name of the tag being
    read, [seen] the attribute names already met in it. *)
Inductive state : Type :=
| Start
| Content
| Done
| Lt
| StartName (name : string)
| InTag (name : string) (seen : list string)
| AttrNameSt (name : string) (seen : list string) (attr : string)
| AfterAttrName (name : string) (seen : list string) (attr : string)
| BeforeValue (name : string) (seen : list string) (attr : string)
| InValue (name : string) (seen : list string) (quote : ascii)
| ValueRef (name : string) (seen : list string) (quote : ascii) (ref : string)
| AfterValue (name : string) (seen : list string)
| Slash (name : string)
| EndName (name : string)
| EndSpace (name : string)
| ContentRef (ref : string).

(** The start tag of [name] is complete: the element is now open. *)
Definition opened (name : string) (stack : list string) : option (state * list string) :=
  Some (Content, name :: stack).

(** An element is complete: back to its parent, or past the root. *)
Definition closed (stack : list string) : option (state * list string) :=
  match stack with
  | [] => Some (Done, [])
  | _ => Some (Content, stack)
  end.

(** The end tag of [name] is complete: it must match the open element. *)
Definition endTag (name : string) (stack : list string) : option (state * list string) :=
  match stack with
  | top :: rest => if String.eqb top name then closed rest else None
  | [] => None
  end.

Definition step (st : state) (stack : list string) (c : ascii)
  : option (state * list string) :=
  match st with
  | Start =>
    if isSpace c then Some (Start, stack)
    else if Ascii.eqb c "<" then Some (Lt, stack) else None
  | Done => if isSpace c then Some (Done, stack) else None
  | Content =>
    if Ascii.eqb c "<" then Some (Lt, stack)
    else if Ascii.eqb c "&" then Some (ContentRef EmptyString, stack)
    else if isChar c then Some (Content, stack) else None
  | ContentRef ref =>
    if Ascii.eqb c ";" then (if isReference ref then Some (Content, stack) else None)
    else Some (ContentRef (snoc ref c), stack)
  | Lt =>
    if Ascii.eqb c "/" then
      match stack with
      | [] => None
      | _ => Some (EndName EmptyString, stack)
      end
    else if isNameStart c then Some (StartName (String c EmptyString), stack)
    else None
  | StartName name =>
    if isNameChar c then Some (StartName (snoc name c), stack)
    else if isSpace c then Some (InTag name [], stack)
    else if Ascii.eqb c "/" then Some (Slash name, stack)
    else if Ascii.eqb c ">" then opened name stack
    else None
  | InTag name seen =>
    if isSpace c then Some (InTag name seen, stack)
    else if Ascii.eqb c "/" then Some (Slash name, stack)
    else if Ascii.eqb c ">" then opened name stack
    else if isNameStart c then
      Some (AttrNameSt name seen (String c EmptyString), stack)
    else None
  | AttrNameSt name seen attr =>
    if isNameChar c then Some (AttrNameSt name seen (snoc attr c), stack)
    else if isSpace c then Some (AfterAttrName name seen attr, stack)
    else if Ascii.eqb c "=" then Some (BeforeValue name seen attr, stack)
    else None
  | AfterAttrName name seen attr =>
    if isSpace c then Some (AfterAttrName name seen attr, stack)
    else if Ascii.eqb c "=" then Some (BeforeValue name seen attr, stack)
    else None
  | BeforeValue name seen attr =>
    if isSpace c then Some (BeforeValue name seen attr, stack)
    else if Ascii.eqb c "034" || Ascii.eqb c "'" then
      (if existsb (String.eqb attr) seen then None
       else Some (InValue name (attr :: seen) c, stack))
    else None
  | InValue name seen quote =>
    if Ascii.eqb c quote then Some (AfterValue name seen, stack)
    else if Ascii.eqb c "<" then None
    else if Ascii.eqb c "&" then Some (ValueRef name seen quote EmptyString, stack)
    else if isChar c then Some (InValue name seen quote, stack) else None
  | ValueRef name seen quote ref =>
    if Ascii.eqb c ";" then
      (if isReference ref then Some (InValue name seen quote, stack) else None)
    else Some (ValueRef name seen quote (snoc ref c), stack)
  | AfterValue name seen =>
    if isSpace c then Some (InTag name seen, stack)
    else if Ascii.eqb c "/" then Some (Slash name, stack)
    else if Ascii.eqb c ">" then opened name stack
    else None
  | Slash name => if Ascii.eqb c ">" then closed stack else None
  | EndName name =>
    if isNameChar c then
      (if String.eqb name "" && negb (isNameStart c) then None
       else Some (EndName (snoc name c), stack))
    else if String.eqb name "" then None
    else if isSpace c then Some (EndSpace name, stack)
    else if Ascii.eqb c ">" then endTag name stack
    else None
  | EndSpace name =>
    if isSpace c then Some (EndSpace name, stack)
    else if Ascii.eqb c ">" then endTag name stack
    else None
  end.

Fixpoint run (st : state) (stack : list string) (s : string) : bool :=
  match s with
  | EmptyString =>
    match st with
    | Done => true
    | _ => false
    end
  | String c rest =>
    match step st stack c with
    | Some (st', stack') => run st' stack' rest
    | None => false
    end
  end.

Definition wellFormed (s : string) : bool := run Start [] s.

End Xml.

(** ** Sample data for the examples *)

(** A text with reserved characters and a two-byte character. *)
Definition sampleText : string :=
  "Tom & " +:+ String "195" (String "169" EmptyString) +:+ " <b>'x'</b>".

(** A runtime for the examples: opaque values print as [?], goroutines
    complete in reverse index order, the compressor frames its input
    between two marker bytes. *)
Definition sampleRuntime : GoRuntime := {|
  Sprintf_v := fun _ => "?";
  completionOrder := fun items => rev (seq 0 (length items));
  completionOrder_all :=
    fun items => Permutation_sym (Permutation_rev (seq 0 (length items)));
  gzipWrite := fun data => String "031" (String "139" data)
|}.

(** The float64 5000, as [5000 * 2^0] and in normal form. *)
Definition float5000 : spec_float := S754_finite false 5000 0.
Definition float5000_normal : spec_float :=
  S754_finite false 5497558138880000 (-40).

(** The recursive call of the builders in the examples. *)
Definition sampleBuild (val : Value) (tags : list string) : result (option Node) :=
  @structToNode sampleRuntime val defaultOptions tags.

(** The reader that goes with the compressor of [sampleRuntime]. *)
Definition sampleGunzip (data : string) : option string :=
  match data with
  | String "031" (String "139" plain) => Some plain
  | _ => None
  end.

Definition newline : string := String "010" EmptyString.

Definition field (name tag : string) : StructField := mkStructField name tag false false.

(** Options with only a root tag. *)
Definition rootOptions (rootTag : string) : MarshalOptions :=
  mkMarshalOptions EmptyString false EmptyString rootTag false [] false.

(** ** What escaped text looks like *)

(** Every byte of [s] satisfies [p]. *)
Fixpoint allBytes (p : ascii -> bool) (s : string) : bool :=
  match s with
  | EmptyString => true
  | String c rest => p c && allBytes p rest
  end.

(** [rest] continues an ampersand as one of the five entities. *)
Definition startsEntity (rest : string) : bool :=
  hasPrefix "amp;" rest || hasPrefix "lt;" rest || hasPrefix "gt;" rest
  || hasPrefix "quot;" rest || hasPrefix "apos;" rest.

(** The characters that delimit tags and attribute values. *)
Definition isMarkup (c : ascii) : bool :=
  Ascii.eqb c "<" || Ascii.eqb c ">" || Ascii.eqb c "034" || Ascii.eqb c "'".

(** No byte of [s] delimits markup, and every ampersand starts an entity. *)
Fixpoint markupFree (s : string) : bool :=
  match s with
  | EmptyString => true
  | String c rest =>
    (if Ascii.eqb c "&" then startsEntity rest else negb (isMarkup c)) && markupFree rest
  end.

Definition isHighByte (c : ascii) : bool := 128 <=? Utf8.byteVal c.

(** ** What the encoder writes for a node *)

(** The encoder [e] with an empty buffer. *)
Definition emptied (e : Encoder) : Encoder :=
  mkEncoder EmptyString (selfClosing e) (indent e) (depth e).

(** What an encoder with the table [table], the indentation [ind] and the
    depth [d] writes for [node]. *)
Definition output (table : gmap string bool) (ind : string) (d : nat) (node : Node)
  : string :=
  w (Accept (mkEncoder EmptyString table ind d) node).

Definition childrenOutput (table : gmap string bool) (ind : string) (d : nat)
           (children : list Node) : string :=
  foldr (fun child out => output table ind d child +:+ out) EmptyString children.

(** The line break and indentation in front of an end tag. *)
Definition closingPrefix (ind : string) (d : nat) (children : list Node) : string :=
  if lastIsElement children then
    String "010" EmptyString
    +:+ (if negb (String.eqb ind "") then Repeat ind d else EmptyString)
  else EmptyString.

(** The text of an element, given the text of its children. *)
Definition elementText (e : Encoder) (name : string) (attrs : list Attribute)
           (children : list Node) (sc : bool) : string :=
  linePrefix e +:+ "<" +:+ name +:+ attributesText attrs
  +:+ (if shouldSelfClose e name children sc then "/>"
       else ">" +:+ childrenOutput (selfClosing e) (indent e) (S (depth e)) children
            +:+ closingPrefix (indent e) (depth e) children
            +:+ "</" +:+ name +:+ ">").

(** ** Trees that give well-formed markup *)

(** A name of XML written in ASCII: a letter, [_] or [:], then letters,
    digits, [_], [:], [-] and [.]. *)
Definition isAscii (c : ascii) : bool := N.ltb (Xml.code c) 128.

Definition validName (name : string) : bool :=
  match name with
  | EmptyString => false
  | String c rest => Xml.isNameStart c && Xml.allNameChars rest
  end
  && allBytes isAscii name.

(** Text without a control character other than tab, line feed and
    carriage return. *)
Definition validChars (text : string) : bool := allBytes Xml.isChar text.

Fixpoint distinct (names : list string) : bool :=
  match names with
  | [] => true
  | name :: rest => negb (existsb (String.eqb name) rest) && distinct rest
  end.

Definition validAttributes (attrs : list Attribute) : bool :=
  forallb (fun attr => validName (AttrName attr) && validChars (AttrValue attr)) attrs
  && distinct (map AttrName attrs).

Fixpoint validTree (node : Node) : bool :=
  match node with
  | TextNode text => validChars text
  | ElementNode name attrs children _ =>
    validName name && validAttributes attrs && forallb validTree children
  end.

Definition isElementNode (node : Node) : bool :=
  match node with
  | ElementNode _ _ _ _ => true
  | TextNode _ => false
  end.

(** ** Reading the markup of a tree

    Where the recognizer stands when it reads the markup of an element:
    after the name and the attributes [seen] of a start tag; before and
    after an element, at the root or inside the elements of [stack]. *)
Definition tagState (name : string) (seen : list string) : Xml.state :=
  match seen with
  | [] => Xml.StartName name
  | _ => Xml.AfterValue name seen
  end.
Definition before (stack : list string) : Xml.state :=
  match stack with
  | [] => Xml.Start
  | _ => Xml.Content
  end.
Definition after (stack : list string) : Xml.state :=
  match stack with
  | [] => Xml.Done
  | _ => Xml.Content
  end.

(** The markup of a valid node is one element, or character data. *)
Definition recognized (table : gmap string bool) (ind : string) (node : Node) : Prop :=
  forall (d : nat) (stack : list string) (rest : string),
    match node with
    | ElementNode _ _ _ _ =>
      Xml.run (before stack) stack (output table ind d node +:+ rest)
      = Xml.run (after stack) stack rest
    | TextNode _ =>
      Xml.run Xml.Content stack (output table ind d node +:+ rest) = Xml.run Xml.Content stack rest
    end.


(** ** Names that break the markup *)


(** [s] is a part of [out]. *)
Definition occurs (s out : string) : Prop :=
  exists pre post : string, out = pre +:+ s +:+ post.







(** ** Properties of the trees that are built *)

(** No element of the tree has its [SelfClose] flag set. *)
Fixpoint noSelfClose (node : Node) : bool :=
  match node with
  | TextNode _ => true
  | ElementNode _ _ children selfClose => negb selfClose && forallb noSelfClose children
  end.

(** A recursive call whose nodes satisfy [good]; the same on a field value
    and, when it is a sequence, on its items. *)
Definition yields (good : Node -> bool)
           (build : Value -> list string -> result (option Node)) (val : Value) : Prop :=
  forall (tags : list string) (node : Node),
    build val tags = Ok (Some node) -> good node = true.

Definition fieldYields (good : Node -> bool)
           (build : Value -> list string -> result (option Node)) (fieldValue : Value)
  : Prop :=
  yields good build fieldValue
  /\ match fieldValue with
     | VSlice items | VArray items => Forall (yields good build) items
     | _ => True
     end.


Definition nodeName (node : Node) : string :=
  match node with
  | ElementNode name _ _ _ => name
  | TextNode _ => EmptyString
  end.

(** The name that the element of a struct ends with, from the name it
    starts with: each field of type [xml.Name] that is read, and whose
    [Local] is not empty, sets it. *)
Definition namesElement (field : StructField) (fieldValue : Value) : bool :=
  negb (Anonymous field) && negb (String.eqb (Tag field) "-") && IsXMLName field
  && negb (String.eqb (xmlNameLocal fieldValue) EmptyString).

Fixpoint structName (fields : list (StructField * Value)) (name : string) : string :=
  match fields with
  | [] => name
  | (field, fieldValue) :: rest =>
    structName rest (if namesElement field fieldValue then xmlNameLocal fieldValue
                     else name)
  end.

(** The fields that [GetFieldMetadata] keeps. *)
Definition isRead (field : StructField * Value) : bool :=
  negb (String.eqb (Tag (fst field)) "-").

(** A runtime whose goroutines complete in index order, and whose
    compressor is the identity. *)
Definition inOrderRuntime : GoRuntime := {|
  Sprintf_v := fun _ => "?";
  completionOrder := fun items => seq 0 (length items);
  completionOrder_all := fun items => Permutation_refl (seq 0 (length items));
  gzipWrite := fun data => data
|}.

(** A field value from which [processChildTags] gets no node: it ends on
    nil or, for a sequence, each item does. *)
Definition yieldsNothing (fieldValue : Value) : bool :=
  match fieldValue with
  | VSlice items | VArray items => forallb derefsToNil items
  | _ => derefsToNil fieldValue
  end.

(** The options with the header switch set to [b]. *)
Definition withHeader (b : bool) (opts : MarshalOptions) : MarshalOptions :=
  mkMarshalOptions (Indent opts) b (Namespace opts) (RootTag opts) (Compress opts)
                   (SelfClosingTags opts) (SpacedSelfClose opts).


(** ** The serializer that builds sequences one item after the other

    The revision of the serializer whose [structToNode] refuses an empty
    tag path.  Its [processField], [processChildTags], [handleSimpleNode]
    and [handleSliceNode] are the ones above ([handleSliceNode_seq] for the
    last); its [handleStructNode] passes over the fields of type [xml.Name]
    and knows no embedded fields. *)

Module Sequential.

Section Builder.
Context `{GoRuntime}.
Variable build : Value -> list string -> result (option Node).

(** The body of the loop of [handleStructNode] for one field. *)
Definition handleField (element : Node) (field : StructField) (fieldValue : Value)
  : result Node :=
  if IsXMLName field then Ok element
  else if String.eqb (Tag field) "-" then Ok element
  else processField build element fieldValue (tagName field) (tagOptions field).

(** The loop over [GetFieldMetadata(typ)], written on the declared fields
    as for the other revision. *)
Fixpoint handleFields (fields : list (StructField * Value)) (element : Node)
         {struct fields} : result (option Node) :=
  match fields with
  | [] => Ok (Some element)
  | (field, fieldValue) :: rest =>
    if String.eqb (Tag field) "-" then handleFields rest element
    else
      match handleField element field fieldValue with
      | Err e => Err e
      | Ok element' => handleFields rest element'
      end
  end.

Definition handleStructNode (fields : list (StructField * Value)) (currentTag : string)
  : result (option Node) :=
  handleFields fields (ElementNode currentTag [] [] false).

End Builder.

Section StructToNode.
Context `{GoRuntime}.

Fixpoint structToNode (val : Value) (opts : MarshalOptions) (tagHierarchy : list string)
         {struct val} : result (option Node) :=
  match val with
  | VPtr None | VInterface None => Ok None
  | VPtr (Some elem) | VInterface (Some elem) => structToNode elem opts tagHierarchy
  | _ =>
    match tagHierarchy with
    | [] => Err "tag hierarchy is empty"
    | currentTag :: remainingTags =>
      match val with
      | VStruct fields =>
        handleStructNode (fun v tags => structToNode v opts tags) fields currentTag
      | VSlice items | VArray items =>
        handleSliceNode_seq (fun v tags => structToNode v opts tags) items currentTag
                            remainingTags
      | _ => handleSimpleNode val currentTag
      end
    end
  end.

(** [structToNode] of this revision on what [ValueOf] returned: the zero
    [Value] passes the loop on pointers, then the test of the tags, and
    goes to [handleSimpleNode]. *)
Definition structToNodeOf (rv : option Value) (opts : MarshalOptions)
           (tagHierarchy : list string) : outcome (option Node) :=
  match rv with
  | Some val => Returned (structToNode val opts tagHierarchy)
  | None =>
    match tagHierarchy with
    | [] => Returned (Err "tag hierarchy is empty")
    | currentTag :: _ =>
      andThen (valueToStringOf rv)
              (fun text =>
                 Returned (Ok (Some (ElementNode currentTag [] [TextNode text] false))))
    end
  end.

(** [Marshal] of this revision: as the other one, around this
    [structToNode] and the encoder of [encoder.go]; the compression step
    is written in its body. *)
Definition Marshal (v : Interface) (opts : option MarshalOptions) : outcome string :=
  let opts := default defaultOptions opts in
  andThen (if String.eqb (RootTag opts) "" then Name (TypeOf v)
           else Returned (Ok (RootTag opts)))
          (fun rootTag =>
             match structToNodeOf (ValueOf v) opts [rootTag] with
             | Panicked msg => Panicked msg
             | Returned (Err err) =>
               Returned (Err ("error converting structure to node: " +:+ err))
             | Returned (Ok None) => Returned (Err "returned node is null")
             | Returned (Ok (Some node)) =>
               Returned (encodeRoot opts node)
             end).

End StructToNode.

End Sequential.





(** ** The cache in front of [GetFieldMetadata]

    A [reflect.Type] is the key of the cache; of a struct type the loop
    reads the declared fields ([NumField], [Field]).  The cache is a
    [sync.Map]: a call loads, and on a miss computes and stores. *)

Module Cached.

Section FieldCache.
Context {ReflectType : Type} `{Countable ReflectType}.
Variable declared : ReflectType -> list StructField.

(** The loop over the declared fields, appending to [fields]. *)
Fixpoint collect (rest : list StructField) (fields : list fieldMeta) : list fieldMeta :=
  match rest with
  | [] => fields
  | field :: rest =>
    if String.eqb (Tag field) "-" then collect rest fields
    else collect rest (fields ++ [mkFieldMeta (tagName field) field])
  end.

(** The list and the cache after the call. *)
Definition GetFieldMetadata (t : ReflectType) (fieldCache : gmap ReflectType (list fieldMeta))
  : list fieldMeta * gmap ReflectType (list fieldMeta) :=
  match fieldCache !! t with
  | Some cached => (cached, fieldCache)
  | None =>
    let fields := collect (declared t) [] in
    (fields, <[t := fields]> fieldCache)
  end.

(** The cache after the stores of the calls that missed on [stored], in
    the order in which the stores happened. *)
Definition cacheAfter (stored : list ReflectType) : gmap ReflectType (list fieldMeta) :=
  foldl (fun fieldCache t => <[t := collect (declared t) []]> fieldCache) ∅ stored.

End FieldCache.

End Cached.

(** ** The encoder that writes the namespace first

    The other [VisitElement] of [encoder.go]: the line break belongs to
    [writeIndent], the attribute [xmlns] is written before the others, a
    configured name is written self-closing only without children, and
    the end tag of an element with children is indented.  The record, the
    constructor and [VisitText] are the ones above. *)

Module NamespaceFirst.

Definition writeIndent (e : Encoder) : Encoder :=
  if negb (String.eqb (indent e) "") then
    if (0 <? depth e)%nat
    then Write e (String "010" EmptyString +:+ Repeat (indent e) (depth e))
    else Write e (Repeat (indent e) (depth e))
  else e.

(** What [writeIndent] writes. *)
Definition linePrefix (e : Encoder) : string :=
  if negb (String.eqb (indent e) "") then
    if (0 <? depth e)%nat
    then String "010" EmptyString +:+ Repeat (indent e) (depth e)
    else Repeat (indent e) (depth e)
  else EmptyString.

(** The first loop over the attributes: the first one named [xmlns], then
    [break]. *)
Fixpoint writeXmlns (e : Encoder) (attrs : list Attribute) : Encoder :=
  match attrs with
  | [] => e
  | attr :: rest =>
    if String.eqb (AttrName attr) "xmlns"
    then Write e (" xmlns=" +:+ dquote +:+ escapeString (AttrValue attr) +:+ dquote)
    else writeXmlns e rest
  end.

(** The second loop: the attributes that are not named [xmlns]. *)
Definition writeOthers (e : Encoder) (attrs : list Attribute) : Encoder :=
  foldl (fun e attr =>
           if negb (String.eqb (AttrName attr) "xmlns")
           then Write e (" " +:+ AttrName attr +:+ "=" +:+ dquote
                         +:+ escapeString (AttrValue attr) +:+ dquote)
           else e)
        e attrs.

(** The start of [VisitElement], up to the self-closing decision. *)
Definition openTag (e : Encoder) (name : string) (attrs : list Attribute) : Encoder :=
  let e := writeIndent e in
  let e := Write e ("<" +:+ name) in
  let e := writeXmlns e attrs in
  writeOthers e attrs.

Definition VisitElement (accept : Encoder -> Node -> Encoder) (e : Encoder) (name : string)
           (attrs : list Attribute) (children : list Node) (selfClose : bool) : Encoder :=
  let e := openTag e name attrs in
  if selfClose || (isSelfClosingTag e name && Nat.eqb (length children) 0)
  then Write e "/>"
  else
    let e := Write e ">" in
    let e := setDepth e (S (depth e)) in
    let e := foldl accept e children in
    let e := setDepth e (Nat.pred (depth e)) in
    let e := if negb (String.eqb (indent e) "") && (0 <? length children)%nat
             then writeIndent e else e in
    Write e ("</" +:+ name +:+ ">").

Fixpoint Accept (e : Encoder) (node : Node) {struct node} : Encoder :=
  match node with
  | ElementNode name attrs children selfClose =>
    VisitElement Accept e name attrs children selfClose
  | TextNode text => VisitText e text
  end.

End NamespaceFirst.

(** The attributes in the order in which [NamespaceFirst.VisitElement]
    writes them: the first one named [xmlns], then those with another
    name. *)
Definition isXmlns (attr : Attribute) : bool := String.eqb (AttrName attr) "xmlns".

Definition namespaceFirst (attrs : list Attribute) : list Attribute :=
  firstn 1 (List.filter isXmlns attrs)
  ++ List.filter (fun attr => negb (isXmlns attr)) attrs.

(** ** The first encoder

    The encoder without indentation: its record has the writer and the
    table only. *)

Module Plain.

Record Encoder : Type := mkEncoder {
  w : string;
  selfClosing : gmap string bool
}.

Definition NewEncoder (buf : string) (selfClosingTags : list string) : Encoder :=
  mkEncoder buf (foldl (fun m tag => <[tag := true]> m) ∅ selfClosingTags).

Definition Write (e : Encoder) (p : string) : Encoder :=
  mkEncoder (w e +:+ p) (selfClosing e).

Definition VisitText (e : Encoder) (text : string) : Encoder :=
  Write e (escapeString text).

Definition VisitElement (accept : Encoder -> Node -> Encoder) (e : Encoder) (name : string)
           (attrs : list Attribute) (children : list Node) (selfClose : bool) : Encoder :=
  let e := Write e ("<" +:+ name) in
  let e := foldl (fun e attr =>
                    Write e (" " +:+ AttrName attr +:+ "=" +:+ dquote
                             +:+ escapeString (AttrValue attr) +:+ dquote))
                 e attrs in
  if selfClose || (default false (selfClosing e !! name) && Nat.eqb (length children) 0)
  then Write e "/>"
  else
    let e := Write e ">" in
    let e := foldl accept e children in
    Write e ("</" +:+ name +:+ ">").

Fixpoint Accept (e : Encoder) (node : Node) {struct node} : Encoder :=
  match node with
  | ElementNode name attrs children selfClose =>
    VisitElement Accept e name attrs children selfClose
  | TextNode text => VisitText e text
  end.

End Plain.

(** In every element of the tree, no attribute after the first is named
    [xmlns]. *)
Fixpoint xmlnsLeads (node : Node) : bool :=
  match node with
  | TextNode _ => true
  | ElementNode _ attrs children _ =>
    negb (HasAttribute (tl attrs) "xmlns") && forallb xmlnsLeads children
  end.

(** An encoder without indentation and an encoder of the first kind that
    hold the same output and the same table. *)
Definition compactLike (e : Encoder) (p : Plain.Encoder) : Prop :=
  w e = Plain.w p /\ selfClosing e = Plain.selfClosing p /\ indent e = EmptyString.

(** * Properties *)

(** ** Bytes, bit operations and UTF-8 *)

Module Utf8Facts.
Import Utf8.

Lemma byteVal_range (c : ascii) : 0 <= byteVal c < 256.
Proof.
  unfold byteVal. pose proof (N_ascii_bounded c). lia.
Qed.

Lemma byteOf_byteVal (c : ascii) : byteOf (byteVal c) = c.
Proof.
  unfold byteOf. pose proof (byteVal_range c) as Hc.
  rewrite Z.mod_small by lia. unfold byteVal.
  rewrite N2Z.id. apply ascii_N_embedding.
Qed.

(** Two numbers with no bit in common are joined by [lor] as by [+]. *)
Lemma lor_disjoint (a b k : Z) :
  0 <= k -> a mod 2 ^ k = 0 -> 0 <= b < 2 ^ k -> Z.lor a b = a + b.
Proof.
  intros Hk Ha Hb.
  assert (Hland : Z.land a b = 0).
  { apply Z.bits_inj'. intros n Hn. rewrite Z.land_spec, Z.bits_0.
    destruct (Z.lt_ge_cases n k) as [Hlt | Hge].
    - assert (Hq : a = a / 2 ^ k * 2 ^ k).
      { pose proof (Z.div_mod a (2 ^ k)) as Hdm. lia. }
      rewrite Hq, Z.mul_pow2_bits_low by lia. reflexivity.
    - assert (Hbn : Z.testbit b n = false).
      { apply Z.testbit_false; [lia |].
        rewrite Z.div_small; [reflexivity |].
        split; [lia |]. eapply Z.lt_le_trans; [apply Hb |].
        apply Z.pow_le_mono_r; lia. }
      rewrite Hbn. apply andb_false_r. }
  pose proof (Z.add_lor_land a b). lia.
Qed.

Lemma land_low (x k : Z) : 0 <= k -> Z.land x (2 ^ k - 1) = x mod 2 ^ k.
Proof.
  intros Hk. rewrite <- Z.land_ones by lia.
  f_equal. rewrite Z.ones_equiv. lia.
Qed.

Ltac euclid := Z.to_euclidean_division_equations; lia.

(** The bit operations of the decoder and of the encoder, as arithmetic. *)
Lemma land_maskx (x : Z) : Z.land x maskx = x mod 64.
Proof. apply (land_low x 6). lia. Qed.

Lemma land_mask2 (x : Z) : Z.land x mask2 = x mod 32.
Proof. apply (land_low x 5). lia. Qed.

Lemma land_mask3 (x : Z) : Z.land x mask3 = x mod 16.
Proof. apply (land_low x 4). lia. Qed.

Lemma land_mask4 (x : Z) : Z.land x mask4 = x mod 8.
Proof. apply (land_low x 3). lia. Qed.

Lemma shiftl_mul (x k : Z) : 0 <= k -> Z.shiftl x k = x * 2 ^ k.
Proof. apply Z.shiftl_mul_pow2. Qed.

Lemma shiftr_div (x k : Z) : 0 <= k -> Z.shiftr x k = x / 2 ^ k.
Proof. apply Z.shiftr_div_pow2. Qed.

Lemma lor_tx (x : Z) : 0 <= x < 64 -> Z.lor tx x = 128 + x.
Proof. intros Hx. apply (lor_disjoint 128 x 6); [lia | reflexivity | lia]. Qed.

Lemma lor_t2 (x : Z) : 0 <= x < 32 -> Z.lor t2 x = 192 + x.
Proof. intros Hx. apply (lor_disjoint 192 x 5); [lia | reflexivity | lia]. Qed.

Lemma lor_t3 (x : Z) : 0 <= x < 16 -> Z.lor t3 x = 224 + x.
Proof. intros Hx. apply (lor_disjoint 224 x 4); [lia | reflexivity | lia]. Qed.

Lemma lor_t4 (x : Z) : 0 <= x < 8 -> Z.lor t4 x = 240 + x.
Proof. intros Hx. apply (lor_disjoint 240 x 3); [lia | reflexivity | lia]. Qed.

Lemma lor_shift (x y k : Z) :
  0 <= k -> 0 <= y < 2 ^ k -> Z.lor (Z.shiftl x k) y = x * 2 ^ k + y.
Proof.
  intros Hk Hy. rewrite shiftl_mul by lia.
  apply (lor_disjoint _ _ k); [lia | apply Z.mod_mul; lia | lia].
Qed.

(** The rune of a two-byte sequence, and its two bytes back. *)
Lemma rune2_value (a b : Z) :
  194 <= a <= 223 -> 128 <= b <= 191 ->
  Z.lor (Z.shiftl (Z.land a mask2) 6) (Z.land b maskx) = (a - 192) * 64 + (b - 128).
Proof.
  intros Ha Hb. rewrite land_mask2, land_maskx.
  rewrite lor_shift by (try lia; euclid). euclid.
Qed.

Lemma rune2_bytes (a b : Z) :
  194 <= a <= 223 -> 128 <= b <= 191 ->
  let r := (a - 192) * 64 + (b - 128) in
  Z.lor t2 (lowByte (Z.shiftr r 6)) = a /\ Z.lor tx (Z.land (lowByte r) maskx) = b.
Proof.
  intros Ha Hb r. unfold lowByte. rewrite shiftr_div, land_maskx by lia.
  assert (H1 : (r / 2 ^ 6) mod 256 = a - 192) by (subst r; euclid).
  assert (H2 : (r mod 256) mod 64 = b - 128) by (subst r; euclid).
  rewrite H1, H2, lor_t2, lor_tx by lia. lia.
Qed.

(** Three and four bytes. *)
Lemma rune3_value (a b c : Z) :
  224 <= a <= 239 -> 128 <= b <= 191 -> 128 <= c <= 191 ->
  Z.lor (Z.lor (Z.shiftl (Z.land a mask3) 12) (Z.shiftl (Z.land b maskx) 6))
        (Z.land c maskx)
  = (a - 224) * 4096 + (b - 128) * 64 + (c - 128).
Proof.
  intros Ha Hb Hc. rewrite land_mask3, !land_maskx, !shiftl_mul by lia.
  rewrite (lor_disjoint (a mod 16 * 2 ^ 12) (b mod 64 * 2 ^ 6) 12);
    [| lia | euclid | euclid].
  rewrite (lor_disjoint _ (c mod 64) 6); [| lia | euclid | euclid].
  euclid.
Qed.

Lemma rune3_bytes (a b c : Z) :
  224 <= a <= 239 -> 128 <= b <= 191 -> 128 <= c <= 191 ->
  let r := (a - 224) * 4096 + (b - 128) * 64 + (c - 128) in
  Z.lor t3 (lowByte (Z.shiftr r 12)) = a
  /\ Z.lor tx (Z.land (lowByte (Z.shiftr r 6)) maskx) = b
  /\ Z.lor tx (Z.land (lowByte r) maskx) = c.
Proof.
  intros Ha Hb Hc r. unfold lowByte. rewrite !shiftr_div, !land_maskx by lia.
  assert (H1 : (r / 2 ^ 12) mod 256 = a - 224) by (subst r; euclid).
  assert (H2 : ((r / 2 ^ 6) mod 256) mod 64 = b - 128) by (subst r; euclid).
  assert (H3 : (r mod 256) mod 64 = c - 128) by (subst r; euclid).
  rewrite H1, H2, H3, lor_t3, !lor_tx by lia. lia.
Qed.

Lemma rune4_value (a b c d : Z) :
  240 <= a <= 247 -> 128 <= b <= 191 -> 128 <= c <= 191 -> 128 <= d <= 191 ->
  Z.lor (Z.lor (Z.lor (Z.shiftl (Z.land a mask4) 18) (Z.shiftl (Z.land b maskx) 12))
               (Z.shiftl (Z.land c maskx) 6))
        (Z.land d maskx)
  = (a - 240) * 262144 + (b - 128) * 4096 + (c - 128) * 64 + (d - 128).
Proof.
  intros Ha Hb Hc Hd. rewrite land_mask4, !land_maskx, !shiftl_mul by lia.
  rewrite (lor_disjoint (a mod 8 * 2 ^ 18) (b mod 64 * 2 ^ 12) 18);
    [| lia | euclid | euclid].
  rewrite (lor_disjoint _ (c mod 64 * 2 ^ 6) 12); [| lia | euclid | euclid].
  rewrite (lor_disjoint _ (d mod 64) 6); [| lia | euclid | euclid].
  euclid.
Qed.

Lemma rune4_bytes (a b c d : Z) :
  240 <= a <= 244 -> 128 <= b <= 191 -> 128 <= c <= 191 -> 128 <= d <= 191 ->
  let r := (a - 240) * 262144 + (b - 128) * 4096 + (c - 128) * 64 + (d - 128) in
  Z.lor t4 (lowByte (Z.shiftr r 18)) = a
  /\ Z.lor tx (Z.land (lowByte (Z.shiftr r 12)) maskx) = b
  /\ Z.lor tx (Z.land (lowByte (Z.shiftr r 6)) maskx) = c
  /\ Z.lor tx (Z.land (lowByte r) maskx) = d.
Proof.
  intros Ha Hb Hc Hd r. unfold lowByte. rewrite !shiftr_div, !land_maskx by lia.
  assert (H1 : (r / 2 ^ 18) mod 256 = a - 240) by (subst r; euclid).
  assert (H2 : ((r / 2 ^ 12) mod 256) mod 64 = b - 128) by (subst r; euclid).
  assert (H3 : ((r / 2 ^ 6) mod 256) mod 64 = c - 128) by (subst r; euclid).
  assert (H4 : (r mod 256) mod 64 = d - 128) by (subst r; euclid).
  rewrite H1, H2, H3, H4, lor_t4, !lor_tx by lia. lia.
Qed.

Lemma inRange_spec (lo hi : Z) (c : ascii) :
  inRange lo hi c = true <-> lo <= byteVal c <= hi.
Proof. unfold inRange. rewrite andb_true_iff, !Z.leb_le. tauto. Qed.

Lemma isCont_spec (c : ascii) : isCont c = true <-> 128 <= byteVal c <= 191.
Proof. apply (inRange_spec 128 191). Qed.

Lemma eqb_byteVal (c d : ascii) : Ascii.eqb c d = (byteVal c =? byteVal d).
Proof.
  destruct (Ascii.eqb_spec c d) as [-> | Hne].
  - symmetry. apply Z.eqb_refl.
  - symmetry. apply Z.eqb_neq. intros Heq. apply Hne.
    rewrite <- (byteOf_byteVal c), <- (byteOf_byteVal d). congruence.
Qed.

(** Case analysis on the comparisons of a goal, closing the absurd cases. *)
Ltac zcases :=
  repeat match goal with
         | |- context [?a <? ?b] => destruct (Z.ltb_spec a b); try lia
         | |- context [?a <=? ?b] => destruct (Z.leb_spec a b); try lia
         | |- context [?a =? ?b] => destruct (Z.eqb_spec a b); try lia
         end.

Ltac consts :=
  unfold runeError, maxRune, surrogateMin, surrogateMax, tx, t2, t3, t4, t5,
    rune1Max, rune2Max, rune3Max, locb, hicb in *.

(** *** One iteration of the range loop on a well-formed sequence *)

Lemma decoderune_1 (c0 : ascii) (rest : string) :
  byteVal c0 < 128 -> decoderune (String c0 rest) = (byteVal c0, 1%nat).
Proof. intros Hc. unfold decoderune. consts. cbv zeta. zcases. reflexivity. Qed.

Lemma decoderune_2 (c0 c1 : ascii) (rest : string) :
  194 <= byteVal c0 <= 223 -> 128 <= byteVal c1 <= 191 ->
  decoderune (String c0 (String c1 rest))
  = ((byteVal c0 - 192) * 64 + (byteVal c1 - 128), 2%nat).
Proof.
  intros H0 H1. unfold decoderune. cbv zeta.
  rewrite (proj2 (isCont_spec c1)) by lia.
  rewrite rune2_value by lia. consts. zcases. reflexivity.
Qed.

Lemma decoderune_3 (c0 c1 c2 : ascii) (rest : string) :
  224 <= byteVal c0 <= 239 -> 128 <= byteVal c1 <= 191 -> 128 <= byteVal c2 <= 191 ->
  (byteVal c0 = 224 -> 160 <= byteVal c1) ->
  (byteVal c0 = 237 -> byteVal c1 <= 159) ->
  decoderune (String c0 (String c1 (String c2 rest)))
  = ((byteVal c0 - 224) * 4096 + (byteVal c1 - 128) * 64 + (byteVal c2 - 128), 3%nat).
Proof.
  intros H0 H1 H2 Hlo Hhi. unfold decoderune. cbv zeta.
  rewrite (proj2 (isCont_spec c1)), (proj2 (isCont_spec c2)) by lia.
  rewrite rune3_value by lia. consts. cbn [andb negb]. zcases; reflexivity.
Qed.

Lemma decoderune_4 (c0 c1 c2 c3 : ascii) (rest : string) :
  240 <= byteVal c0 <= 244 -> 128 <= byteVal c1 <= 191 -> 128 <= byteVal c2 <= 191 ->
  128 <= byteVal c3 <= 191 ->
  (byteVal c0 = 240 -> 144 <= byteVal c1) ->
  (byteVal c0 = 244 -> byteVal c1 <= 143) ->
  decoderune (String c0 (String c1 (String c2 (String c3 rest))))
  = ((byteVal c0 - 240) * 262144 + (byteVal c1 - 128) * 4096
     + (byteVal c2 - 128) * 64 + (byteVal c3 - 128), 4%nat).
Proof.
  intros H0 H1 H2 H3 Hlo Hhi. unfold decoderune. cbv zeta.
  rewrite (proj2 (isCont_spec c1)), (proj2 (isCont_spec c2)), (proj2 (isCont_spec c3))
    by lia.
  rewrite rune4_value by lia. consts. cbn [andb negb]. zcases; reflexivity.
Qed.

Ltac bounds := unfold rune1Max, rune2Max, rune3Max, maxRune, surrogateMin, surrogateMax.

Lemma AppendRune_1 (buf : string) (c0 : ascii) :
  byteVal c0 < 128 -> AppendRune buf (byteVal c0) = buf +:+ String c0 EmptyString.
Proof.
  intros Hc. unfold AppendRune. bounds. zcases. now rewrite byteOf_byteVal.
Qed.

Lemma AppendRune_2 (buf : string) (c0 c1 : ascii) :
  194 <= byteVal c0 <= 223 -> 128 <= byteVal c1 <= 191 ->
  AppendRune buf ((byteVal c0 - 192) * 64 + (byteVal c1 - 128))
  = buf +:+ String c0 (String c1 EmptyString).
Proof.
  intros H0 H1. unfold AppendRune. bounds. zcases.
  destruct (rune2_bytes _ _ H0 H1) as [E0 E1]. cbv zeta in E0, E1.
  now rewrite E0, E1, !byteOf_byteVal.
Qed.

Lemma AppendRune_3 (buf : string) (c0 c1 c2 : ascii) :
  224 <= byteVal c0 <= 239 -> 128 <= byteVal c1 <= 191 -> 128 <= byteVal c2 <= 191 ->
  (byteVal c0 = 224 -> 160 <= byteVal c1) ->
  (byteVal c0 = 237 -> byteVal c1 <= 159) ->
  AppendRune buf ((byteVal c0 - 224) * 4096 + (byteVal c1 - 128) * 64 + (byteVal c2 - 128))
  = buf +:+ String c0 (String c1 (String c2 EmptyString)).
Proof.
  intros H0 H1 H2 Hlo Hhi. unfold AppendRune. bounds. cbv zeta.
  destruct (rune3_bytes _ _ _ H0 H1 H2) as (E0 & E1 & E2). cbv zeta in E0, E1, E2.
  zcases; cbn [orb andb]; now rewrite E0, E1, E2, !byteOf_byteVal.
Qed.

Lemma AppendRune_4 (buf : string) (c0 c1 c2 c3 : ascii) :
  240 <= byteVal c0 <= 244 -> 128 <= byteVal c1 <= 191 -> 128 <= byteVal c2 <= 191 ->
  128 <= byteVal c3 <= 191 ->
  (byteVal c0 = 240 -> 144 <= byteVal c1) ->
  (byteVal c0 = 244 -> byteVal c1 <= 143) ->
  AppendRune buf ((byteVal c0 - 240) * 262144 + (byteVal c1 - 128) * 4096
                  + (byteVal c2 - 128) * 64 + (byteVal c3 - 128))
  = buf +:+ String c0 (String c1 (String c2 (String c3 EmptyString))).
Proof.
  intros H0 H1 H2 H3 Hlo Hhi. unfold AppendRune. bounds. cbv zeta.
  destruct (rune4_bytes _ _ _ _ H0 H1 H2 H3) as (E0 & E1 & E2 & E3).
  cbv zeta in E0, E1, E2, E3.
  zcases; cbn [orb andb]; now rewrite E0, E1, E2, E3, !byteOf_byteVal.
Qed.

End Utf8Facts.

(** ** Strings *)

Lemma append_nil_l (a : string) : EmptyString +:+ a = a.
Proof. reflexivity. Qed.

Lemma append_cons (x : ascii) (a b : string) : String x a +:+ b = String x (a +:+ b).
Proof. reflexivity. Qed.

Lemma append_assoc (a b c : string) : (a +:+ b) +:+ c = a +:+ (b +:+ c).
Proof.
  induction a as [| x a IH]; [reflexivity |].
  rewrite !append_cons. now rewrite IH.
Qed.

Lemma append_nil_r (a : string) : a +:+ EmptyString = a.
Proof.
  induction a as [| x a IH]; [reflexivity |].
  rewrite append_cons. now rewrite IH.
Qed.

(** ** Escaping *)

Module EscapeFacts.
Import Utf8 Utf8Facts.

Lemma escapeRune_low (buf : string) (c : ascii) :
  byteVal c < 128 -> escapeRune buf (byteVal c) = buf +:+ escapeByte c.
Proof.
  intros Hc. unfold escapeRune, escapeByte. rewrite !eqb_byteVal.
  change (byteVal "&") with 38. change (byteVal "<") with 60.
  change (byteVal ">") with 62. change (byteVal "034") with 34.
  change (byteVal "'") with 39.
  zcases; try reflexivity. now apply AppendRune_1.
Qed.

Lemma escapeRune_high (buf : string) (r : Z) :
  128 <= r -> escapeRune buf r = AppendRune buf r.
Proof. intros Hr. unfold escapeRune. zcases. reflexivity. Qed.

Lemma escapeByte_high (c : ascii) :
  128 <= byteVal c -> escapeByte c = String c EmptyString.
Proof.
  intros Hc. unfold escapeByte. rewrite !eqb_byteVal.
  change (byteVal "&") with 38. change (byteVal "<") with 60.
  change (byteVal ">") with 62. change (byteVal "034") with 34.
  change (byteVal "'") with 39.
  zcases. reflexivity.
Qed.

(** On well-formed UTF-8 the loop of [escapeString] is the table applied
    byte by byte. *)
Lemma escape_loop_valid (n : nat) :
  forall (s buf : string),
    (String.length s <= n)%nat -> validUTF8 s = true ->
    rangeString escapeRune 0 s buf = buf +:+ escapeBytes s.
Proof.
  induction n as [| n IH]; intros s buf Hlen Hvalid.
  { destruct s; simpl in Hlen; [| lia]. simpl. now rewrite append_nil_r. }
  destruct s as [| c0 r0]; [simpl; now rewrite append_nil_r |].
  cbn [validUTF8] in Hvalid. cbn [String.length] in Hlen.
  pose proof (byteVal_range c0) as B0.
  destruct (Z.ltb_spec (byteVal c0) 128) as [Hlow | Hhigh].
  { cbn [rangeString]. rewrite decoderune_1 by lia. cbn [Nat.pred].
    rewrite IH by (lia || assumption).
    rewrite escapeRune_low by lia. cbn [escapeBytes]. apply append_assoc. }
  destruct r0 as [| c1 r1]; [discriminate |].
  cbn [String.length] in Hlen.
  destruct (inRange 194 223 c0) eqn:R2.
  { apply inRange_spec in R2. apply andb_true_iff in Hvalid as [R1 Hvalid].
    apply inRange_spec in R1.
    cbn [rangeString]. rewrite decoderune_2 by lia. cbn [Nat.pred].
    rewrite IH by (lia || assumption).
    rewrite escapeRune_high, AppendRune_2 by lia.
    cbn [escapeBytes]. rewrite !escapeByte_high by lia.
    rewrite append_assoc. reflexivity. }
  destruct r1 as [| c2 r2]; [discriminate |].
  cbn [String.length] in Hlen.
  destruct (inRange 224 239 c0) eqn:R3.
  { apply inRange_spec in R3.
    apply andb_true_iff in Hvalid as [Hvalid Hrest].
    apply andb_true_iff in Hvalid as [R1 R2'].
    apply inRange_spec in R1, R2'.
    assert (H1 : 128 <= byteVal c1 <= 191
                 /\ (byteVal c0 = 224 -> 160 <= byteVal c1)
                 /\ (byteVal c0 = 237 -> byteVal c1 <= 159)).
    { revert R1. zcases; lia. }
    destruct H1 as (H1 & Hlo & Hhi).
    cbn [rangeString]. rewrite decoderune_3 by (lia || assumption). cbn [Nat.pred].
    rewrite IH by (lia || assumption).
    rewrite escapeRune_high, AppendRune_3 by (lia || assumption).
    cbn [escapeBytes]. rewrite !escapeByte_high by lia.
    rewrite append_assoc. reflexivity. }
  destruct r2 as [| c3 r3]; [discriminate |].
  cbn [String.length] in Hlen.
  apply andb_true_iff in Hvalid as [Hvalid Hrest].
  apply andb_true_iff in Hvalid as [Hvalid R3'].
  apply andb_true_iff in Hvalid as [Hvalid R2'].
  apply andb_true_iff in Hvalid as [R0 R1].
  apply inRange_spec in R0, R1, R2', R3'.
  assert (H1 : 128 <= byteVal c1 <= 191
               /\ (byteVal c0 = 240 -> 144 <= byteVal c1)
               /\ (byteVal c0 = 244 -> byteVal c1 <= 143)).
  { revert R1. zcases; lia. }
  destruct H1 as (H1 & Hlo & Hhi).
  cbn [rangeString]. rewrite decoderune_4 by (lia || assumption). cbn [Nat.pred].
  rewrite IH by (lia || assumption).
  rewrite escapeRune_high, AppendRune_4 by (lia || assumption).
  cbn [escapeBytes]. rewrite !escapeByte_high by lia.
  rewrite append_assoc. reflexivity.
Qed.

(** Reading the entities back undoes the table. *)
Lemma unescape_escapeBytes (s : string) : unescape (escapeBytes s) = s.
Proof.
  unfold unescape. induction s as [| c rest IH]; [reflexivity |].
  cbn [escapeBytes]. unfold escapeByte.
  destruct (Ascii.eqb_spec c "&") as [-> | Hamp];
    [rewrite !append_cons, append_nil_l; cbn; now rewrite IH |].
  destruct (Ascii.eqb_spec c "<") as [-> | Hlt];
    [rewrite !append_cons, append_nil_l; cbn; now rewrite IH |].
  destruct (Ascii.eqb_spec c ">") as [-> | Hgt];
    [rewrite !append_cons, append_nil_l; cbn; now rewrite IH |].
  destruct (Ascii.eqb_spec c "034") as [-> | Hquot];
    [rewrite !append_cons, append_nil_l; cbn; now rewrite IH |].
  destruct (Ascii.eqb_spec c "'") as [-> | Hapos];
    [rewrite !append_cons, append_nil_l; cbn; now rewrite IH |].
  rewrite append_cons, append_nil_l. cbn [unescapeFrom].
  destruct (Ascii.eqb_spec c "&") as [-> | _]; [contradiction |].
  now rewrite IH.
Qed.

Lemma escapeBytes_inj (s1 s2 : string) : escapeBytes s1 = escapeBytes s2 -> s1 = s2.
Proof.
  intros Heq. rewrite <- (unescape_escapeBytes s1), <- (unescape_escapeBytes s2).
  now rewrite Heq.
Qed.

Lemma escapeString_valid (s : string) :
  validUTF8 s = true -> escapeString s = escapeBytes s.
Proof.
  intros Hvalid. unfold escapeString.
  now rewrite (escape_loop_valid (String.length s)) by (lia || assumption).
Qed.

End EscapeFacts.

(** C5, as it holds: on every input string that is well-formed UTF-8,
    [escapeString] replaces exactly the five reserved characters by their
    entities and passes every other byte through unchanged, multi-byte
    sequences included; the entities can be read back, and the escaping is
    injective on such strings. *)
Theorem escapeString_utf8 (s : string) :
  Utf8.validUTF8 s = true ->
  escapeString s = escapeBytes s
  /\ unescape (escapeString s) = s
  /\ forall s' : string,
      Utf8.validUTF8 s' = true -> escapeString s' = escapeString s -> s' = s.
Proof.
  intros Hvalid. rewrite EscapeFacts.escapeString_valid by assumption.
  split; [reflexivity |]. split; [apply EscapeFacts.unescape_escapeBytes |].
  intros s' Hvalid' Heq. rewrite EscapeFacts.escapeString_valid in Heq by assumption.
  now apply EscapeFacts.escapeBytes_inj.
Qed.

Lemma escapeString_utf8_witness :
  Utf8.validUTF8 sampleText = true
  /\ escapeString sampleText = escapeBytes sampleText
  /\ unescape (escapeString sampleText) = sampleText
  /\ forall s' : string,
      Utf8.validUTF8 s' = true -> escapeString s' = escapeString sampleText ->
      s' = sampleText.
Proof.
  split; [reflexivity | apply (escapeString_utf8 sampleText); reflexivity].
Defined.

(** C5, as stated, fails on a string that is not UTF-8: the range loop
    reads the byte 0xFF as U+FFFD and writes that rune's three bytes, as it
    does for the byte 0xFE, so the byte is not passed through and two
    different inputs have the same output. *)
Lemma escapeString_not_injective :
  escapeString (String "255" EmptyString) <> escapeBytes (String "255" EmptyString)
  /\ ~ (forall s' : string,
         escapeString s' = escapeString (String "255" EmptyString) ->
         s' = String "255" EmptyString).
Proof.
  split.
  - vm_compute. discriminate.
  - intros Hinj. specialize (Hinj (String "254" EmptyString) eq_refl). discriminate.
Qed.

(** ** Scalar stringification *)

Module FormatFacts.

Lemma isDigit_digitChar (d : Z) : 0 <= d <= 9 -> isDigit (digitChar d) = true.
Proof.
  intros Hd. unfold isDigit, digitChar, Utf8.byteVal.
  rewrite N_ascii_embedding by lia.
  apply andb_true_iff. split; apply Z.leb_le; lia.
Qed.

(** The digits of a decimal numeral are digits. *)
Lemma digits_uint (u : Decimal.uint) :
  forall (seen : bool) (rest : string),
    digitsPointTwo seen (NilEmpty.string_of_uint u +:+ rest)
    = digitsPointTwo (seen || match u with Decimal.Nil => false | _ => true end) rest.
Proof.
  induction u as [| u IH | u IH | u IH | u IH | u IH | u IH | u IH | u IH | u IH | u IH];
    intros seen rest;
    [cbn [NilEmpty.string_of_uint]; rewrite append_nil_l; now rewrite orb_false_r | ..];
    cbn [NilEmpty.string_of_uint]; rewrite append_cons;
    cbn [digitsPointTwo];
    match goal with |- context [isDigit ?c] => change (isDigit c) with true end;
    cbv iota;
    rewrite IH; now rewrite orb_true_r.
Qed.

Lemma to_uint_nonnil (n : N) : N.to_uint n <> Decimal.Nil.
Proof.
  destruct n as [| p]; [discriminate | apply Unsigned.to_uint_nonnil].
Qed.

Lemma decimal_digits (n : Z) (seen : bool) (rest : string) :
  digitsPointTwo seen (decimal n +:+ rest) = digitsPointTwo true rest.
Proof.
  unfold decimal, NilZero.string_of_uint.
  pose proof (to_uint_nonnil (Z.to_N n)) as Hnn.
  destruct (N.to_uint (Z.to_N n)) eqn:E; try contradiction;
    rewrite digits_uint; now rewrite orb_true_r.
Qed.

(** A decimal numeral starts with a digit. *)
Lemma decimal_head (n : Z) :
  exists (c : ascii) (tail : string), decimal n = String c tail /\ isDigit c = true.
Proof.
  unfold decimal, NilZero.string_of_uint.
  pose proof (to_uint_nonnil (Z.to_N n)) as Hnn.
  destruct (N.to_uint (Z.to_N n)) eqn:E; try contradiction;
    cbn [NilEmpty.string_of_uint]; eexists _, _; split; reflexivity.
Qed.

Lemma roundHalfEven_nonneg (n d : Z) : 0 <= n -> 0 < d -> 0 <= roundHalfEven n d.
Proof.
  intros Hn Hd. unfold roundHalfEven.
  pose proof (Z.div_pos n d Hn Hd) as Hq.
  repeat match goal with
         | |- context [if ?b then _ else _] => destruct b
         end; lia.
Qed.

Lemma hundredths_nonneg (m : positive) (e : Z) : 0 <= hundredths m e.
Proof.
  unfold hundredths. destruct (Z.leb_spec 0 e) as [He | He].
  - pose proof (Z.pow_nonneg 2 e). nia.
  - apply roundHalfEven_nonneg; [lia |]. apply Z.pow_pos_nonneg; lia.
Qed.

Lemma fixed2_shape (neg : bool) (h : Z) : 0 <= h -> isFixed2 (fixed2 neg h) = true.
Proof.
  intros Hh. unfold fixed2.
  assert (Htail : forall seen : bool,
             digitsPointTwo seen
               (decimal (h / 100) +:+ "." +:+
                String (digitChar (h mod 100 / 10))
                  (String (digitChar (h mod 10)) EmptyString)) = true).
  { intros seen. rewrite decimal_digits. rewrite append_cons, append_nil_l.
    cbn [digitsPointTwo]. change (isDigit ".") with false. cbv iota.
    change (Ascii.eqb "." ".") with true. cbv iota. cbn [andb].
    rewrite !isDigit_digitChar; [reflexivity | |];
      Z.to_euclidean_division_equations; lia. }
  destruct neg.
  - rewrite append_cons, append_nil_l. unfold isFixed2.
    change (Ascii.eqb "-" "-") with true. cbv iota. apply Htail.
  - rewrite append_nil_l.
    destruct (decimal_head (h / 100)) as (c & tail & Hdec & Hc).
    specialize (Htail false). rewrite Hdec in *. rewrite append_cons in *.
    unfold isFixed2. destruct (Ascii.eqb_spec c "-") as [-> | _];
      [discriminate Hc | exact Htail].
Qed.

Lemma Sprintf_d_parse (i : Z) :
  option_map Z.of_int (NilZero.int_of_string (Sprintf_d i)) = Some i.
Proof.
  unfold Sprintf_d. rewrite NilZero.isi.
  - cbn [option_map]. now rewrite DecimalZ.of_to.
  - destruct i as [| p | p]; cbn [Z.to_int]; try discriminate.
    intros Heq. injection Heq as Heq. now apply Unsigned.to_uint_nonnil in Heq.
  - destruct i as [| p | p]; cbn [Z.to_int]; try discriminate.
    intros Heq. injection Heq as Heq. now apply Unsigned.to_uint_nonnil in Heq.
Qed.

End FormatFacts.

(** C8, as it holds: every finite floating-point value, zero included,
    renders as a fixed-point numeral with exactly two fractional digits; the
    float 5000 renders as 5000.00; a NaN and the infinities render as
    their names; booleans render as the lowercase words; integers, signed
    or unsigned, render as the decimal numeral that reads back as the
    value. *)
Theorem valueToString_scalars `{GoRuntime} :
  (forall (k : FloatKind) (neg : bool) (m : positive) (e : Z),
      isFixed2 (valueToString (VFloat k (S754_finite neg m e))) = true)
  /\ (forall (k : FloatKind) (neg : bool),
         isFixed2 (valueToString (VFloat k (S754_zero neg))) = true)
  /\ (forall k : FloatKind,
         valueToString (VFloat k float5000) = "5000.00"
         /\ valueToString (VFloat k float5000_normal) = "5000.00")
  /\ (forall k : FloatKind,
         valueToString (VFloat k S754_nan) = "NaN"
         /\ valueToString (VFloat k (S754_infinity false)) = "+Inf"
         /\ valueToString (VFloat k (S754_infinity true)) = "-Inf")
  /\ (forall b : bool, valueToString (VBool b) = if b then "true" else "false")
  /\ (forall (k : IntKind) (i : Z),
         option_map Z.of_int (NilZero.int_of_string (valueToString (VInt k i))) = Some i)
  /\ (forall (k : UintKind) (u : N),
         option_map Z.of_int (NilZero.int_of_string (valueToString (VUint k u)))
         = Some (Z.of_N u)).
Proof.
  repeat split.
  - intros k neg m e. cbn [valueToString Sprintf_2f].
    apply FormatFacts.fixed2_shape, FormatFacts.hundredths_nonneg.
  - intros k neg. cbn [valueToString Sprintf_2f]. now apply FormatFacts.fixed2_shape.
  - intros k i. apply FormatFacts.Sprintf_d_parse.
  - intros k u. apply FormatFacts.Sprintf_d_parse.
Qed.

(** C8, as stated, fails on the floating-point values that are not
    finite: a NaN renders as the word NaN and an infinity as +Inf or -Inf,
    with no fractional digit. *)
Lemma valueToString_nan_not_fixed :
  @valueToString sampleRuntime (VFloat Float64 S754_nan) = "NaN"
  /\ @valueToString sampleRuntime (VFloat Float64 (S754_infinity false)) = "+Inf"
  /\ isFixed2 (@valueToString sampleRuntime (VFloat Float64 S754_nan)) = false
  /\ isFixed2 (@valueToString sampleRuntime (VFloat Float64 (S754_infinity false)))
     = false
  /\ isFixed2 (@valueToString sampleRuntime (VFloat Float64 (S754_infinity true)))
     = false.
Proof. repeat split. Qed.

(** ** The encoder *)

(** Induction on a node, with the property at hand for all the children. *)
Lemma Node_induction (P : Node -> Prop) :
  (forall text : string, P (TextNode text)) ->
  (forall (name : string) (attrs : list Attribute) (children : list Node) (sc : bool),
      Forall P children -> P (ElementNode name attrs children sc)) ->
  forall node : Node, P node.
Proof.
  intros Htext Helem.
  fix IH 1. intros [name attrs children sc | text]; [| apply Htext].
  apply Helem. induction children as [| child rest IHrest]; constructor.
  - apply IH.
  - apply IHrest.
Qed.

Module EncoderFacts.

Lemma Write_Write (e : Encoder) (a b : string) : Write (Write e a) b = Write e (a +:+ b).
Proof. unfold Write. cbn. now rewrite append_assoc. Qed.

Lemma Write_nil (e : Encoder) : Write e EmptyString = e.
Proof. destruct e. unfold Write. cbn. now rewrite append_nil_r. Qed.

Lemma setDepth_Write (e : Encoder) (a : string) (d : nat) :
  setDepth (Write e a) d = Write (setDepth e d) a.
Proof. reflexivity. Qed.

(** The table of self-closing names built by [NewEncoder] holds exactly
    the configured names. *)
Lemma selfClosing_fold (tags : list string) (name : string) :
  forall m : gmap string bool,
    foldl (fun m tag => <[tag := true]> m) m tags !! name
    = if decide (name ∈ tags) then Some true else m !! name.
Proof.
  induction tags as [| tag tags IH]; intros m; cbn [foldl].
  - rewrite decide_False; [reflexivity | set_solver].
  - rewrite IH. destruct (decide (name ∈ tags)) as [Hin | Hnin].
    + rewrite decide_True; [reflexivity | set_solver].
    + destruct (decide (tag = name)) as [-> | Hne].
      * rewrite lookup_insert_eq. rewrite decide_True; [reflexivity | set_solver].
      * rewrite lookup_insert_ne; [| assumption].
        rewrite decide_False; [reflexivity |].
        rewrite elem_of_cons. intros [Heq | Hin]; [congruence | contradiction].
Qed.

Lemma isSelfClosingTag_NewEncoder (buf : string) (tags : list string) (ind name : string) :
  isSelfClosingTag (NewEncoder buf tags ind) name = true <-> name ∈ tags.
Proof.
  unfold isSelfClosingTag, NewEncoder. cbn [selfClosing].
  rewrite selfClosing_fold, lookup_empty.
  destruct (decide (name ∈ tags)); cbn; split; intros; (assumption || discriminate || reflexivity || contradiction).
Qed.

(** [hasNonEmptyChildren] is false exactly when every child is an empty
    text node. *)
Lemma hasNonEmptyChildren_false (children : list Node) :
  hasNonEmptyChildren children = false
  <-> Forall (fun child => child = TextNode EmptyString) children.
Proof.
  unfold hasNonEmptyChildren. induction children as [| child rest IH]; cbn [existsb].
  - split; [constructor | reflexivity].
  - rewrite orb_false_iff, IH, Forall_cons. apply and_iff_compat_r.
    destruct child as [n a c s | text]; [split; [discriminate | discriminate] |].
    destruct (String.eqb_spec text EmptyString) as [-> | Hne]; cbn.
    + split; reflexivity.
    + split; [discriminate | intros [= ->]; contradiction].
Qed.

(** Writing the attributes, the start of the tag, a node: each only
    appends to the output and restores the depth. *)
Lemma writeAttributes_appends (attrs : list Attribute) :
  forall e : Encoder, exists out : string, writeAttributes e attrs = Write e out.
Proof.
  unfold writeAttributes. induction attrs as [| attr attrs IH]; intros e; cbn [foldl].
  - exists EmptyString. now rewrite Write_nil.
  - destruct (IH (Write e (" " +:+ AttrName attr +:+ "=" +:+ dquote
                             +:+ escapeString (AttrValue attr) +:+ dquote)))
      as [out Hout].
    rewrite Hout, Write_Write. eauto.
Qed.

Lemma writeIndent_appends (e : Encoder) : exists out : string, writeIndent e = Write e out.
Proof.
  unfold writeIndent. destruct (negb _); [eauto |].
  exists EmptyString. now rewrite Write_nil.
Qed.

Ltac appended :=
  match goal with
  | |- context [writeAttributes ?x ?a] =>
    let out := fresh "out" in
    let Hout := fresh "Hout" in
    destruct (writeAttributes_appends a x) as [out Hout]; rewrite Hout; clear Hout
  | |- context [writeIndent ?x] =>
    let out := fresh "out" in
    let Hout := fresh "Hout" in
    destruct (writeIndent_appends x) as [out Hout]; rewrite Hout; clear Hout
  end.

Lemma openTag_appends (e : Encoder) (name : string) (attrs : list Attribute) :
  exists out : string, openTag e name attrs = Write e out.
Proof.
  unfold openTag. cbv zeta. appended.
  appended.
  destruct (0 <? depth e)%nat; rewrite ?Write_Write; eauto.
Qed.

(** What [Accept] does to the encoder is one write. *)
Lemma Accept_appends (node : Node) :
  forall e : Encoder, exists out : string, Accept e node = Write e out.
Proof.
  induction node as [text | name attrs children sc IH] using Node_induction; intros e.
  - cbn [Accept]. unfold VisitText. eauto.
  - cbn [Accept]. unfold VisitElement. cbv zeta.
    destruct (openTag_appends e name attrs) as [out0 Hopen]. rewrite Hopen.
    destruct (shouldSelfClose _ _ _ _); [rewrite Write_Write; eauto |].
    assert (Hfold : forall e0 : Encoder,
               exists out : string, foldl Accept e0 children = Write e0 out).
    { clear -IH. induction IH as [| child rest Hchild _ IHrest]; intros e0; cbn [foldl].
      - exists EmptyString. now rewrite Write_nil.
      - destruct (Hchild e0) as [o1 H1]. rewrite H1.
        destruct (IHrest (Write e0 o1)) as [o2 H2]. rewrite H2, Write_Write. eauto. }
    destruct (Hfold (setDepth (Write (Write e out0) ">") (S (depth (Write (Write e out0) ">")))))
      as [out1 Hout1].
    rewrite Hout1. rewrite !setDepth_Write. cbn [depth Write setDepth Nat.pred].
    destruct (lastIsElement children).
    + appended. rewrite !Write_Write.
      destruct e; cbn. eauto.
    + rewrite !Write_Write. destruct e; cbn. eauto.
Qed.

Lemma foldl_Accept_appends (children : list Node) :
  forall e : Encoder, exists out : string, foldl Accept e children = Write e out.
Proof.
  induction children as [| child rest IH]; intros e; cbn [foldl].
  - exists EmptyString. now rewrite Write_nil.
  - destruct (Accept_appends child e) as [o1 H1]. rewrite H1.
    destruct (IH (Write e o1)) as [o2 H2]. rewrite H2, Write_Write. eauto.
Qed.

Lemma isSelfClosingTag_openTag (e : Encoder) (name : string) (attrs : list Attribute)
      (tag : string) :
  isSelfClosingTag (openTag e name attrs) tag = isSelfClosingTag e tag.
Proof. destruct (openTag_appends e name attrs) as [out ->]. reflexivity. Qed.

Lemma shouldSelfClose_spec (e : Encoder) (name : string) (children : list Node) (sc : bool) :
  shouldSelfClose e name children sc = true
  <-> sc = true
      \/ (isSelfClosingTag e name = true
          /\ Forall (fun child => child = TextNode EmptyString) children).
Proof.
  unfold shouldSelfClose.
  rewrite orb_true_iff, andb_true_iff, negb_true_iff, hasNonEmptyChildren_false.
  reflexivity.
Qed.

(** The two ways [VisitElement] ends. *)
Lemma VisitElement_closed (e : Encoder) (name : string) (attrs : list Attribute)
      (children : list Node) (sc : bool) :
  shouldSelfClose (openTag e name attrs) name children sc = true ->
  Accept e (ElementNode name attrs children sc) = Write (openTag e name attrs) "/>".
Proof. intros Hsc. cbn [Accept]. unfold VisitElement. cbv zeta. now rewrite Hsc. Qed.

Lemma VisitElement_open (e : Encoder) (name : string) (attrs : list Attribute)
      (children : list Node) (sc : bool) :
  shouldSelfClose (openTag e name attrs) name children sc = false ->
  exists inner : string,
    w (Accept e (ElementNode name attrs children sc))
    = w (openTag e name attrs) +:+ ">" +:+ inner +:+ "</" +:+ name +:+ ">".
Proof.
  intros Hsc. cbn [Accept]. unfold VisitElement. cbv zeta. rewrite Hsc.
  set (e1 := openTag e name attrs).
  destruct (foldl_Accept_appends children
              (setDepth (Write e1 ">") (S (depth (Write e1 ">"))))) as [out1 ->].
  destruct (lastIsElement children).
  - appended. rewrite !Write_Write, !setDepth_Write, !Write_Write.
    cbn [w Write setDepth].
    exists (out1 +:+ String "010" EmptyString +:+ out).
    now rewrite ?append_assoc.
  - rewrite !setDepth_Write, !Write_Write. cbn [w Write setDepth].
    exists out1. now rewrite ?append_assoc.
Qed.

Lemma writeAttributes_text (attrs : list Attribute) :
  forall e : Encoder, writeAttributes e attrs = Write e (attributesText attrs).
Proof.
  unfold writeAttributes. induction attrs as [| attr rest IH]; intros e;
    cbn [foldl attributesText].
  - now rewrite Write_nil.
  - now rewrite IH, Write_Write.
Qed.

Lemma openTag_text (e : Encoder) (name : string) (attrs : list Attribute) :
  openTag e name attrs = Write e (linePrefix e +:+ "<" +:+ name +:+ attributesText attrs).
Proof.
  unfold openTag, linePrefix, writeIndent. cbv zeta. rewrite writeAttributes_text.
  destruct (0 <? depth e)%nat; cbn [indent depth Write];
    destruct (negb (String.eqb (indent e) EmptyString));
    rewrite ?Write_Write, ?append_assoc, ?append_nil_l; reflexivity.
Qed.

(** The text of an element: what precedes it on its line, the start tag
    with the name and the attributes as they are, then either the
    self-closing end or the content and the end tag. *)
Lemma Accept_element_text (e : Encoder) (name : string) (attrs : list Attribute)
      (children : list Node) (sc : bool) :
  exists rest : string,
    w (Accept e (ElementNode name attrs children sc))
    = w e +:+ linePrefix e +:+ "<" +:+ name +:+ attributesText attrs +:+ rest
    /\ (rest = "/>"
        \/ exists inner : string, rest = ">" +:+ inner +:+ "</" +:+ name +:+ ">").
Proof.
  destruct (shouldSelfClose (openTag e name attrs) name children sc) eqn:Hsc.
  - exists "/>". split; [| now left].
    rewrite (VisitElement_closed e name attrs children sc Hsc).
    rewrite openTag_text. cbn [w Write]. now rewrite ?append_assoc.
  - destruct (VisitElement_open e name attrs children sc Hsc) as [inner Hopen].
    exists (">" +:+ inner +:+ "</" +:+ name +:+ ">"). split; [| right; eauto].
    rewrite Hopen, openTag_text. cbn [w Write]. now rewrite ?append_assoc.
Qed.

End EncoderFacts.

(** C3: an element is rendered self-closing, that is as its start followed
    by [/>] with no child visited, if and only if its flag is set or its
    name is in the configured set and every child is an empty text node
    (no element child, no text child with content).  In particular an
    element of the set whose only child is an empty text renders
    [<name/>], and with a text child that has content it renders
    [<name>content</name>]. *)
Theorem VisitElement_self_closing
        (buf : string) (tags : list string) (ind : string) (d : nat)
        (name : string) (attrs : list Attribute) (children : list Node) (sc : bool) :
  let e := setDepth (NewEncoder buf tags ind) d in
  let policy :=
      sc = true
      \/ (name ∈ tags /\ Forall (fun child => child = TextNode EmptyString) children) in
  (w (Accept e (ElementNode name attrs children sc)) = w (openTag e name attrs) +:+ "/>"
   <-> policy)
  /\ (policy ->
      Accept e (ElementNode name attrs children sc) = Write (openTag e name attrs) "/>")
  /\ (forall (before after : list string) (c : ascii) (text : string),
         let e0 := NewEncoder EmptyString (before ++ name :: after) ind in
         w (Accept e0 (ElementNode name [] [TextNode EmptyString] false))
         = "<" +:+ name +:+ "/>"
         /\ w (Accept e0 (ElementNode name [] [TextNode (String c text)] false))
            = "<" +:+ name +:+ ">" +:+ escapeString (String c text)
              +:+ "</" +:+ name +:+ ">").
Proof.
  intros e policy.
  assert (Hpolicy : shouldSelfClose (openTag e name attrs) name children sc = true
                    <-> policy).
  { rewrite EncoderFacts.shouldSelfClose_spec, EncoderFacts.isSelfClosingTag_openTag.
    unfold policy, e.
    change (isSelfClosingTag (setDepth (NewEncoder buf tags ind) d) name)
      with (isSelfClosingTag (NewEncoder buf tags ind) name).
    now rewrite EncoderFacts.isSelfClosingTag_NewEncoder. }
  split; [| split].
  - split.
    + intros Hout. apply Hpolicy.
      destruct (shouldSelfClose (openTag e name attrs) name children sc) eqn:Hsc;
        [reflexivity |].
      destruct (EncoderFacts.VisitElement_open e name attrs children sc Hsc) as [out Hopen].
      rewrite Hopen in Hout. apply (inj (String.app _)) in Hout. discriminate Hout.
    + intros Hp. apply Hpolicy in Hp.
      now rewrite (EncoderFacts.VisitElement_closed e name attrs children sc Hp).
  - intros Hp. apply Hpolicy in Hp. now apply EncoderFacts.VisitElement_closed.
  - intros before after c text e0.
    assert (Hin : isSelfClosingTag e0 name = true).
    { apply EncoderFacts.isSelfClosingTag_NewEncoder.
      rewrite elem_of_app, elem_of_cons. auto. }
    split.
    + cbn [Accept]. unfold VisitElement, openTag, writeAttributes, writeIndent.
      cbn [foldl depth e0 NewEncoder Nat.ltb Nat.leb Write indent Repeat].
      unfold shouldSelfClose.
      replace (isSelfClosingTag _ name) with true.
      * destruct (negb (String.eqb ind EmptyString)); cbn; now rewrite ?append_nil_r.
      * symmetry. destruct (negb (String.eqb ind EmptyString)); exact Hin.
    + cbn [Accept]. unfold VisitElement, openTag, writeAttributes, writeIndent.
      cbn [foldl depth e0 NewEncoder Nat.ltb Nat.leb Write indent Repeat].
      unfold shouldSelfClose. cbn [hasNonEmptyChildren existsb String.eqb negb orb andb].
      rewrite andb_false_r.
      destruct (negb (String.eqb ind EmptyString)); cbn;
        rewrite ?append_nil_r, ?append_assoc; reflexivity.
Qed.

(** ** The two builds of a sequence *)

Module SliceFacts.

Section Results.
Variable results : list (result (option Node)).
Hypothesis all_ok : Forall (fun r => isOk r = true) results.

Lemma goroutine_ok_errChan (st : sliceState) (index : nat) :
  errChan (goroutine results st index) = errChan st.
Proof.
  unfold goroutine. destruct (results !! index) as [[c | e] |] eqn:E; try reflexivity.
  apply (Forall_lookup_1 _ _ _ _ all_ok) in E. discriminate E.
Qed.

Lemma fold_ok_errChan (order : list nat) :
  forall st : sliceState, errChan (foldl (goroutine results) st order) = errChan st.
Proof.
  induction order as [| i order IH]; intros st; cbn [foldl]; [reflexivity |].
  now rewrite IH, goroutine_ok_errChan.
Qed.

(** Every goroutine that has run has left the node of its item at its
    index; the other slots are untouched. *)
Lemma fold_ok_childNodes (order : list nat) :
  forall (st : sliceState) (i : nat),
    length (childNodes st) = length results ->
    (i < length results)%nat ->
    childNodes (foldl (goroutine results) st order) !! i
    = if decide (i ∈ order) then nodeOf <$> results !! i else childNodes st !! i.
Proof.
  induction order as [| j order IH]; intros st i Hlen Hi; cbn [foldl].
  - rewrite decide_False; [reflexivity | apply not_elem_of_nil].
  - assert (Hlen' : length (childNodes (goroutine results st j)) = length results).
    { unfold goroutine. destruct (results !! j) as [[c | e] |]; cbn [childNodes];
        rewrite ?length_insert; exact Hlen. }
    rewrite IH by assumption.
    destruct (decide (i ∈ order)) as [Hin | Hnin].
    + rewrite decide_True; [reflexivity | now apply elem_of_cons; right].
    + destruct (decide (i = j)) as [-> | Hne].
      * rewrite decide_True; [| now apply elem_of_cons; left].
        unfold goroutine. destruct (results !! j) as [[c | e] |] eqn:E.
        -- cbn [childNodes fmap option_fmap option_map nodeOf].
           apply list_lookup_insert_eq. now rewrite Hlen.
        -- apply (Forall_lookup_1 _ _ _ _ all_ok) in E. discriminate E.
        -- apply lookup_ge_None in E. lia.
      * rewrite decide_False;
          [| rewrite elem_of_cons; intros [Heq | Hin]; [congruence | contradiction]].
        unfold goroutine. destruct (results !! j) as [[c | e] |]; cbn [childNodes];
          [| reflexivity | reflexivity].
        apply list_lookup_insert_ne. congruence.
Qed.

(** Once all the goroutines have run, the slots hold the nodes of the
    items in index order. *)
Lemma fold_ok_all (order : list nat) :
  order ≡ₚ seq 0 (length results) ->
  childNodes (foldl (goroutine results)
                    (mkSliceState (replicate (length results) None) None) order)
  = map nodeOf results.
Proof.
  intros Hperm.
  assert (Hlen : forall (order' : list nat) (st : sliceState),
             length (childNodes (foldl (goroutine results) st order'))
             = length (childNodes st)).
  { induction order' as [| j order' IH]; intros st; cbn [foldl]; [reflexivity |].
    rewrite IH. unfold goroutine.
    destruct (results !! j) as [[c | e] |]; cbn [childNodes];
      rewrite ?length_insert; reflexivity. }
  apply list_eq. intros i.
  destruct (decide (i < length results)%nat) as [Hi | Hi].
  - rewrite fold_ok_childNodes; cbn [childNodes]; rewrite ?length_replicate; try lia.
    rewrite decide_True; [now rewrite list_lookup_fmap |].
    rewrite Hperm. apply elem_of_seq. lia.
  - rewrite !lookup_ge_None_2; [reflexivity | rewrite length_map; lia |].
    rewrite Hlen. cbn [childNodes]. rewrite length_replicate. lia.
Qed.

End Results.

(** The error channel: the first error sent stays, later ones are dropped. *)
Lemma fold_errChan_full (results : list (result (option Node))) (order : list nat) :
  forall (st : sliceState) (e : string),
    errChan st = Some e -> errChan (foldl (goroutine results) st order) = Some e.
Proof.
  induction order as [| j order IH]; intros st e He; cbn [foldl]; [exact He |].
  apply IH. unfold goroutine.
  destruct (results !! j) as [[c | e'] |]; cbn [errChan]; rewrite ?He; reflexivity.
Qed.

Lemma fold_errChan_some (results : list (result (option Node))) (order : list nat) :
  forall st : sliceState,
    errChan st = None ->
    (exists (i : nat) (e : string), i ∈ order /\ results !! i = Some (Err e)) ->
    exists (i : nat) (e : string),
      i ∈ order /\ results !! i = Some (Err e)
      /\ errChan (foldl (goroutine results) st order) = Some e.
Proof.
  induction order as [| j order IH]; intros st Hnone (i & e & Hin & Hi).
  - now apply not_elem_of_nil in Hin.
  - cbn [foldl]. destruct (results !! j) as [[c | e'] |] eqn:E.
    + assert (Hin' : i ∈ order).
      { apply elem_of_cons in Hin as [-> | Hin]; [congruence | exact Hin]. }
      destruct (IH (goroutine results st j)) as (i' & e'' & Hin'' & Hi' & Hch).
      * unfold goroutine. now rewrite E.
      * eauto.
      * exists i', e''. split; [now apply elem_of_cons; right | auto].
    + exists j, e'. split; [now apply elem_of_cons; left |]. split; [exact E |].
      apply fold_errChan_full. unfold goroutine. rewrite E. cbn [errChan].
      now rewrite Hnone.
    + assert (Hin' : i ∈ order).
      { apply elem_of_cons in Hin as [-> | Hin]; [congruence | exact Hin]. }
      destruct (IH (goroutine results st j)) as (i' & e'' & Hin'' & Hi' & Hch).
      * unfold goroutine. now rewrite E.
      * eauto.
      * exists i', e''. split; [now apply elem_of_cons; right | auto].
Qed.

(** The sequential loop. *)
Lemma buildItemsFrom_ok (build : Value -> list string -> result (option Node))
      (tags : list string) (items : list Value) :
  forall children : list Node,
    Forall (fun r => isOk r = true) (map (fun item => build item tags) items) ->
    buildItemsFrom build items tags children
    = Ok (children ++ omap nodeOf (map (fun item => build item tags) items)).
Proof.
  induction items as [| item rest IH]; intros children Hok; cbn [buildItemsFrom map].
  - cbn. now rewrite app_nil_r.
  - apply Forall_cons in Hok as [Hitem Hrest].
    destruct (build item tags) as [[c |] | e]; [| | discriminate Hitem].
    + rewrite IH by assumption. cbn [omap list_omap nodeOf]. now rewrite <- app_assoc.
    + rewrite IH by assumption. reflexivity.
Qed.

Lemma buildItemsFrom_err (build : Value -> list string -> result (option Node))
      (tags : list string) (items : list Value) :
  forall children : list Node,
    ~ Forall (fun r => isOk r = true) (map (fun item => build item tags) items) ->
    exists (i : nat) (e : string),
      map (fun item => build item tags) items !! i = Some (Err e)
      /\ (forall (j : nat) (r : result (option Node)),
             (j < i)%nat -> map (fun item => build item tags) items !! j = Some r ->
             isOk r = true)
      /\ buildItemsFrom build items tags children = Err e.
Proof.
  induction items as [| item rest IH]; intros children Hnok; cbn [buildItemsFrom map] in *.
  - exfalso. apply Hnok. constructor.
  - destruct (build item tags) as [c | e] eqn:E.
    + assert (Hrest : ~ Forall (fun r => isOk r = true)
                        (map (fun item => build item tags) rest)).
      { intros Hall. apply Hnok. now constructor. }
      destruct c as [c |].
      * destruct (IH (children ++ [c]) Hrest) as (i & e & Hi & Hbefore & Hres).
        exists (S i), e. split; [exact Hi |]. split; [| exact Hres].
        intros [| j] r Hj Hr; [now injection Hr as <- |].
        apply (Hbefore j r); [lia | exact Hr].
      * destruct (IH children Hrest) as (i & e & Hi & Hbefore & Hres).
        exists (S i), e. split; [exact Hi |]. split; [| exact Hres].
        intros [| j] r Hj Hr; [now injection Hr as <- |].
        apply (Hbefore j r); [lia | exact Hr].
    + exists 0%nat, e. split; [reflexivity |]. split; [intros j r Hj; lia | reflexivity].
Qed.

End SliceFacts.

(** C4, as it holds: for every sequence, tag path and completion order of
    the goroutines, the parallel build returns what the sequential build
    returns when no item fails: the element whose children are the nodes
    of the items in index order, one child per item whose build yields a
    node.  When an item fails both builds fail, each with the error of one
    single failing item. *)
Theorem handleSliceNode_parallel_sequential
        (build : Value -> list string -> result (option Node))
        (items : list Value) (currentTag : string) (remainingTags : list string)
        (order : list nat) :
  order ≡ₚ seq 0 (length items) ->
  let results := map (fun item => build item remainingTags) items in
  (Forall (fun r => isOk r = true) results ->
   handleSliceNode build order items currentTag remainingTags
   = Ok (Some (ElementNode currentTag [] (omap nodeOf results) false))
   /\ handleSliceNode_seq build items currentTag remainingTags
      = handleSliceNode build order items currentTag remainingTags)
  /\ (~ Forall (fun r => isOk r = true) results ->
      (exists (i : nat) (e : string),
          results !! i = Some (Err e)
          /\ handleSliceNode build order items currentTag remainingTags = Err e)
      /\ (exists (i : nat) (e : string),
             results !! i = Some (Err e)
             /\ handleSliceNode_seq build items currentTag remainingTags = Err e)).
Proof.
  intros Hperm results.
  assert (Hlen : length results = length items) by apply length_map.
  split.
  - intros Hok.
    assert (Hpar : handleSliceNode build order items currentTag remainingTags
                   = Ok (Some (ElementNode currentTag [] (omap nodeOf results) false))).
    { unfold handleSliceNode. fold results. rewrite <- Hlen.
      rewrite SliceFacts.fold_ok_errChan by assumption. cbn [errChan].
      rewrite SliceFacts.fold_ok_all by (assumption || now rewrite Hlen).
      do 4 f_equal. clear. induction results as [| r rs IH]; [reflexivity |].
      cbn. destruct (nodeOf r); cbn; now rewrite IH. }
    split; [exact Hpar |]. rewrite Hpar.
    unfold handleSliceNode_seq, buildItems.
    now rewrite SliceFacts.buildItemsFrom_ok by assumption.
  - intros Hnok. split.
    + assert (Hsome : exists (i : nat) (e : string),
                 i ∈ order /\ results !! i = Some (Err e)).
      { apply not_Forall_Exists in Hnok; [| intros r; apply _].
        apply Exists_exists in Hnok as (r & Hin & Hr).
        apply list_elem_of_lookup in Hin as [i Hi].
        destruct r as [c | e]; [contradiction Hr; reflexivity |].
        exists i, e. split; [| exact Hi].
        rewrite Hperm. apply elem_of_seq. apply lookup_lt_Some in Hi. lia. }
      destruct (SliceFacts.fold_errChan_some results order
                  (mkSliceState (replicate (length items) None) None) eq_refl Hsome)
        as (i & e & _ & Hi & Hch).
      exists i, e. split; [exact Hi |].
      unfold handleSliceNode. fold results. now rewrite Hch.
    + destruct (SliceFacts.buildItemsFrom_err build remainingTags items [] Hnok)
        as (i & e & Hi & _ & Hres).
      exists i, e. split; [exact Hi |].
      unfold handleSliceNode_seq, buildItems. now rewrite Hres.
Qed.

Lemma handleSliceNode_parallel_sequential_witness :
  let items := [VString "a"; VPtr None; VString "b"] in
  let order := [2; 1; 0]%nat in
  handleSliceNode sampleBuild order items "tags" ["tag"]
  = Ok (Some (ElementNode "tags" []
                          [ElementNode "tag" [] [TextNode "a"] false;
                           ElementNode "tag" [] [TextNode "b"] false] false))
  /\ handleSliceNode_seq sampleBuild items "tags" ["tag"]
     = handleSliceNode sampleBuild order items "tags" ["tag"].
Proof.
  refine (proj1 (handleSliceNode_parallel_sequential
                   sampleBuild [VString "a"; VPtr None; VString "b"] "tags" ["tag"]
                   [2; 1; 0]%nat _) _).
  - symmetry. apply (Permutation_rev [0; 1; 2]%nat).
  - repeat constructor.
Defined.

(** C4, as stated, fails on a sequence with a nil item: the item yields no
    node, so the element has fewer children than the sequence has items,
    in the parallel build as in the sequential one. *)
Lemma handleSliceNode_nil_item :
  handleSliceNode sampleBuild [0%nat] [VPtr None] "list" ["item"]
  = Ok (Some (ElementNode "list" [] [] false))
  /\ handleSliceNode_seq sampleBuild [VPtr None] "list" ["item"]
     = Ok (Some (ElementNode "list" [] [] false))
  /\ length (@nil Node) <> length [VPtr None].
Proof. repeat split. discriminate. Qed.

(** ** The tree builder *)

(** Induction on a value, with the property at hand for what a pointer or
    an interface holds, for the items of a sequence and for the values of
    the fields of a struct. *)
Lemma Value_induction (P : Value -> Prop) :
  (forall val : Value,
      match val with
      | VPtr (Some _) | VInterface (Some _) | VSlice _ | VArray _ | VStruct _ => True
      | _ => P val
      end) ->
  (forall elem : Value, P elem -> P (VPtr (Some elem))) ->
  (forall elem : Value, P elem -> P (VInterface (Some elem))) ->
  (forall items : list Value, Forall P items -> P (VSlice items)) ->
  (forall items : list Value, Forall P items -> P (VArray items)) ->
  (forall fields : list (StructField * Value),
      Forall (fun field => P (snd field)) fields -> P (VStruct fields)) ->
  forall val : Value, P val.
Proof.
  intros Hleaf Hptr Hiface Hslice Harray Hstruct.
  fix IH 1. intros val.
  assert (Hitems : forall items : list Value, Forall P items).
  { intros items. induction items as [| item rest IHrest]; constructor;
      [apply IH | exact IHrest]. }
  destruct val as [b | k i | k u | k f | s | [elem |] | [elem |] | items | items
                   | len | k | fields].
  - apply (Hleaf (VBool b)).
  - apply (Hleaf (VInt k i)).
  - apply (Hleaf (VUint k u)).
  - apply (Hleaf (VFloat k f)).
  - apply (Hleaf (VString s)).
  - apply Hptr, IH.
  - apply (Hleaf (VPtr None)).
  - apply Hiface, IH.
  - apply (Hleaf (VInterface None)).
  - apply Hslice, Hitems.
  - apply Harray, Hitems.
  - apply (Hleaf (VMap len)).
  - apply (Hleaf (VOpaque k)).
  - apply Hstruct. induction fields as [| [field fieldValue] rest IHrest]; constructor;
      [apply IH | exact IHrest].
Qed.

Module BuilderFacts.

Lemma total_isOk (build : Value -> list string -> result (option Node)) (val : Value)
      (tags : list string) :
  total build val -> isOk (build val tags) = true.
Proof.
  intros Ht. specialize (Ht tags). destruct (derefsToNil val).
  - now rewrite Ht.
  - destruct Ht as (node & -> & _). reflexivity.
Qed.

Section Helpers.
Context `{GoRuntime}.
Variable build : Value -> list string -> result (option Node).

Lemma buildItemsFrom_total (items : list Value) (tags : list string) :
  Forall (total build) items ->
  forall children : list Node,
  exists kids : list Node, buildItemsFrom build items tags children = Ok kids.
Proof.
  intros Hitems children. eexists. apply SliceFacts.buildItemsFrom_ok.
  apply Forall_map. eapply Forall_impl; [exact Hitems |].
  intros item Ht. now apply total_isOk.
Qed.

Lemma processChildTags_total (element : Node) (fieldValue : Value)
      (childTags : list string) :
  fieldTotal build fieldValue -> isElement element ->
  exists element' : Node,
    processChildTags build element fieldValue childTags = Ok element'
    /\ isElement element'.
Proof.
  intros [Ht Hitems] Hel. unfold processChildTags.
  assert (Hsingle : exists kids : list Node,
             (do childNode <- build fieldValue [List.last childTags EmptyString];
              Ok (match childNode with
                  | Some n => [n]
                  | None => []
                  end)) = Ok kids).
  { specialize (Ht [List.last childTags EmptyString]).
    destruct (derefsToNil fieldValue).
    - rewrite Ht. cbn. eauto.
    - destruct Ht as (node & -> & _). cbn. eauto. }
  assert (Hkids : exists kids : list Node,
             match fieldValue with
             | VSlice items | VArray items =>
               buildItems build items [List.last childTags EmptyString]
             | _ =>
               do childNode <- build fieldValue [List.last childTags EmptyString];
               Ok (match childNode with
                   | Some n => [n]
                   | None => []
                   end)
             end = Ok kids).
  { destruct fieldValue; try exact Hsingle;
      unfold buildItems; now apply buildItemsFrom_total. }
  destruct Hkids as [kids ->]. cbn [bind].
  destruct element; [eexists; split; [reflexivity | exact I] | contradiction].
Qed.

Lemma handleField_total (element : Node) (field : StructField) (fieldValue : Value) :
  fieldTotal build fieldValue -> isElement element ->
  exists element' : Node,
    handleField build element field fieldValue = Ok element' /\ isElement element'.
Proof.
  intros Hfv Hel. unfold handleField.
  destruct (Anonymous field).
  { unfold processAnonymousField. destruct Hfv as [Ht _]. specialize (Ht []).
    destruct (derefsToNil fieldValue).
    - rewrite Ht. cbn. eauto.
    - destruct Ht as (node & -> & Hnode). cbn [bind].
      destruct node; [| contradiction]. destruct element; [| contradiction].
      eexists. split; [reflexivity | exact I]. }
  destruct (String.eqb (Tag field) "-"); [eauto |].
  destruct (IsXMLName field).
  { destruct (String.eqb (xmlNameLocal fieldValue) EmptyString); [eauto |].
    destruct element; [| contradiction]. eexists. split; [reflexivity | exact I]. }
  unfold processField.
  destruct (contains (tagOptions field) "attr").
  { destruct element; [| contradiction]. eexists. split; [reflexivity | exact I]. }
  destruct (contains (tagOptions field) "omitempty" && isEmptyValue fieldValue);
    [eauto |].
  now apply processChildTags_total.
Qed.

Lemma handleFields_total (fields : list (StructField * Value)) :
  Forall (fun field => fieldTotal build (snd field)) fields ->
  forall element : Node,
    isElement element ->
    exists node : Node,
      handleFields build fields element = Ok (Some node) /\ isElement node.
Proof.
  induction 1 as [| [field fieldValue] rest Hfv _ IH]; intros element Hel;
    cbn [handleFields]; [eauto |].
  destruct (String.eqb (Tag field) "-"); [now apply IH |].
  destruct (handleField_total element field fieldValue Hfv Hel) as (element' & -> & Hel').
  now apply IH.
Qed.

End Helpers.

(** Two recursive calls that agree on a value, and on its items when it
    is a sequence, give the same fields. *)
Section Agree.
Context `{GoRuntime}.
Variables build1 build2 : Value -> list string -> result (option Node).

Lemma buildItemsFrom_agree (items : list Value) (tags : list string) :
  Forall (agree build1 build2) items ->
  forall children : list Node,
    buildItemsFrom build1 items tags children = buildItemsFrom build2 items tags children.
Proof.
  induction 1 as [| item rest Hitem _ IH]; intros children; cbn [buildItemsFrom];
    [reflexivity |].
  rewrite (Hitem tags). destruct (build2 item tags) as [[c |] | e]; auto.
Qed.

Lemma handleField_agree (element : Node) (field : StructField) (fieldValue : Value) :
  fieldAgree build1 build2 fieldValue ->
  handleField build1 element field fieldValue = handleField build2 element field fieldValue.
Proof.
  intros [Hv Hitems]. unfold handleField, processAnonymousField, processField,
                        processChildTags, buildItems.
  rewrite (Hv []).
  destruct (Anonymous field); [reflexivity |].
  destruct (String.eqb (Tag field) "-"); [reflexivity |].
  destruct (IsXMLName field); [reflexivity |].
  destruct (contains (tagOptions field) "attr"); [reflexivity |].
  destruct (contains (tagOptions field) "omitempty" && isEmptyValue fieldValue);
    [reflexivity |].
  destruct fieldValue; rewrite ?Hv; try reflexivity;
    now rewrite (buildItemsFrom_agree _ _ Hitems).
Qed.

Lemma handleFields_agree (fields : list (StructField * Value)) :
  Forall (fun field => fieldAgree build1 build2 (snd field)) fields ->
  forall element : Node,
    handleFields build1 fields element = handleFields build2 fields element.
Proof.
  induction 1 as [| [field fieldValue] rest Hfv _ IH]; intros element;
    cbn [handleFields]; [reflexivity |].
  rewrite (handleField_agree element field fieldValue Hfv).
  destruct (String.eqb (Tag field) "-"); [apply IH |].
  destruct (handleField build2 element field fieldValue); [apply IH | reflexivity].
Qed.

Lemma handleSliceNode_agree (order : list nat) (items : list Value)
      (currentTag : string) (remainingTags : list string) :
  Forall (agree build1 build2) items ->
  handleSliceNode build1 order items currentTag remainingTags
  = handleSliceNode build2 order items currentTag remainingTags.
Proof.
  intros Hitems. unfold handleSliceNode.
  assert (Hmap : map (fun item => build1 item remainingTags) items
                 = map (fun item => build2 item remainingTags) items).
  { induction Hitems as [| item rest Hitem _ IH]; cbn [map]; [reflexivity |].
    now rewrite (Hitem remainingTags), IH. }
  now rewrite Hmap.
Qed.

End Agree.

(** [structToNode] only passes its options on: they do not change what it
    builds. *)
Lemma structToNode_options `{GoRuntime} (opts1 opts2 : MarshalOptions) (val : Value) :
  fieldAgree (fun v tags => structToNode v opts1 tags)
             (fun v tags => structToNode v opts2 tags) val.
Proof.
  pattern val. apply Value_induction; clear val;
    [intros val | intros elem IH | intros elem IH | intros items IH | intros items IH
     | intros fields IH].
  - destruct val as [b | k i | k u | k f | s | [elem |] | [elem |] | items | items
                     | len | k | fields]; try exact I;
      (split; [| exact I]); intros tags; reflexivity.
  - split; [| exact I]. intros tags. cbn [structToNode]. apply IH.
  - split; [| exact I]. intros tags. cbn [structToNode]. apply IH.
  - assert (Hitems : Forall (agree (fun v tags => structToNode v opts1 tags)
                                   (fun v tags => structToNode v opts2 tags)) items).
    { eapply Forall_impl; [exact IH |]. now intros item [Ht _]. }
    split; [| exact Hitems]. intros tags. cbn [structToNode].
    now apply handleSliceNode_agree.
  - assert (Hitems : Forall (agree (fun v tags => structToNode v opts1 tags)
                                   (fun v tags => structToNode v opts2 tags)) items).
    { eapply Forall_impl; [exact IH |]. now intros item [Ht _]. }
    split; [| exact Hitems]. intros tags. cbn [structToNode].
    now apply handleSliceNode_agree.
  - split; [| exact I]. intros tags. cbn [structToNode]. unfold handleStructNode.
    now apply handleFields_agree.
Qed.

(** The loop of [handleStructNode] over the declared fields is the loop
    over the metadata list. *)
Lemma handleFields_metadata `{GoRuntime}
      (build : Value -> list string -> result (option Node))
      (fields : list (StructField * Value)) :
  forall element : Node,
    handleFields build fields element
    = handleMetas build (GetFieldMetadata fields) element.
Proof.
  induction fields as [| [field fieldValue] rest IH]; intros element;
    cbn [handleFields GetFieldMetadata]; [reflexivity |].
  destruct (String.eqb (Tag field) "-"); [apply IH |].
  cbn [handleMetas FieldType].
  destruct (handleField build element field fieldValue); [apply IH | reflexivity].
Qed.

Section StructToNode.
Context `{GoRuntime}.
Variable opts : MarshalOptions.

Lemma structToNode_fieldTotal (val : Value) :
  fieldTotal (fun v tags => structToNode v opts tags) val.
Proof.
  pattern val. apply Value_induction; clear val;
    [intros val | intros elem IH | intros elem IH | intros items IH | intros items IH
     | intros fields IH].
  - destruct val as [b | k i | k u | k f | s | [elem |] | [elem |] | items | items
                     | len | k | fields]; try exact I;
      (split; [| exact I]); intros tags; cbn [derefsToNil structToNode];
        try reflexivity; eexists; (split; [reflexivity | exact I]).
  - split; [| exact I]. intros tags. cbn [derefsToNil structToNode]. apply IH.
  - split; [| exact I]. intros tags. cbn [derefsToNil structToNode]. apply IH.
  - assert (Hitems : Forall (total (fun v tags => structToNode v opts tags)) items).
    { eapply Forall_impl; [exact IH |]. now intros item [Ht _]. }
    split; [| exact Hitems]. intros tags. cbn [derefsToNil structToNode].
    unfold handleSliceNode. rewrite SliceFacts.fold_ok_errChan.
    + cbn [errChan]. eexists. split; [reflexivity | exact I].
    + apply Forall_map. eapply Forall_impl; [exact Hitems |].
      intros item Ht.
      exact (total_isOk (fun v tags => structToNode v opts tags) item _ Ht).
  - assert (Hitems : Forall (total (fun v tags => structToNode v opts tags)) items).
    { eapply Forall_impl; [exact IH |]. now intros item [Ht _]. }
    split; [| exact Hitems]. intros tags. cbn [derefsToNil structToNode].
    unfold handleSliceNode. rewrite SliceFacts.fold_ok_errChan.
    + cbn [errChan]. eexists. split; [reflexivity | exact I].
    + apply Forall_map. eapply Forall_impl; [exact Hitems |].
      intros item Ht.
      exact (total_isOk (fun v tags => structToNode v opts tags) item _ Ht).
  - split; [| exact I]. intros tags. cbn [derefsToNil structToNode].
    unfold handleStructNode. now apply handleFields_total.
Qed.

Lemma structToNode_total (val : Value) (tags : list string) :
  if derefsToNil val then structToNode val opts tags = Ok None
  else exists node : Node, structToNode val opts tags = Ok (Some node) /\ isElement node.
Proof. apply (proj1 (structToNode_fieldTotal val) tags). Qed.

Lemma structToNode_nil (val : Value) (tags : list string) :
  structToNode val opts tags = Ok None <-> derefsToNil val = true.
Proof.
  pose proof (structToNode_total val tags) as Ht.
  destruct (derefsToNil val).
  - split; [reflexivity | intros _; exact Ht].
  - destruct Ht as (node & -> & _). split; discriminate.
Qed.

Lemma structToNode_never_fails (val : Value) (tags : list string) (e : string) :
  structToNode val opts tags <> Err e.
Proof.
  pose proof (structToNode_total val tags) as Ht.
  destruct (derefsToNil val).
  - rewrite Ht. discriminate.
  - destruct Ht as (node & -> & _). discriminate.
Qed.

(** The build of a sequence inside [structToNode] is the sequential one,
    whatever the order in which the goroutines complete. *)
Lemma structToNode_slice_sequential (items : list Value) (tags : list string) :
  structToNode (VSlice items) opts tags
  = handleSliceNode_seq (fun v tags => structToNode v opts tags) items
                        (hd EmptyString tags) (tl tags).
Proof.
  cbn [structToNode]. unfold handleSliceNode_seq, buildItems.
  assert (Hok : Forall (fun r => isOk r = true)
                       (map (fun item => structToNode item opts (tl tags)) items)).
  { apply Forall_map, Forall_forall. intros item _.
    exact (total_isOk (fun v tags => structToNode v opts tags) item _
                      (proj1 (structToNode_fieldTotal item))). }
  rewrite (SliceFacts.buildItemsFrom_ok (fun v tags => structToNode v opts tags)
             (tl tags) items [] Hok).
  unfold handleSliceNode.
  rewrite SliceFacts.fold_ok_errChan by exact Hok. cbn [errChan bind].
  assert (Hlen : length items
                 = length (map (fun item => structToNode item opts (tl tags)) items))
    by now rewrite length_map.
  rewrite Hlen, SliceFacts.fold_ok_all.
  - do 4 f_equal.
    generalize (map (fun item => structToNode item opts (tl tags)) items).
    intros results. induction results as [| r rs IH]; [reflexivity |].
    cbn. destruct (nodeOf r); cbn; now rewrite IH.
  - exact Hok.
  - rewrite <- Hlen. apply completionOrder_all.
Qed.

(** A plain field goes through [processField] with the name and the
    options of its tag. *)
Lemma handleField_plain (build : Value -> list string -> result (option Node))
      (element : Node) (field : StructField) (fieldValue : Value) :
  Anonymous field = false -> String.eqb (Tag field) "-" = false ->
  IsXMLName field = false ->
  handleField build element field fieldValue
  = processField build element fieldValue (tagName field) (tagOptions field).
Proof. intros Ha Ht Hx. unfold handleField. now rewrite Ha, Ht, Hx. Qed.

End StructToNode.

End BuilderFacts.

(** C2 on the code: with an empty tag path [structToNode] builds an
    element with the empty name around a scalar, and around the items of a
    sequence, and it never returns an error; the items of a root sequence
    are serialized inside elements without a name. *)
Theorem structToNode_empty_tag_path `{GoRuntime} (opts : MarshalOptions) :
  (forall val : Value,
      match val with
      | VPtr _ | VInterface _ | VStruct _ | VSlice _ | VArray _ => True
      | _ =>
        structToNode val opts []
        = Ok (Some (ElementNode EmptyString [] [TextNode (valueToString val)] false))
      end)
  /\ (forall items : list Value,
         exists children : list Node,
           structToNode (VSlice items) opts []
           = Ok (Some (ElementNode EmptyString [] children false)))
  /\ (forall (val : Value) (tags : list string) (e : string),
         structToNode val opts tags <> Err e)
  /\ @Marshal sampleRuntime (Iface EmptyString (VSlice [VInt Int 1; VInt Int 2]))
              (Some (rootOptions "r"))
     = Returned (Ok ("<r>" +:+ newline +:+ "<>1</>" +:+ newline +:+ "<>2</>"
                     +:+ newline +:+ "</r>")).
Proof.
  repeat split.
  - intros val. destruct val as [b | k i | k u | k f | s | elem | elem | items | items
                                 | len | k | fields]; try exact I; reflexivity.
  - intros items.
    pose proof (BuilderFacts.structToNode_total opts (VSlice items) []) as Ht.
    cbn [derefsToNil] in Ht. destruct Ht as (node & Hnode & _).
    cbn [structToNode] in *. unfold handleSliceNode in *.
    destruct (errChan _); [discriminate Hnode |]. eauto.
  - intros val tags e. apply BuilderFacts.structToNode_never_fails.
Qed.




(** An attribute field tagged [omitempty] and holding nil is written all
    the same, with the empty value: [processField] returns at the [attr]
    option before it looks at [omitempty]. *)
Lemma omitempty_attribute_kept :
  isEmptyValue (VPtr None) = true
  /\ tagOptions (field "ID" "id,attr,omitempty") = ["attr"; "omitempty"]
  /\ @processField sampleRuntime sampleBuild (ElementNode "T" [] [] false) (VPtr None)
                  "id" ["attr"; "omitempty"]
     = Ok (ElementNode "T" [mkAttribute "id" EmptyString] [] false)
  /\ @Marshal sampleRuntime
              (Iface "T" (VStruct [(field "ID" "id,attr,omitempty", VPtr None)])) None
     = Returned (Ok ("<T id=" +:+ dquote +:+ dquote +:+ "></T>")).
Proof. repeat split. Qed.

(** A struct with an attribute and three empty fields tagged [omitempty]:
    only the attribute is written. *)
Example omitempty_fields_omitted :
  @Marshal sampleRuntime
           (Iface "OmitEmptyStruct"
                  (VStruct [(field "ID" "id,attr", VInt Int 8);
                            (field "Name" "name,omitempty", VString EmptyString);
                            (field "Value" "value,omitempty",
                             VFloat Float64 (S754_zero false));
                            (field "Note" "note,omitempty", VPtr None)]))
           None
  = Returned (Ok ("<OmitEmptyStruct id=" +:+ dquote +:+ "8" +:+ dquote
                  +:+ "></OmitEmptyStruct>")).
Proof. reflexivity. Qed.

(** ** Marshal *)

Module MarshalFacts.

Section Facts.
Context `{GoRuntime}.

Lemma encodeRoot_ok (opts : MarshalOptions) (node : Node) :
  exists out : string, encodeRoot opts node = Ok out.
Proof.
  unfold encodeRoot, encodeWith, compressBuffer, GzipCompressor_Compress.
  destruct (Compress opts); eauto.
Qed.

(** [Marshal] on a typed value: the steps after the root tag. *)
Lemma Marshal_Iface (typeName : string) (val : Value) (opts : MarshalOptions) :
  Marshal (Iface typeName val) (Some opts)
  = match structToNode val opts
                       [if String.eqb (RootTag opts) "" then typeName else RootTag opts] with
    | Err err => Returned (Err ("error converting structure to node: " +:+ err))
    | Ok None => Returned (Err "returned node is null")
    | Ok (Some node) => Returned (encodeRoot opts node)
    end.
Proof.
  unfold Marshal. cbn [default from_option]. unfold id. cbv zeta.
  cbn [TypeOf Name ValueOf structToNodeOf].
  destruct (String.eqb (RootTag opts) ""); cbn [andThen];
    destruct (structToNode val opts _) as [[node |] | err]; reflexivity.
Qed.

(** [Marshal] on the untyped nil. *)
Lemma Marshal_nil (opts : MarshalOptions) :
  Marshal NilInterface (Some opts)
  = if String.eqb (RootTag opts) ""
    then Panicked "runtime error: invalid memory address or nil pointer dereference"
    else Panicked "reflect: call of reflect.Value.Interface on zero Value".
Proof.
  unfold Marshal. cbn [default from_option]. unfold id. cbv zeta.
  destruct (String.eqb (RootTag opts) ""); reflexivity.
Qed.

Lemma Marshal_default (v : Interface) (opts : option MarshalOptions) :
  Marshal v opts = Marshal v (Some (default defaultOptions opts)).
Proof. now destruct opts. Qed.

(** What [Marshal] returns for a typed value. *)
Lemma Marshal_typed (typeName : string) (val : Value) (opts : MarshalOptions) :
  let rootTag := if String.eqb (RootTag opts) "" then typeName else RootTag opts in
  if derefsToNil val
  then Marshal (Iface typeName val) (Some opts) = Returned (Err "returned node is null")
  else exists node : Node,
      structToNode val opts [rootTag] = Ok (Some node)
      /\ isElement node
      /\ Marshal (Iface typeName val) (Some opts) = Returned (encodeRoot opts node).
Proof.
  intros rootTag. rewrite Marshal_Iface. fold rootTag.
  pose proof (BuilderFacts.structToNode_total opts val [rootTag]) as Ht.
  destruct (derefsToNil val).
  - now rewrite Ht.
  - destruct Ht as (node & Hnode & Hel). exists node. now rewrite Hnode.
Qed.

(** The namespace step, with the presence of an [xmlns] attribute read
    off the list. *)
Lemma injectNamespace_absent (opts : MarshalOptions) (name : string)
      (attrs : list Attribute) (children : list Node) (sc : bool) :
  Namespace opts <> EmptyString ->
  Forall (fun attr => AttrName attr <> "xmlns") attrs ->
  injectNamespace opts (ElementNode name attrs children sc)
  = ElementNode name (mkAttribute "xmlns" (Namespace opts) :: attrs) children sc.
Proof.
  intros Hns Hall. unfold injectNamespace, insertAttributeAtBeginning.
  destruct (String.eqb_spec (Namespace opts) EmptyString) as [Heq | _]; [contradiction |].
  cbn [negb].
  assert (Hhas : HasAttribute attrs "xmlns" = false).
  { unfold HasAttribute. induction Hall as [| attr rest Hattr _ IH]; [reflexivity |].
    cbn [existsb]. rewrite IH, orb_false_r. now apply String.eqb_neq. }
  now rewrite Hhas.
Qed.

Lemma injectNamespace_present (opts : MarshalOptions) (name : string)
      (attrs : list Attribute) (children : list Node) (sc : bool) :
  Exists (fun attr => AttrName attr = "xmlns") attrs ->
  injectNamespace opts (ElementNode name attrs children sc)
  = ElementNode name attrs children sc.
Proof.
  intros Hex. unfold injectNamespace.
  destruct (negb (String.eqb (Namespace opts) EmptyString)); [| reflexivity].
  assert (Hhas : HasAttribute attrs "xmlns" = true).
  { unfold HasAttribute. induction Hex as [attr rest Hattr | attr rest _ IH].
    - cbn [existsb]. now rewrite (proj2 (String.eqb_eq _ _) Hattr).
    - cbn [existsb]. now rewrite IH, orb_true_r. }
  now rewrite Hhas.
Qed.

End Facts.

End MarshalFacts.

(** C9: the type of the untyped nil is the nil type, on which [Name()]
    panics; [Marshal] resolves the root tag before it builds the tree and
    before it compares the node with nil, so that with an empty root tag
    the panic of [Name()] is the outcome of the call, for the untyped nil
    the run-time error of the nil dereference.  With a root tag the
    untyped nil panics later, in [valueToString].  A typed nil pointer
    gets the error of the nil root, and that error is returned exactly for
    the typed values whose chain of pointers and interfaces ends on nil. *)
Theorem Marshal_nil_interface `{GoRuntime} :
  Name (TypeOf NilInterface)
  = Panicked "runtime error: invalid memory address or nil pointer dereference"
  /\ (forall (v : Interface) (opts : option MarshalOptions) (msg : string),
         RootTag (default defaultOptions opts) = EmptyString ->
         Name (TypeOf v) = Panicked msg -> Marshal v opts = Panicked msg)
  /\ (forall (ind : string) (hdr : bool) (ns : string) (c : bool) (tags : list string)
             (sp : bool),
         Marshal NilInterface (Some (mkMarshalOptions ind hdr ns EmptyString c tags sp))
         = Panicked "runtime error: invalid memory address or nil pointer dereference")
  /\ Marshal NilInterface None
     = Panicked "runtime error: invalid memory address or nil pointer dereference"
  /\ (forall opts : MarshalOptions,
         RootTag opts <> EmptyString ->
         Marshal NilInterface (Some opts)
         = Panicked "reflect: call of reflect.Value.Interface on zero Value")
  /\ (forall opts : option MarshalOptions,
         exists msg : string, Marshal NilInterface opts = Panicked msg)
  /\ (forall (typeName : string) (opts : option MarshalOptions),
         Marshal (Iface typeName (VPtr None)) opts = Returned (Err "returned node is null"))
  /\ (forall (v : Interface) (opts : option MarshalOptions),
         Marshal v opts = Returned (Err "returned node is null")
         <-> exists (typeName : string) (val : Value),
             v = Iface typeName val /\ derefsToNil val = true).
Proof.
  split; [reflexivity |]. split; [| split; [| split; [| split; [| split; [| split]]]]].
  - intros v opts msg Htag Hname. unfold Marshal. cbv zeta.
    rewrite Htag. change (String.eqb EmptyString EmptyString) with true.
    cbv iota. now rewrite Hname.
  - intros ind hdr ns c tags sp. reflexivity.
  - reflexivity.
  - intros opts Htag. rewrite MarshalFacts.Marshal_nil.
    now destruct (String.eqb_spec (RootTag opts) EmptyString).
  - intros opts. rewrite MarshalFacts.Marshal_default, MarshalFacts.Marshal_nil.
    destruct (String.eqb _ _); eauto.
  - intros typeName opts. rewrite MarshalFacts.Marshal_default.
    now rewrite MarshalFacts.Marshal_Iface.
  - intros v opts. rewrite MarshalFacts.Marshal_default. split.
    + destruct v as [| typeName val].
      * rewrite MarshalFacts.Marshal_nil. destruct (String.eqb _ _); discriminate.
      * intros Hret. exists typeName, val. split; [reflexivity |].
        pose proof (MarshalFacts.Marshal_typed typeName val
                      (default defaultOptions opts)) as Ht.
        cbv zeta in Ht. destruct (derefsToNil val); [reflexivity |].
        destruct Ht as (node & _ & _ & Hm). rewrite Hm in Hret.
        destruct (MarshalFacts.encodeRoot_ok (default defaultOptions opts) node)
          as [out Hout].
        rewrite Hout in Hret. discriminate Hret.
    + intros (typeName & val & -> & Hnil).
      pose proof (MarshalFacts.Marshal_typed typeName val
                    (default defaultOptions opts)) as Ht.
      cbv zeta in Ht. now rewrite Hnil in Ht.
Qed.

(** C7: with a namespace configured, whenever the builder returns the
    root element, [Marshal] encodes that element with an [xmlns] attribute
    carrying the namespace put before its attributes, which keep their
    order, when none of them is named [xmlns], so that the attribute comes
    first in the start tag; when one of them is named [xmlns], it encodes
    the element as built. *)
Theorem Marshal_namespace `{GoRuntime} (typeName : string) (val : Value)
        (opts : MarshalOptions) (name : string) (attrs : list Attribute)
        (children : list Node) (sc : bool) :
  Namespace opts <> EmptyString ->
  structToNode val opts [if String.eqb (RootTag opts) "" then typeName else RootTag opts]
  = Ok (Some (ElementNode name attrs children sc)) ->
  let encoder :=
      Write (NewEncoderSpaced EmptyString (SelfClosingTags opts) (Indent opts)
                              (SpacedSelfClose opts))
            (headerText opts) in
  let finish := fun out : string =>
                  if Compress opts then compressBuffer out else Ok out in
  (Forall (fun attr => AttrName attr <> "xmlns") attrs ->
   Marshal (Iface typeName val) (Some opts)
   = Returned (finish (w (Accept encoder
                                 (ElementNode name
                                              (mkAttribute "xmlns" (Namespace opts) :: attrs)
                                              children sc))))
   /\ exists rest : string,
       w (Accept encoder
                 (ElementNode name (mkAttribute "xmlns" (Namespace opts) :: attrs)
                              children sc))
       = headerText opts +:+ "<" +:+ name +:+ " xmlns=" +:+ dquote
         +:+ escapeString (Namespace opts) +:+ dquote +:+ attributesText attrs +:+ rest)
  /\ (Exists (fun attr => AttrName attr = "xmlns") attrs ->
      Marshal (Iface typeName val) (Some opts)
      = Returned (finish (w (Accept encoder (ElementNode name attrs children sc))))
      /\ exists rest : string,
          w (Accept encoder (ElementNode name attrs children sc))
          = headerText opts +:+ "<" +:+ name +:+ attributesText attrs +:+ rest).
Proof.
  intros Hns Hnode encoder finish.
  assert (Hm : Marshal (Iface typeName val) (Some opts)
               = Returned (finish (w (Accept encoder
                                             (injectNamespace
                                                opts (ElementNode name attrs children sc)))))).
  { rewrite MarshalFacts.Marshal_Iface, Hnode. reflexivity. }
  assert (Htext : forall attrs' : list Attribute,
             exists rest : string,
               w (Accept encoder (ElementNode name attrs' children sc))
               = headerText opts +:+ "<" +:+ name +:+ attributesText attrs' +:+ rest).
  { intros attrs'.
    destruct (EncoderFacts.Accept_element_text encoder name attrs' children sc)
      as (rest & Hout & _).
    exists rest. rewrite Hout. unfold encoder, NewEncoderSpaced, linePrefix.
    cbn [w Write NewEncoder depth indent Nat.ltb Nat.leb Repeat].
    assert (Hpre : (if negb (String.eqb (Indent opts) EmptyString) then EmptyString
                    else EmptyString) = EmptyString) by now destruct (negb _).
    rewrite Hpre, !append_nil_l, ?append_assoc. reflexivity. }
  split.
  - intros Habsent. split.
    + rewrite Hm. now rewrite MarshalFacts.injectNamespace_absent.
    + destruct (Htext (mkAttribute "xmlns" (Namespace opts) :: attrs)) as [rest Hrest].
      exists rest. rewrite Hrest. cbn [attributesText AttrName AttrValue].
      now rewrite ?append_assoc.
  - intros Hpresent. split.
    + rewrite Hm. now rewrite MarshalFacts.injectNamespace_present.
    + apply Htext.
Qed.

Lemma Marshal_namespace_witness :
  @Marshal sampleRuntime
           (Iface "Item" (VStruct [(field "ID" "id,attr", VInt Int 7);
                                   (field "Name" "name", VString "pen")]))
           (Some (mkMarshalOptions EmptyString false "urn:x" EmptyString false [] false))
  = Returned (Ok ("<Item xmlns=" +:+ dquote +:+ "urn:x" +:+ dquote
                  +:+ " id=" +:+ dquote +:+ "7" +:+ dquote +:+ ">" +:+ newline
                  +:+ "<name>pen</name>" +:+ newline +:+ "</Item>"))
  /\ @Marshal sampleRuntime
              (Iface "Item" (VStruct [(field "ID" "id,attr", VInt Int 7);
                                      (field "NS" "xmlns,attr", VString "urn:own")]))
              (Some (mkMarshalOptions EmptyString false "urn:x" EmptyString false [] false))
     = Returned (Ok ("<Item id=" +:+ dquote +:+ "7" +:+ dquote
                     +:+ " xmlns=" +:+ dquote +:+ "urn:own" +:+ dquote +:+ "></Item>")).
Proof.
  split.
  - refine (proj1 (proj1 (@Marshal_namespace
                            sampleRuntime "Item"
                            (VStruct [(field "ID" "id,attr", VInt Int 7);
                                      (field "Name" "name", VString "pen")])
                            (mkMarshalOptions EmptyString false "urn:x" EmptyString false
                                              [] false)
                            "Item" [mkAttribute "id" "7"]
                            [ElementNode "name" [] [TextNode "pen"] false] false
                            _ _) _)).
    + discriminate.
    + reflexivity.
    + repeat constructor. discriminate.
  - refine (proj1 (proj2 (@Marshal_namespace
                            sampleRuntime "Item"
                            (VStruct [(field "ID" "id,attr", VInt Int 7);
                                      (field "NS" "xmlns,attr", VString "urn:own")])
                            (mkMarshalOptions EmptyString false "urn:x" EmptyString false
                                              [] false)
                            "Item" [mkAttribute "id" "7"; mkAttribute "xmlns" "urn:own"]
                            [] false
                            _ _) _)).
    + discriminate.
    + reflexivity.
    + apply Exists_cons_tl, Exists_cons_hd. reflexivity.
Defined.

(** C6: whenever the gzip reader gives back what the gzip writer was
    given, the result of [Marshal] with compression decompresses to the
    result of [Marshal] without it, the other options being the same; and
    a call that does not succeed without compression ends the same way
    with it. *)
Theorem Marshal_compress_roundtrip `{GoRuntime} (gunzip : string -> option string)
        (v : Interface) (opts : MarshalOptions) :
  (forall data : string, gunzip (gzipWrite data) = Some data) ->
  match Marshal v (Some (withCompress false opts)) with
  | Returned (Ok plain) =>
    exists compressed : string,
      Marshal v (Some (withCompress true opts)) = Returned (Ok compressed)
      /\ gunzip compressed = Some plain
  | Returned (Err e) => Marshal v (Some (withCompress true opts)) = Returned (Err e)
  | Panicked msg => Marshal v (Some (withCompress true opts)) = Panicked msg
  end.
Proof.
  intros Hgunzip. destruct v as [| typeName val].
  - rewrite !MarshalFacts.Marshal_nil. cbn [withCompress RootTag].
    destruct (String.eqb (RootTag opts) ""); reflexivity.
  - rewrite !MarshalFacts.Marshal_Iface. cbn [withCompress RootTag].
    set (rootTag := if String.eqb (RootTag opts) "" then typeName else RootTag opts).
    rewrite (proj1 (BuilderFacts.structToNode_options
                      (withCompress true opts) (withCompress false opts) val) [rootTag]).
    destruct (structToNode val (withCompress false opts) [rootTag]) as [[node |] | e];
      [| reflexivity | reflexivity].
    unfold encodeRoot, encodeWith, compressBuffer, GzipCompressor_Compress.
    cbn [withCompress Compress SelfClosingTags Indent].
    eexists. split; [reflexivity |]. apply Hgunzip.
Qed.

Lemma Marshal_compress_roundtrip_witness :
  exists compressed : string,
    @Marshal sampleRuntime (Iface "T" (VStruct [(field "Name" "name", VString "pen")]))
             (Some (withCompress true defaultOptions))
    = Returned (Ok compressed)
    /\ sampleGunzip compressed = Some ("<T>" +:+ newline +:+ "<name>pen</name>"
                                       +:+ newline +:+ "</T>").
Proof.
  apply (@Marshal_compress_roundtrip sampleRuntime sampleGunzip
           (Iface "T" (VStruct [(field "Name" "name", VString "pen")])) defaultOptions).
  intros data. reflexivity.
Defined.

(** ** Names in the markup *)

Module XmlFacts.
Import Xml.

Lemma run_name_chars (chars : string) :
  forall (name : string) (stack : list string) (rest : string),
    allNameChars chars = true ->
    run (StartName name) stack (chars +:+ rest)
    = run (StartName (name +:+ chars)) stack rest.
Proof.
  induction chars as [| c chars IH]; intros name stack rest Hall.
  - now rewrite append_nil_l, append_nil_r.
  - cbn [allNameChars] in Hall. apply andb_true_iff in Hall as [Hc Hall].
    rewrite append_cons. cbn [run step]. rewrite Hc.
    rewrite IH by assumption. unfold snoc.
    now rewrite append_assoc, append_cons, append_nil_l.
Qed.

Lemma isNameStart_isNameChar (c : ascii) : isNameStart c = true -> isNameChar c = true.
Proof. intros Hc. unfold isNameChar. now rewrite Hc. Qed.

End XmlFacts.


(** ** The output of the escaping, on any input *)

Module EscapeShape.
Import Utf8 Utf8Facts.

Lemma byteVal_byteOf (z : Z) : 0 <= z < 256 -> byteVal (byteOf z) = z.
Proof.
  intros Hz. unfold byteVal, byteOf. rewrite Z.mod_small by lia.
  rewrite N_ascii_embedding by lia. lia.
Qed.

(** One iteration of the range loop: a byte below 0x80 is its own rune,
    anything else yields a rune from 0x80 on. *)
Lemma decoderune_cases (c0 : ascii) (r0 : string) :
  (byteVal c0 < 128 /\ decoderune (String c0 r0) = (byteVal c0, 1%nat))
  \/ 128 <= fst (decoderune (String c0 r0)).
Proof.
  destruct (Z.ltb_spec (byteVal c0) 128) as [Hlow | Hhigh].
  { left. split; [exact Hlow | now apply decoderune_1]. }
  right. unfold decoderune. cbv zeta.
  destruct (byteVal c0 <? tx) eqn:E0; [apply Z.ltb_lt in E0; consts; lia |].
  repeat match goal with
         | |- context [match ?s with EmptyString => _ | String _ _ => _ end] =>
           destruct s
         | |- context [if ?b then _ else _] =>
           let E := fresh "E" in destruct b eqn:E
         end; cbn [fst]; consts; try lia.
Qed.

Lemma validUTF8_1 (c0 : ascii) (rest : string) :
  byteVal c0 < 128 -> validUTF8 (String c0 rest) = validUTF8 rest.
Proof.
  intros H0. cbn [validUTF8].
  destruct (Z.ltb_spec (byteVal c0) 128); [reflexivity | lia].
Qed.

Lemma validUTF8_2 (c0 c1 : ascii) (rest : string) :
  194 <= byteVal c0 <= 223 -> 128 <= byteVal c1 <= 191 ->
  validUTF8 (String c0 (String c1 rest)) = validUTF8 rest.
Proof.
  intros H0 H1. cbn [validUTF8].
  destruct (Z.ltb_spec (byteVal c0) 128); [lia |].
  rewrite (proj2 (inRange_spec 194 223 c0)), (proj2 (inRange_spec 128 191 c1)) by lia.
  reflexivity.
Qed.

Lemma validUTF8_3 (c0 c1 c2 : ascii) (rest : string) :
  224 <= byteVal c0 <= 239 -> 128 <= byteVal c1 <= 191 -> 128 <= byteVal c2 <= 191 ->
  (byteVal c0 = 224 -> 160 <= byteVal c1) ->
  (byteVal c0 = 237 -> byteVal c1 <= 159) ->
  validUTF8 (String c0 (String c1 (String c2 rest))) = validUTF8 rest.
Proof.
  intros H0 H1 H2 Hlo Hhi. cbn [validUTF8].
  destruct (Z.ltb_spec (byteVal c0) 128); [lia |].
  destruct (inRange 194 223 c0) eqn:R2; [apply inRange_spec in R2; lia |].
  rewrite (proj2 (inRange_spec 224 239 c0)), (proj2 (inRange_spec 128 191 c2)) by lia.
  assert (R1 : inRange (if byteVal c0 =? 224 then 160 else 128)
                       (if byteVal c0 =? 237 then 159 else 191) c1 = true).
  { apply inRange_spec. zcases; lia. }
  now rewrite R1.
Qed.

Lemma validUTF8_4 (c0 c1 c2 c3 : ascii) (rest : string) :
  240 <= byteVal c0 <= 244 -> 128 <= byteVal c1 <= 191 -> 128 <= byteVal c2 <= 191 ->
  128 <= byteVal c3 <= 191 ->
  (byteVal c0 = 240 -> 144 <= byteVal c1) ->
  (byteVal c0 = 244 -> byteVal c1 <= 143) ->
  validUTF8 (String c0 (String c1 (String c2 (String c3 rest)))) = validUTF8 rest.
Proof.
  intros H0 H1 H2 H3 Hlo Hhi. cbn [validUTF8].
  destruct (Z.ltb_spec (byteVal c0) 128); [lia |].
  destruct (inRange 194 223 c0) eqn:R2; [apply inRange_spec in R2; lia |].
  destruct (inRange 224 239 c0) eqn:R3; [apply inRange_spec in R3; lia |].
  rewrite (proj2 (inRange_spec 240 244 c0)), (proj2 (inRange_spec 128 191 c2)),
    (proj2 (inRange_spec 128 191 c3)) by lia.
  assert (R1 : inRange (if byteVal c0 =? 240 then 144 else 128)
                       (if byteVal c0 =? 244 then 143 else 191) c1 = true).
  { apply inRange_spec. zcases; lia. }
  now rewrite R1.
Qed.

(** What [AppendRune] appends does not depend on the buffer. *)
Lemma AppendRune_appends (buf : string) (r : Z) :
  AppendRune buf r = buf +:+ AppendRune EmptyString r.
Proof.
  unfold AppendRune. cbv zeta.
  repeat match goal with
         | |- context [if ?b then _ else _] => destruct b
         end; reflexivity.
Qed.

Lemma mod256_mod64 (x : Z) : (x mod 256) mod 64 = x mod 64.
Proof. euclid. Qed.

Lemma highBytes_spec (s : string) (bs : list Z) :
  Forall (fun b => 128 <= b < 256) bs ->
  s = string_of_list_ascii (map byteOf bs) ->
  allBytes isHighByte s = true.
Proof.
  intros Hbs ->. induction Hbs as [| b bs Hb _ IH]; [reflexivity |].
  cbn [map string_of_list_ascii allBytes]. unfold isHighByte at 1.
  rewrite byteVal_byteOf by lia. rewrite IH.
  destruct (Z.leb_spec 128 b); [reflexivity | lia].
Qed.

Lemma encode2 (r : Z) :
  128 <= r <= 2047 ->
  let s := String (byteOf (Z.lor t2 (lowByte (Z.shiftr r 6))))
             (String (byteOf (Z.lor tx (Z.land (lowByte r) maskx))) EmptyString) in
  validUTF8 s = true /\ allBytes isHighByte s = true.
Proof.
  intros Hr s. subst s. unfold lowByte.
  rewrite shiftr_div, land_maskx, mod256_mod64 by lia.
  assert (E0 : (r / 2 ^ 6) mod 256 = r / 64) by euclid.
  assert (R0 : 2 <= r / 64 < 32) by euclid.
  assert (R1 : 0 <= r mod 64 < 64) by euclid.
  rewrite E0, lor_t2, lor_tx by lia.
  split.
  - rewrite validUTF8_2; [reflexivity | |]; rewrite byteVal_byteOf; lia.
  - apply (highBytes_spec _ [192 + r / 64; 128 + r mod 64]); [| reflexivity].
    repeat constructor; lia.
Qed.

Lemma encode3 (r : Z) :
  2048 <= r <= 65535 -> ~ 55296 <= r <= 57343 ->
  let s := String (byteOf (Z.lor t3 (lowByte (Z.shiftr r 12))))
             (String (byteOf (Z.lor tx (Z.land (lowByte (Z.shiftr r 6)) maskx)))
               (String (byteOf (Z.lor tx (Z.land (lowByte r) maskx))) EmptyString)) in
  validUTF8 s = true /\ allBytes isHighByte s = true.
Proof.
  intros Hr Hs s. subst s. unfold lowByte.
  rewrite !shiftr_div, !land_maskx, !mod256_mod64 by lia.
  assert (E0 : (r / 2 ^ 12) mod 256 = r / 4096) by euclid.
  assert (R0 : 0 <= r / 4096 < 16) by euclid.
  assert (R1 : 0 <= (r / 2 ^ 6) mod 64 < 64) by euclid.
  assert (R2 : 0 <= r mod 64 < 64) by euclid.
  assert (Hlo : r / 4096 = 0 -> 32 <= (r / 2 ^ 6) mod 64) by euclid.
  assert (Hhi : r / 4096 = 13 -> (r / 2 ^ 6) mod 64 <= 31) by euclid.
  rewrite E0, lor_t3, !lor_tx by lia.
  split.
  - rewrite validUTF8_3; [reflexivity | | | | |]; rewrite !byteVal_byteOf; lia.
  - apply (highBytes_spec _ [224 + r / 4096; 128 + (r / 2 ^ 6) mod 64; 128 + r mod 64]);
      [| reflexivity].
    repeat constructor; lia.
Qed.

Lemma encode4 (r : Z) :
  65536 <= r <= 1114111 ->
  let s := String (byteOf (Z.lor t4 (lowByte (Z.shiftr r 18))))
             (String (byteOf (Z.lor tx (Z.land (lowByte (Z.shiftr r 12)) maskx)))
               (String (byteOf (Z.lor tx (Z.land (lowByte (Z.shiftr r 6)) maskx)))
                 (String (byteOf (Z.lor tx (Z.land (lowByte r) maskx))) EmptyString))) in
  validUTF8 s = true /\ allBytes isHighByte s = true.
Proof.
  intros Hr s. subst s. unfold lowByte.
  rewrite !shiftr_div, !land_maskx, !mod256_mod64 by lia.
  assert (E0 : (r / 2 ^ 18) mod 256 = r / 262144) by euclid.
  assert (R0 : 0 <= r / 262144 <= 4) by euclid.
  assert (R1 : 0 <= (r / 2 ^ 12) mod 64 < 64) by euclid.
  assert (R2 : 0 <= (r / 2 ^ 6) mod 64 < 64) by euclid.
  assert (R3 : 0 <= r mod 64 < 64) by euclid.
  assert (Hlo : r / 262144 = 0 -> 16 <= (r / 2 ^ 12) mod 64) by euclid.
  assert (Hhi : r / 262144 = 4 -> (r / 2 ^ 12) mod 64 <= 15) by euclid.
  rewrite E0, lor_t4, !lor_tx by lia.
  split.
  - rewrite validUTF8_4; [reflexivity | | | | | |]; rewrite !byteVal_byteOf; lia.
  - apply (highBytes_spec _ [240 + r / 262144; 128 + (r / 2 ^ 12) mod 64;
                             128 + (r / 2 ^ 6) mod 64; 128 + r mod 64]);
      [| reflexivity].
    repeat constructor; lia.
Qed.

(** The encoding of a rune from 0x80 on: well-formed UTF-8, made of bytes
    from 0x80 on. *)
Lemma AppendRune_high (r : Z) :
  128 <= r ->
  validUTF8 (AppendRune EmptyString r) = true
  /\ allBytes isHighByte (AppendRune EmptyString r) = true.
Proof.
  intros Hr. unfold AppendRune. bounds. cbv zeta.
  destruct (Z.leb_spec r 127); [lia |].
  destruct (Z.leb_spec r 2047) as [H2 | H2];
    [rewrite append_nil_l; apply encode2; lia |].
  destruct (Z.ltb_spec 1114111 r) as [Hmax | Hmax]; cbn [orb];
    [split; vm_compute; reflexivity |].
  destruct (Z.leb_spec 55296 r) as [Hs1 | Hs1];
    destruct (Z.leb_spec r 57343) as [Hs2 | Hs2]; cbn [andb];
      [split; vm_compute; reflexivity | ..];
      (destruct (Z.leb_spec r 65535) as [H3 | H3]; rewrite append_nil_l;
       [apply encode3 | apply encode4]; lia).
Qed.

(** Well-formed UTF-8 is closed under concatenation. *)
Lemma validUTF8_app (n : nat) :
  forall a b : string,
    (String.length a <= n)%nat -> validUTF8 a = true -> validUTF8 b = true ->
    validUTF8 (a +:+ b) = true.
Proof.
  induction n as [| n IH]; intros a b Hlen Ha Hb.
  { destruct a; [exact Hb | simpl in Hlen; lia]. }
  destruct a as [| c0 r0]; [exact Hb |].
  cbn [String.length] in Hlen. cbn [validUTF8] in Ha.
  destruct (Z.ltb_spec (byteVal c0) 128) as [Hlow | Hhigh].
  { rewrite append_cons, validUTF8_1 by exact Hlow. apply IH; [lia | assumption ..]. }
  destruct r0 as [| c1 r1]; [discriminate |]. cbn [String.length] in Hlen.
  destruct (inRange 194 223 c0) eqn:R2.
  { apply inRange_spec in R2. apply andb_true_iff in Ha as [R1 Ha].
    apply inRange_spec in R1.
    rewrite !append_cons, validUTF8_2 by lia. apply IH; [lia | assumption ..]. }
  destruct r1 as [| c2 r2]; [discriminate |]. cbn [String.length] in Hlen.
  destruct (inRange 224 239 c0) eqn:R3.
  { apply inRange_spec in R3.
    apply andb_true_iff in Ha as [Ha Hrest]. apply andb_true_iff in Ha as [R1 R2'].
    apply inRange_spec in R1, R2'.
    assert (H1 : 128 <= byteVal c1 <= 191
                 /\ (byteVal c0 = 224 -> 160 <= byteVal c1)
                 /\ (byteVal c0 = 237 -> byteVal c1 <= 159)).
    { revert R1. zcases; lia. }
    destruct H1 as (H1 & Hlo & Hhi).
    rewrite !append_cons, validUTF8_3 by (lia || assumption).
    apply IH; [lia | assumption ..]. }
  destruct r2 as [| c3 r3]; [discriminate |]. cbn [String.length] in Hlen.
  apply andb_true_iff in Ha as [Ha Hrest]. apply andb_true_iff in Ha as [Ha R3'].
  apply andb_true_iff in Ha as [Ha R2']. apply andb_true_iff in Ha as [R0 R1].
  apply inRange_spec in R0, R1, R2', R3'.
  assert (H1 : 128 <= byteVal c1 <= 191
               /\ (byteVal c0 = 240 -> 144 <= byteVal c1)
               /\ (byteVal c0 = 244 -> byteVal c1 <= 143)).
  { revert R1. zcases; lia. }
  destruct H1 as (H1 & Hlo & Hhi).
  rewrite !append_cons, validUTF8_4 by (lia || assumption).
  apply IH; [lia | assumption ..].
Qed.

(** The loop of [escapeString], on any bytes: the output is made of
    pieces, one for each rune the loop meets; a byte below 0x80 gives its
    entry of the table, any other rune its encoding. *)
Section Pieces.
Variable P : string -> Prop.
Variable ok : ascii -> bool.
Hypothesis P_nil : P EmptyString.
Hypothesis P_app : forall a b : string, P a -> P b -> P (a +:+ b).
Hypothesis P_byte : forall c : ascii, byteVal c < 128 -> ok c = true -> P (escapeByte c).
Hypothesis P_rune : forall r : Z, 128 <= r -> P (AppendRune EmptyString r).

Lemma escape_loop_pieces (s : string) :
  forall skip : nat,
    allBytes ok s = true ->
    exists out : string,
      (forall buf : string, rangeString escapeRune skip s buf = buf +:+ out) /\ P out.
Proof.
  induction s as [| c0 s IH]; intros skip Hok.
  { exists EmptyString. split; [intros buf; cbn; now rewrite append_nil_r | exact P_nil]. }
  cbn [allBytes] in Hok. apply andb_true_iff in Hok as [Hc0 Hok].
  destruct skip as [| k].
  - cbn [rangeString].
    destruct (decoderune_cases c0 s) as [[Hlow Hdec] | Hhigh].
    + rewrite Hdec. cbn [Nat.pred].
      destruct (IH 0%nat Hok) as (out & Hout & HP).
      exists (escapeByte c0 +:+ out). split; [| now apply P_app; [apply P_byte |]].
      intros buf. rewrite Hout, EscapeFacts.escapeRune_low by exact Hlow.
      apply append_assoc.
    + destruct (decoderune (String c0 s)) as [r width]. cbn [fst] in Hhigh.
      destruct (IH (Nat.pred width) Hok) as (out & Hout & HP).
      exists (AppendRune EmptyString r +:+ out).
      split; [| now apply P_app; [apply P_rune |]].
      intros buf. rewrite Hout, EscapeFacts.escapeRune_high, AppendRune_appends by exact Hhigh.
      apply append_assoc.
  - cbn [rangeString]. apply IH, Hok.
Qed.

Lemma escapeString_pieces (s : string) : allBytes ok s = true -> P (escapeString s).
Proof.
  intros Hok. destruct (escape_loop_pieces s 0 Hok) as (out & Hout & HP).
  unfold escapeString. now rewrite Hout, append_nil_l.
Qed.

End Pieces.

Lemma allBytes_true (s : string) : allBytes (fun _ => true) s = true.
Proof. induction s as [| c s IH]; [reflexivity | exact IH]. Qed.

(** The entry of the table for one byte: what the five entities and the
    other bytes have in common is shown once, for a property of strings
    that holds of each. *)
Lemma escapeByte_cases (P : string -> Prop) (c : ascii) :
  P "&amp;" -> P "&lt;" -> P "&gt;" -> P "&quot;" -> P "&apos;" ->
  (c <> "&"%char -> c <> "<"%char -> c <> ">"%char -> c <> "034"%char -> c <> "'"%char ->
   P (String c EmptyString)) ->
  P (escapeByte c).
Proof.
  intros Hamp Hlt Hgt Hquot Hapos Hother. unfold escapeByte.
  destruct (Ascii.eqb_spec c "&"); [exact Hamp |].
  destruct (Ascii.eqb_spec c "<"); [exact Hlt |].
  destruct (Ascii.eqb_spec c ">"); [exact Hgt |].
  destruct (Ascii.eqb_spec c "034"); [exact Hquot |].
  destruct (Ascii.eqb_spec c "'"); [exact Hapos |].
  now apply Hother.
Qed.

Lemma high_not_ascii (c d : ascii) :
  isHighByte c = true -> byteVal d < 128 -> Ascii.eqb c d = false.
Proof.
  unfold isHighByte. intros Hc Hd. apply Z.leb_le in Hc.
  rewrite eqb_byteVal. apply Z.eqb_neq. lia.
Qed.

Lemma markupFree_high (hi : string) :
  allBytes isHighByte hi = true ->
  forall rest : string, markupFree (hi +:+ rest) = markupFree rest.
Proof.
  induction hi as [| c hi IH]; intros Hhi rest; [reflexivity |].
  cbn [allBytes] in Hhi. apply andb_true_iff in Hhi as [Hc Hhi].
  rewrite append_cons. cbn [markupFree]. unfold isMarkup.
  rewrite !(high_not_ascii c) by (exact Hc || (vm_compute; reflexivity)).
  cbn [orb negb andb]. now apply IH.
Qed.

End EscapeShape.

(** X1: whatever bytes the input holds, the escaped text holds none of
    [<], [>], the double quote and the apostrophe, and every [&] in it
    starts one of the five entities. *)
Theorem escapeString_markup_free (s : string) : markupFree (escapeString s) = true.
Proof.
  enough (Hp : forall rest : string,
             markupFree (escapeString s +:+ rest) = markupFree rest).
  { specialize (Hp EmptyString). now rewrite append_nil_r in Hp. }
  apply (EscapeShape.escapeString_pieces
           (fun out => forall rest : string, markupFree (out +:+ rest) = markupFree rest)
           (fun _ => true)).
  - reflexivity.
  - intros a b Ha Hb rest. now rewrite append_assoc, Ha, Hb.
  - intros c _ _. apply EscapeShape.escapeByte_cases; try reflexivity.
    intros Hamp Hlt Hgt Hquot Hapos rest. rewrite append_cons, append_nil_l.
    cbn [markupFree]. unfold isMarkup.
    destruct (Ascii.eqb_spec c "&"); [contradiction |].
    destruct (Ascii.eqb_spec c "<"); [contradiction |].
    destruct (Ascii.eqb_spec c ">"); [contradiction |].
    destruct (Ascii.eqb_spec c "034"); [contradiction |].
    destruct (Ascii.eqb_spec c "'"); [contradiction |].
    reflexivity.
  - intros r Hr. apply EscapeShape.markupFree_high.
    apply (EscapeShape.AppendRune_high r Hr).
  - apply EscapeShape.allBytes_true.
Qed.

(** X2: whatever bytes the input holds, the escaped text is well-formed
    UTF-8: a byte that starts no well-formed sequence comes out as the
    encoding of U+FFFD. *)
Theorem escapeString_output_utf8 (s : string) : Utf8.validUTF8 (escapeString s) = true.
Proof.
  apply (EscapeShape.escapeString_pieces (fun out => Utf8.validUTF8 out = true)
                                          (fun _ => true)).
  - reflexivity.
  - intros a b Ha Hb. now apply (EscapeShape.validUTF8_app (String.length a)).
  - intros c Hc _. apply EscapeShape.escapeByte_cases; try reflexivity.
    intros _ _ _ _ _. now rewrite EscapeShape.validUTF8_1.
  - intros r Hr. apply (EscapeShape.AppendRune_high r Hr).
  - apply EscapeShape.allBytes_true.
Qed.

(** X3: escaping goes through concatenation: on two well-formed UTF-8
    strings, the escaped concatenation is the concatenation of the escaped
    strings. *)
Theorem escapeString_concat (a b : string) :
  Utf8.validUTF8 a = true -> Utf8.validUTF8 b = true ->
  escapeString (a +:+ b) = escapeString a +:+ escapeString b.
Proof.
  intros Ha Hb.
  rewrite !EscapeFacts.escapeString_valid
    by (assumption || now apply (EscapeShape.validUTF8_app (String.length a))).
  clear Ha Hb. induction a as [| c a IH]; [reflexivity |].
  rewrite append_cons. cbn [escapeBytes]. now rewrite IH, append_assoc.
Qed.

Lemma escapeString_concat_witness :
  escapeString (sampleText +:+ "a<b")
  = escapeString sampleText +:+ escapeString "a<b".
Proof. apply escapeString_concat; reflexivity. Defined.

(** ** What the encoder writes for a node *)

Module OutputFacts.
Import EncoderFacts.

Lemma element_form (e : Encoder) (name : string) (attrs : list Attribute)
      (children : list Node) (sc : bool) :
  (forall e0 : Encoder,
      foldl Accept e0 children
      = Write e0 (childrenOutput (selfClosing e0) (indent e0) (depth e0) children)) ->
  Accept e (ElementNode name attrs children sc)
  = Write e (elementText e name attrs children sc).
Proof.
  intros Hkids. cbn [Accept]. unfold VisitElement, elementText. cbv zeta.
  rewrite openTag_text.
  change (shouldSelfClose (Write e ?x) name children sc)
    with (shouldSelfClose e name children sc).
  destruct (shouldSelfClose e name children sc).
  { now rewrite Write_Write, !append_assoc. }
  rewrite Hkids. unfold closingPrefix, writeIndent.
  destruct e as [buf table ind d]. unfold Write, setDepth, linePrefix.
  cbn [depth indent selfClosing w Nat.pred].
  destruct (lastIsElement children); destruct (negb (String.eqb ind EmptyString));
    cbn [depth indent selfClosing w]; f_equal;
    rewrite ?append_assoc, ?append_nil_l, ?append_nil_r; reflexivity.
Qed.

Lemma foldl_output (children : list Node) :
  Forall (fun child =>
            forall e : Encoder,
              Accept e child
              = Write e (output (selfClosing e) (indent e) (depth e) child)) children ->
  forall e0 : Encoder,
    foldl Accept e0 children
    = Write e0 (childrenOutput (selfClosing e0) (indent e0) (depth e0) children).
Proof.
  induction 1 as [| child rest Hchild _ IH]; intros e0; cbn [foldl childrenOutput foldr].
  - now rewrite Write_nil.
  - rewrite Hchild, IH, Write_Write. reflexivity.
Qed.

(** What a node adds to the buffer depends on the table, the indentation
    and the depth, not on the buffer. *)
Lemma Accept_output (node : Node) :
  forall e : Encoder,
    Accept e node = Write e (output (selfClosing e) (indent e) (depth e) node).
Proof.
  induction node as [text | name attrs children sc IH] using Node_induction; intros e.
  - reflexivity.
  - unfold output. rewrite !element_form by now apply foldl_output.
    cbn [w Write]. rewrite append_nil_l. reflexivity.
Qed.

Lemma output_element (table : gmap string bool) (ind : string) (d : nat) (name : string)
      (attrs : list Attribute) (children : list Node) (sc : bool) :
  output table ind d (ElementNode name attrs children sc)
  = elementText (mkEncoder EmptyString table ind d) name attrs children sc.
Proof.
  unfold output. rewrite element_form.
  - cbn [w Write]. now rewrite append_nil_l.
  - apply foldl_output, Forall_forall. intros child _. apply Accept_output.
Qed.

(** An element with text children only. *)
Lemma last_text (texts : list string) :
  forall d : Node,
    isElementNode d = false -> isElementNode (List.last (map TextNode texts) d) = false.
Proof.
  induction texts as [| t texts IH]; intros d Hd; [exact Hd |].
  destruct texts as [| t' texts]; [reflexivity |].
  apply (IH d Hd).
Qed.

Lemma closingPrefix_texts (ind : string) (d : nat) (texts : list string) :
  closingPrefix ind d (map TextNode texts) = EmptyString.
Proof.
  unfold closingPrefix.
  change (lastIsElement (map TextNode texts))
    with (isElementNode (List.last (map TextNode texts) (TextNode EmptyString))).
  now rewrite last_text.
Qed.

Lemma childrenOutput_texts (table : gmap string bool) (ind : string) (d : nat)
      (texts : list string) :
  childrenOutput table ind d (map TextNode texts)
  = foldr (fun text out => escapeString text +:+ out) EmptyString texts.
Proof.
  induction texts as [| t texts IH]; [reflexivity |].
  cbn [map]. unfold childrenOutput in *. cbn [foldr]. now rewrite IH.
Qed.

End OutputFacts.

(** ** Well-formed markup *)

Module WellFormedFacts.
Import Xml XmlFacts.

Lemma byteVal_code (c : ascii) : Utf8.byteVal c = Z.of_N (code c).
Proof. reflexivity. Qed.

Lemma high_isChar (c : ascii) : isHighByte c = true -> isChar c = true.
Proof.
  unfold isHighByte, isChar. rewrite byteVal_code. intros Hc. apply Z.leb_le in Hc.
  apply orb_true_iff. left. apply orb_true_iff. left. apply orb_true_iff. left.
  apply N.leb_le. lia.
Qed.

Lemma space_isChar (c : ascii) : isSpace c = true -> isChar c = true.
Proof.
  unfold isSpace, isChar. rewrite !orb_true_iff, !N.eqb_eq, N.leb_le.
  lia.
Qed.

Lemma space_not (c d : ascii) : isSpace c = true -> isSpace d = false -> Ascii.eqb c d = false.
Proof.
  intros Hc Hd. destruct (Ascii.eqb_spec c d) as [-> | _]; [congruence | reflexivity].
Qed.

(** Character data, in the content of an element and in an attribute
    value: a character that is none of [<], [&] and the quote is stepped
    over. *)
Lemma run_content_char (c : ascii) (stack : list string) (rest : string) :
  isChar c = true -> c <> "<"%char -> c <> "&"%char ->
  run Content stack (String c rest) = run Content stack rest.
Proof.
  intros Hc Hlt Hamp. cbn [run step].
  destruct (Ascii.eqb_spec c "<"); [contradiction |].
  destruct (Ascii.eqb_spec c "&"); [contradiction |].
  now rewrite Hc.
Qed.

Lemma run_value_char (c : ascii) (name : string) (seen : list string)
      (stack : list string) (rest : string) :
  isChar c = true -> c <> "<"%char -> c <> "&"%char -> c <> "034"%char ->
  run (InValue name seen "034") stack (String c rest)
  = run (InValue name seen "034") stack rest.
Proof.
  intros Hc Hlt Hamp Hq. cbn [run step].
  destruct (Ascii.eqb_spec c "034"); [contradiction |].
  destruct (Ascii.eqb_spec c "<"); [contradiction |].
  destruct (Ascii.eqb_spec c "&"); [contradiction |].
  now rewrite Hc.
Qed.

Lemma high_neq (c d : ascii) :
  isHighByte c = true -> Utf8.byteVal d < 128 -> c <> d.
Proof.
  intros Hc Hd ->. unfold isHighByte in Hc. apply Z.leb_le in Hc. lia.
Qed.

Lemma run_content_high (hi : string) :
  allBytes isHighByte hi = true ->
  forall (stack : list string) (rest : string),
    run Content stack (hi +:+ rest) = run Content stack rest.
Proof.
  induction hi as [| c hi IH]; intros Hhi stack rest; [reflexivity |].
  cbn [allBytes] in Hhi. apply andb_true_iff in Hhi as [Hc Hhi].
  rewrite append_cons, run_content_char; [now apply IH | now apply high_isChar | ..];
    apply (high_neq c _ Hc); vm_compute; reflexivity.
Qed.

Lemma run_value_high (hi : string) :
  allBytes isHighByte hi = true ->
  forall (name : string) (seen stack : list string) (rest : string),
    run (InValue name seen "034") stack (hi +:+ rest)
    = run (InValue name seen "034") stack rest.
Proof.
  induction hi as [| c hi IH]; intros Hhi name seen stack rest; [reflexivity |].
  cbn [allBytes] in Hhi. apply andb_true_iff in Hhi as [Hc Hhi].
  rewrite append_cons, run_value_char; [now apply IH | now apply high_isChar | ..];
    apply (high_neq c _ Hc); vm_compute; reflexivity.
Qed.

(** Escaped text is character data with references. *)
Lemma run_content_escaped (text : string) :
  validChars text = true ->
  forall (stack : list string) (rest : string),
    run Content stack (escapeString text +:+ rest) = run Content stack rest.
Proof.
  intros Hok.
  apply (EscapeShape.escapeString_pieces
           (fun out => forall (stack : list string) (rest : string),
                run Content stack (out +:+ rest) = run Content stack rest)
           isChar); [reflexivity | | | | exact Hok].
  - intros a b Ha Hb stack rest. now rewrite append_assoc, Ha, Hb.
  - intros c _ Hc. apply EscapeShape.escapeByte_cases; try reflexivity.
    intros Hamp Hlt _ _ _ stack rest. rewrite append_cons, append_nil_l.
    now apply run_content_char.
  - intros r Hr. apply run_content_high. apply (EscapeShape.AppendRune_high r Hr).
Qed.

Lemma run_value_escaped (text : string) :
  validChars text = true ->
  forall (name : string) (seen stack : list string) (rest : string),
    run (InValue name seen "034") stack (escapeString text +:+ rest)
    = run (InValue name seen "034") stack rest.
Proof.
  intros Hok.
  apply (EscapeShape.escapeString_pieces
           (fun out => forall (name : string) (seen stack : list string) (rest : string),
                run (InValue name seen "034") stack (out +:+ rest)
                = run (InValue name seen "034") stack rest)
           isChar); [reflexivity | | | | exact Hok].
  - intros a b Ha Hb name seen stack rest. now rewrite append_assoc, Ha, Hb.
  - intros c _ Hc. apply EscapeShape.escapeByte_cases; try reflexivity.
    intros Hamp Hlt _ Hq _ name seen stack rest. rewrite append_cons, append_nil_l.
    now apply run_value_char.
  - intros r Hr. apply run_value_high. apply (EscapeShape.AppendRune_high r Hr).
Qed.


(** *** White space *)

Lemma allBytes_app (p : ascii -> bool) (a b : string) :
  allBytes p (a +:+ b) = allBytes p a && allBytes p b.
Proof.
  induction a as [| c a IH]; [reflexivity |].
  rewrite append_cons. cbn [allBytes]. now rewrite IH, andb_assoc.
Qed.

Lemma allBytes_Repeat (p : ascii -> bool) (s : string) (n : nat) :
  allBytes p s = true -> allBytes p (Repeat s n) = true.
Proof.
  intros Hs. induction n as [| n IH]; [reflexivity |].
  cbn [Repeat]. now rewrite allBytes_app, Hs, IH.
Qed.

Lemma run_spaces (s : string) :
  allBytes isSpace s = true ->
  forall (stack : list string) (rest : string),
    run (before stack) stack (s +:+ rest) = run (before stack) stack rest.
Proof.
  induction s as [| c s IH]; intros Hs stack rest; [reflexivity |].
  cbn [allBytes] in Hs. apply andb_true_iff in Hs as [Hc Hs].
  rewrite append_cons. destruct stack as [| top stack]; cbn [before].
  - cbn [run step]. rewrite Hc. apply (IH Hs []).
  - rewrite run_content_char.
    + apply (IH Hs (top :: stack)).
    + now apply space_isChar.
    + intros ->. discriminate Hc.
    + intros ->. discriminate Hc.
Qed.

Lemma linePrefix_spaces (table : gmap string bool) (ind : string) (d : nat) :
  allBytes isSpace ind = true ->
  allBytes isSpace (linePrefix (mkEncoder EmptyString table ind d)) = true.
Proof.
  intros Hind. unfold linePrefix. cbn [depth indent].
  rewrite allBytes_app.
  destruct (0 <? d)%nat; destruct (negb (String.eqb ind EmptyString));
    cbn [allBytes andb]; try reflexivity; now apply allBytes_Repeat.
Qed.

Lemma closingPrefix_spaces (ind : string) (d : nat) (children : list Node) :
  allBytes isSpace ind = true -> allBytes isSpace (closingPrefix ind d children) = true.
Proof.
  intros Hind. unfold closingPrefix.
  destruct (lastIsElement children); [| reflexivity].
  rewrite append_cons, append_nil_l. cbn [allBytes].
  destruct (negb (String.eqb ind EmptyString)); [| reflexivity].
  now apply allBytes_Repeat.
Qed.

(** *** Names *)

Lemma nameChar_plain (c : ascii) :
  isNameChar c = true ->
  isSpace c = false /\ Ascii.eqb c "/" = false /\ Ascii.eqb c ">" = false
  /\ Ascii.eqb c "=" = false.
Proof.
  intros Hc.
  assert (Hne : forall d : ascii, isNameChar d = false -> Ascii.eqb c d = false).
  { intros d Hd. destruct (Ascii.eqb_spec c d) as [-> | _]; [congruence | reflexivity]. }
  repeat split; try (apply Hne; reflexivity).
  unfold isSpace.
  destruct (N.eqb_spec (code c) 32) as [E | _];
    [| destruct (N.eqb_spec (code c) 9) as [E | _];
       [| destruct (N.eqb_spec (code c) 10) as [E | _];
          [| destruct (N.eqb_spec (code c) 13) as [E | _]; [| reflexivity]]]];
    unfold isNameChar, isNameStart, isLetter, isDigit in Hc; rewrite E in Hc;
      discriminate Hc.
Qed.

Lemma validName_inv (name : string) :
  validName name = true ->
  exists (c : ascii) (chars : string),
    name = String c chars /\ isNameStart c = true /\ allNameChars chars = true.
Proof.
  unfold validName. intros Hn. apply andb_true_iff in Hn as [Hn _].
  destruct name as [| c chars]; [discriminate |].
  apply andb_true_iff in Hn as [Hc Hchars]. eauto.
Qed.

Lemma run_start_name (name : string) :
  validName name = true ->
  forall (stack : list string) (rest : string),
    run Lt stack (name +:+ rest) = run (StartName name) stack rest.
Proof.
  intros Hn stack rest. destruct (validName_inv name Hn) as (c & chars & -> & Hc & Hchars).
  rewrite append_cons. cbn [run step].
  destruct (nameChar_plain c (isNameStart_isNameChar c Hc)) as (_ & -> & _).
  rewrite Hc. now rewrite run_name_chars.
Qed.

Lemma run_attr_chars (chars : string) :
  forall (name : string) (seen : list string) (attr : string) (stack : list string)
         (rest : string),
    allNameChars chars = true ->
    run (AttrNameSt name seen attr) stack (chars +:+ rest)
    = run (AttrNameSt name seen (attr +:+ chars)) stack rest.
Proof.
  induction chars as [| c chars IH]; intros name seen attr stack rest Hall.
  - now rewrite append_nil_l, append_nil_r.
  - cbn [allNameChars] in Hall. apply andb_true_iff in Hall as [Hc Hall].
    rewrite append_cons. cbn [run step]. rewrite Hc.
    rewrite IH by assumption. unfold snoc.
    now rewrite append_assoc, append_cons, append_nil_l.
Qed.

Lemma run_attr_name (attr : string) :
  validName attr = true ->
  forall (name : string) (seen stack : list string) (rest : string),
    run (InTag name seen) stack (attr +:+ rest)
    = run (AttrNameSt name seen attr) stack rest.
Proof.
  intros Hn name seen stack rest.
  destruct (validName_inv attr Hn) as (c & chars & -> & Hc & Hchars).
  rewrite append_cons. cbn [run step].
  destruct (nameChar_plain c (isNameStart_isNameChar c Hc)) as (-> & -> & -> & _).
  rewrite Hc. now rewrite run_attr_chars.
Qed.

Lemma eqb_nonempty (c : ascii) (chars : string) :
  String.eqb (String c chars) EmptyString = false.
Proof. reflexivity. Qed.

Lemma run_end_chars (chars : string) :
  forall (c0 : ascii) (name : string) (stack : list string) (rest : string),
    allNameChars chars = true ->
    run (EndName (String c0 name)) stack (chars +:+ rest)
    = run (EndName (String c0 name +:+ chars)) stack rest.
Proof.
  induction chars as [| c chars IH]; intros c0 name stack rest Hall.
  - now rewrite append_nil_l, append_nil_r.
  - cbn [allNameChars] in Hall. apply andb_true_iff in Hall as [Hc Hall].
    rewrite append_cons. cbn [run step]. rewrite Hc, eqb_nonempty. cbn [andb].
    unfold snoc. rewrite append_cons. rewrite IH by assumption.
    now rewrite !append_cons, append_assoc, append_cons, append_nil_l.
Qed.

Lemma run_end_name (name : string) :
  validName name = true ->
  forall (stack : list string) (rest : string),
    run (EndName EmptyString) stack (name +:+ rest) = run (EndName name) stack rest.
Proof.
  intros Hn stack rest. destruct (validName_inv name Hn) as (c & chars & -> & Hc & Hchars).
  rewrite append_cons. cbn [run step].
  rewrite (isNameStart_isNameChar c Hc), Hc.
  change (String.eqb EmptyString EmptyString) with true. cbn [negb andb].
  unfold snoc. rewrite append_nil_l. now rewrite run_end_chars.
Qed.

(** *** Tags *)

Lemma run_tag_space (name : string) (seen stack : list string) (rest : string) :
  run (tagState name seen) stack (String " " rest) = run (InTag name seen) stack rest.
Proof. destruct seen; reflexivity. Qed.

Lemma run_tag_self_closing (name : string) (seen stack : list string) (rest : string) :
  run (tagState name seen) stack ("/>" +:+ rest) = run (after stack) stack rest.
Proof. destruct seen; destruct stack; reflexivity. Qed.

Lemma run_tag_open (name : string) (seen stack : list string) (rest : string) :
  run (tagState name seen) stack (">" +:+ rest) = run Content (name :: stack) rest.
Proof. destruct seen; reflexivity. Qed.

Lemma run_end_tag (name : string) :
  validName name = true ->
  forall (stack : list string) (rest : string),
    run Content (name :: stack) ("</" +:+ name +:+ ">" +:+ rest)
    = run (after stack) stack rest.
Proof.
  intros Hn stack rest. rewrite !append_cons, append_nil_l.
  cbn [run step]. change (Ascii.eqb "<" "<") with true. cbv iota.
  cbn [run step]. change (Ascii.eqb "/" "/") with true. cbv iota.
  rewrite run_end_name by exact Hn.
  destruct (validName_inv name Hn) as (c & chars & -> & Hc & Hchars).
  rewrite ?append_cons, ?append_nil_l. cbn [run step].
  change (isNameChar ">") with false. change (isSpace ">") with false.
  change (Ascii.eqb ">" ">") with true. cbv iota. rewrite eqb_nonempty.
  unfold endTag. rewrite String.eqb_refl. destruct stack; reflexivity.
Qed.

Lemma run_lt (stack : list string) (rest : string) :
  run (before stack) stack (String "<" rest) = run Lt stack rest.
Proof. destruct stack; reflexivity. Qed.

(** *** Attributes *)

Lemma existsb_eqb_sym (name : string) (names : list string) :
  existsb (String.eqb name) names = existsb (fun n => String.eqb n name) names.
Proof.
  induction names as [| n names IH]; [reflexivity |].
  cbn [existsb]. now rewrite IH, String.eqb_sym.
Qed.

Lemma run_attributes (name : string) (attrs : list Attribute) :
  forall seen : list string,
    forallb (fun attr => validName (AttrName attr) && validChars (AttrValue attr)) attrs
    = true ->
    distinct (map AttrName attrs) = true ->
    forallb (fun attr => negb (existsb (String.eqb (AttrName attr)) seen)) attrs = true ->
    forall (stack : list string) (rest : string),
      run (tagState name seen) stack (attributesText attrs +:+ rest)
      = run (tagState name (rev (map AttrName attrs) ++ seen)) stack rest.
Proof.
  induction attrs as [| attr attrs IH]; intros seen Hvalid Hdist Hfresh stack rest.
  { reflexivity. }
  cbn [forallb map distinct] in Hvalid, Hdist, Hfresh.
  apply andb_true_iff in Hvalid as [Hattr Hvalid].
  apply andb_true_iff in Hattr as [Hname Hvalue].
  apply andb_true_iff in Hdist as [Hnew Hdist].
  apply andb_true_iff in Hfresh as [Hnot Hfresh].
  apply negb_true_iff in Hnew, Hnot.
  cbn [attributesText]. rewrite !append_assoc, append_cons, append_nil_l.
  rewrite run_tag_space, run_attr_name by exact Hname.
  rewrite append_cons, append_nil_l. cbn [run step].
  change (isNameChar "=") with false. change (isSpace "=") with false.
  change (Ascii.eqb "=" "=") with true. cbv iota.
  unfold dquote at 1. rewrite append_cons, append_nil_l. cbn [run step].
  change (isSpace "034") with false. change (Ascii.eqb "034" "034") with true.
  cbn [orb]. cbv iota. rewrite Hnot.
  rewrite run_value_escaped by exact Hvalue.
  unfold dquote. rewrite append_cons, append_nil_l. cbn [run step].
  change (Ascii.eqb "034" "034") with true. cbv iota.
  change (AfterValue name (AttrName attr :: seen))
    with (tagState name (AttrName attr :: seen)).
  rewrite IH; [| assumption | assumption |].
  - cbn [map rev]. now rewrite <- app_assoc.
  - clear IH Hvalid Hdist. induction attrs as [| a attrs IHa]; [reflexivity |].
    cbn [forallb map existsb] in *.
    apply andb_true_iff in Hfresh as [Ha Hfresh].
    apply orb_false_iff in Hnew as [Hne Hnew].
    rewrite String.eqb_sym, Hne. cbn [orb]. rewrite Ha. cbn [andb]. now apply IHa.
Qed.

(** *** Elements *)

Lemma before_after_content (top : string) (stack : list string) :
  before (top :: stack) = Content /\ after (top :: stack) = Content.
Proof. split; reflexivity. Qed.

Lemma run_children (table : gmap string bool) (ind : string) (children : list Node) :
  Forall (recognized table ind) children ->
  forall (d : nat) (top : string) (stack : list string) (rest : string),
    run Content (top :: stack) (childrenOutput table ind d children +:+ rest)
    = run Content (top :: stack) rest.
Proof.
  induction 1 as [| child children Hchild _ IH]; intros d top stack rest.
  { reflexivity. }
  cbn [childrenOutput foldr]. rewrite append_assoc.
  specialize (Hchild d (top :: stack)).
  destruct child; cbn [before after] in Hchild; rewrite Hchild; apply IH.
Qed.

Lemma output_recognized (table : gmap string bool) (ind : string) (node : Node) :
  allBytes isSpace ind = true -> validTree node = true -> recognized table ind node.
Proof.
  intros Hind.
  induction node as [text | name attrs children sc IH] using Node_induction;
    intros Hvalid d stack rest.
  { cbn [validTree] in Hvalid. now apply run_content_escaped. }
  cbn [validTree] in Hvalid.
  apply andb_true_iff in Hvalid as [Hvalid Hkids].
  apply andb_true_iff in Hvalid as [Hname Hattrs].
  apply andb_true_iff in Hattrs as [Hattrs Hdist].
  assert (Hrec : Forall (recognized table ind) children).
  { clear -IH Hkids. induction IH as [| child children Hchild _ IHrest];
      [constructor |].
    cbn [forallb] in Hkids. apply andb_true_iff in Hkids as [Hc Hkids].
    constructor; [now apply Hchild | now apply IHrest]. }
  rewrite OutputFacts.output_element. unfold elementText.
  rewrite !append_assoc.
  rewrite run_spaces by now apply linePrefix_spaces.
  rewrite append_cons, append_nil_l, run_lt.
  rewrite run_start_name by exact Hname.
  change (StartName name) with (tagState name []).
  rewrite run_attributes; [| exact Hattrs | exact Hdist |].
  2: { clear. induction attrs as [| a attrs IHa]; [reflexivity | exact IHa]. }
  destruct (shouldSelfClose _ name children sc).
  { apply run_tag_self_closing. }
  rewrite !append_assoc, run_tag_open, run_children by exact Hrec.
  pose proof (run_spaces (closingPrefix ind d children)
                         (closingPrefix_spaces ind d children Hind)
                         (name :: stack)) as Hsp.
  cbn [before] in Hsp. rewrite Hsp.
  now apply run_end_tag.
Qed.

End WellFormedFacts.

(** X4: the markup of a valid tree is well-formed.  When the root is an
    element, every element and attribute name of the tree is an XML name
    written in ASCII, the attributes of each element have distinct names,
    no text or attribute value holds a control character other than tab,
    line feed and carriage return, and the indentation is white space, the
    recognizer accepts what the encoder writes, whatever names are
    configured as self-closing. *)
Theorem Accept_well_formed (tags : list string) (ind : string) (node : Node) :
  isElementNode node = true -> validTree node = true ->
  allBytes Xml.isSpace ind = true ->
  Xml.wellFormed (w (Accept (NewEncoder EmptyString tags ind) node)) = true.
Proof.
  intros Hel Hvalid Hind.
  pose proof (WellFormedFacts.output_recognized
                (selfClosing (NewEncoder EmptyString tags ind)) ind node Hind Hvalid
                0%nat [] EmptyString) as Hrec.
  destruct node as [name attrs children sc | text]; [| discriminate Hel].
  cbn [before after] in Hrec. rewrite append_nil_r in Hrec. exact Hrec.
Qed.

Lemma Accept_well_formed_witness :
  Xml.wellFormed
    (w (Accept (NewEncoder EmptyString ["b"] "  ")
               (ElementNode "a" [mkAttribute "id" "1<2"; mkAttribute "k" sampleText]
                            [TextNode sampleText; ElementNode "b" [] [] false;
                             ElementNode "c" [] [TextNode "x"] false]
                            false)))
  = true.
Proof. apply Accept_well_formed; reflexivity. Defined.

(** X5: visiting a node only extends the buffer, by a text that does not
    depend on what the buffer holds, and leaves the table of self-closing
    names, the indentation and the depth of the encoder as they were. *)
Theorem Accept_keeps_encoder (e : Encoder) (node : Node) :
  w (Accept e node) = w e +:+ w (Accept (emptied e) node)
  /\ selfClosing (Accept e node) = selfClosing e
  /\ indent (Accept e node) = indent e
  /\ depth (Accept e node) = depth e.
Proof.
  rewrite (OutputFacts.Accept_output node e). repeat split.
Qed.

(** X6: indentation does not touch an element whose children are all
    text: at any depth and with any indentation, when the element is not
    written self-closing its content is the escaped texts, one after the
    other, with no white space added. *)
Theorem text_content_kept (e : Encoder) (name : string) (attrs : list Attribute)
        (texts : list string) (sc : bool) :
  shouldSelfClose e name (map TextNode texts) sc = false ->
  w (Accept e (ElementNode name attrs (map TextNode texts) sc))
  = w e +:+ linePrefix e +:+ "<" +:+ name +:+ attributesText attrs +:+ ">"
    +:+ foldr (fun text out => escapeString text +:+ out) EmptyString texts
    +:+ "</" +:+ name +:+ ">".
Proof.
  intros Hsc. rewrite OutputFacts.Accept_output, OutputFacts.output_element.
  unfold elementText. cbn [w Write selfClosing indent depth].
  change (shouldSelfClose (mkEncoder EmptyString (selfClosing e) (indent e) (depth e))
                          name (map TextNode texts) sc)
    with (shouldSelfClose e name (map TextNode texts) sc).
  rewrite Hsc.
  change (linePrefix (mkEncoder EmptyString (selfClosing e) (indent e) (depth e)))
    with (linePrefix e).
  rewrite (OutputFacts.closingPrefix_texts (indent e) (depth e) texts), append_nil_l.
  now rewrite OutputFacts.childrenOutput_texts.
Qed.

Lemma text_content_kept_witness :
  w (Accept (setDepth (NewEncoder "<r>" ["k"] "  ") 1)
            (ElementNode "k" [] (map TextNode ["a<"; "b"]) false))
  = "<r>" +:+ linePrefix (setDepth (NewEncoder "<r>" ["k"] "  ") 1)
    +:+ "<" +:+ "k" +:+ attributesText [] +:+ ">"
    +:+ foldr (fun text out => escapeString text +:+ out) EmptyString ["a<"; "b"]
    +:+ "</" +:+ "k" +:+ ">".
Proof. apply text_content_kept. reflexivity. Defined.
(** ** Names that break the markup *)

Module BadNames.
Import Xml XmlFacts WellFormedFacts.
















(** *** Names that break a tag *)









(** *** Where a written element occurs in the markup *)

Lemma occurs_here (pre s post : string) : occurs s (pre +:+ s +:+ post).
Proof. now exists pre, post. Qed.






End BadNames.




(** ** More on the tree builder *)

Module FlagFacts.

Lemma noSelfClose_appendChildren (element : Node) (more : list Node) :
  noSelfClose element = true -> forallb noSelfClose more = true ->
  noSelfClose (appendChildren element more) = true.
Proof.
  destruct element as [name attrs children sc | text]; [| trivial].
  cbn [noSelfClose appendChildren]. intros Hel Hmore.
  apply andb_true_iff in Hel as [-> Hkids]. now rewrite forallb_app, Hkids, Hmore.
Qed.

Lemma noSelfClose_appendAttributes (element : Node) (more : list Attribute) :
  noSelfClose (appendAttributes element more) = noSelfClose element.
Proof. now destruct element. Qed.

Lemma noSelfClose_setName (name : string) (element : Node) :
  noSelfClose (setName name element) = noSelfClose element.
Proof. now destruct element. Qed.

Lemma noSelfClose_wrapChain (names : list string) (inner : list Node) :
  forallb noSelfClose inner = true -> forallb noSelfClose (wrapChain names inner) = true.
Proof.
  intros Hinner. induction names as [| name names IH]; [exact Hinner |].
  cbn [wrapChain forallb noSelfClose negb andb]. now rewrite IH.
Qed.

Section Helpers.
Context `{GoRuntime}.
Variable build : Value -> list string -> result (option Node).

Lemma buildItemsFrom_noSelfClose (items : list Value) (tags : list string) :
  Forall (yields noSelfClose build) items ->
  forall children kids : list Node,
    forallb noSelfClose children = true ->
    buildItemsFrom build items tags children = Ok kids ->
    forallb noSelfClose kids = true.
Proof.
  induction 1 as [| item rest Hitem _ IH]; intros children kids Hch Hbuild;
    cbn [buildItemsFrom] in Hbuild.
  { now injection Hbuild as <-. }
  destruct (build item tags) as [[node |] | e] eqn:E; [| eauto | discriminate].
  apply (IH (children ++ [node]) kids); [| exact Hbuild].
  rewrite forallb_app, Hch. cbn [forallb]. now rewrite (Hitem tags node E).
Qed.

Lemma handleField_noSelfClose (element : Node) (field : StructField) (fieldValue : Value)
      (element' : Node) :
  fieldYields noSelfClose build fieldValue ->
  noSelfClose element = true ->
  handleField build element field fieldValue = Ok element' ->
  noSelfClose element' = true.
Proof.
  intros [Hv Hitems] Hel. unfold handleField.
  destruct (Anonymous field).
  { unfold processAnonymousField.
    destruct (build fieldValue []) as [[[n a c s | t] |] | e] eqn:E; cbn [bind];
      intros [= <-]; try exact Hel.
    pose proof (Hv [] _ E) as Hn. cbn [noSelfClose] in Hn.
    apply andb_true_iff in Hn as [_ Hc].
    apply noSelfClose_appendChildren; [| exact Hc].
    now rewrite noSelfClose_appendAttributes. }
  destruct (String.eqb (Tag field) "-"); [now intros [= <-] |].
  destruct (IsXMLName field).
  { intros [= <-]. destruct (String.eqb _ _); [exact Hel |].
    now rewrite noSelfClose_setName. }
  unfold processField.
  destruct (contains (tagOptions field) "attr");
    [intros [= <-]; now rewrite noSelfClose_appendAttributes |].
  destruct (contains (tagOptions field) "omitempty" && isEmptyValue fieldValue);
    [now intros [= <-] |].
  unfold processChildTags. cbv zeta.
  set (childTags := if Contains (tagName field) ">" then Split (tagName field) ">"
                    else [tagName field]).
  set (lastTag := List.last childTags EmptyString).
  assert (Hsingle : forall kids : list Node,
             (do childNode <- build fieldValue [lastTag];
              Ok (match childNode with
                  | Some n => [n]
                  | None => []
                  end)) = Ok kids -> forallb noSelfClose kids = true).
  { intros kids. destruct (build fieldValue [lastTag]) as [[node |] | e] eqn:E;
      cbn [bind]; intros [= <-]; [| reflexivity].
    cbn [forallb]. now rewrite (Hv _ _ E). }
  assert (Hkids : forall kids : list Node,
             match fieldValue with
             | VSlice items | VArray items => buildItems build items [lastTag]
             | _ =>
               do childNode <- build fieldValue [lastTag];
               Ok (match childNode with
                   | Some n => [n]
                   | None => []
                   end)
             end = Ok kids -> forallb noSelfClose kids = true).
  { destruct fieldValue; try exact Hsingle; intros kids Hb;
      apply (buildItemsFrom_noSelfClose _ _ Hitems [] kids eq_refl Hb). }
  destruct (match fieldValue with
            | VSlice items | VArray items => buildItems build items [lastTag]
            | _ => _
            end) as [kids | e] eqn:E; cbn [bind]; [| discriminate].
  intros [= <-]. apply noSelfClose_appendChildren; [exact Hel |].
  apply noSelfClose_wrapChain. now apply Hkids.
Qed.

Lemma handleFields_noSelfClose (fields : list (StructField * Value)) :
  Forall (fun field => fieldYields noSelfClose build (snd field)) fields ->
  forall element node : Node,
    noSelfClose element = true ->
    handleFields build fields element = Ok (Some node) ->
    noSelfClose node = true.
Proof.
  induction 1 as [| [field fieldValue] rest Hfv _ IH]; intros element node Hel;
    cbn [handleFields].
  { now intros [= <-]. }
  destruct (String.eqb (Tag field) "-"); [now apply IH |].
  destruct (handleField build element field fieldValue) as [element' | e] eqn:E;
    [| discriminate].
  apply IH. exact (handleField_noSelfClose _ _ _ _ Hfv Hel E).
Qed.

End Helpers.

Lemma structToNode_fieldYields `{GoRuntime} (opts : MarshalOptions) (val : Value) :
  fieldYields noSelfClose (fun v tags => structToNode v opts tags) val.
Proof.
  pattern val. apply Value_induction; clear val;
    [intros val | intros elem IH | intros elem IH | intros items IH | intros items IH
     | intros fields IH].
  - destruct val as [b | k i | k u | k f | s | [elem |] | [elem |] | items | items
                     | len | k | fields]; try exact I;
      (split; [| exact I]); intros tags node; cbn [structToNode];
        unfold handleSimpleNode; intros [= <-]; reflexivity.
  - split; [| exact I]. intros tags node. cbn [structToNode]. apply IH.
  - split; [| exact I]. intros tags node. cbn [structToNode]. apply IH.
  - assert (Hitems : Forall (yields noSelfClose (fun v tags => structToNode v opts tags))
                            items).
    { eapply Forall_impl; [exact IH |]. now intros item [Hitem _]. }
    split; [| exact Hitems]. intros tags node.
    rewrite BuilderFacts.structToNode_slice_sequential.
    unfold handleSliceNode_seq.
    destruct (buildItems _ items (tl tags)) as [kids | e] eqn:E; cbn [bind];
      [| discriminate].
    intros [= <-]. cbn [noSelfClose negb andb].
    apply (buildItemsFrom_noSelfClose _ _ _ Hitems [] kids eq_refl E).
  - assert (Hitems : Forall (yields noSelfClose (fun v tags => structToNode v opts tags))
                            items).
    { eapply Forall_impl; [exact IH |]. now intros item [Hitem _]. }
    split; [| exact Hitems]. intros tags node.
    change (structToNode (VArray items) opts tags)
      with (structToNode (VSlice items) opts tags).
    rewrite BuilderFacts.structToNode_slice_sequential.
    unfold handleSliceNode_seq.
    destruct (buildItems _ items (tl tags)) as [kids | e] eqn:E; cbn [bind];
      [| discriminate].
    intros [= <-]. cbn [noSelfClose negb andb].
    apply (buildItemsFrom_noSelfClose _ _ _ Hitems [] kids eq_refl E).
  - split; [| exact I]. intros tags node. cbn [structToNode]. unfold handleStructNode.
    now apply handleFields_noSelfClose.
Qed.

End FlagFacts.

(** X7: the tree builder never sets the [SelfClose] flag: in every tree
    that [structToNode] returns, all elements have it unset, so that only
    the names configured in the encoder are written self-closing. *)
Theorem structToNode_never_self_closes `{GoRuntime} (val : Value) (opts : MarshalOptions)
        (tags : list string) (node : Node) :
  structToNode val opts tags = Ok (Some node) -> noSelfClose node = true.
Proof. apply (proj1 (FlagFacts.structToNode_fieldYields opts val)). Qed.

Lemma structToNode_never_self_closes_witness :
  noSelfClose
    (ElementNode "r" []
       [ElementNode "a" [] [TextNode "1"] false; ElementNode "a" [] [TextNode "2"] false]
       false) = true.
Proof.
  apply (@structToNode_never_self_closes sampleRuntime
           (VStruct [(field "A" "a", VSlice [VInt Int 1; VInt Int 2])])
           defaultOptions ["r"]).
  reflexivity.
Defined.

Module NameFacts.

Section Helpers.
Context `{GoRuntime}.
Variable build : Value -> list string -> result (option Node).

Lemma nodeName_appendChildren (element : Node) (more : list Node) :
  nodeName (appendChildren element more) = nodeName element.
Proof. now destruct element. Qed.

Lemma nodeName_appendAttributes (element : Node) (more : list Attribute) :
  nodeName (appendAttributes element more) = nodeName element.
Proof. now destruct element. Qed.

Lemma handleField_name (element : Node) (field : StructField) (fieldValue : Value)
      (element' : Node) :
  isElement element ->
  String.eqb (Tag field) "-" = false ->
  handleField build element field fieldValue = Ok element' ->
  isElement element'
  /\ nodeName element'
     = if namesElement field fieldValue then xmlNameLocal fieldValue
       else nodeName element.
Proof.
  intros Hel Htag. unfold handleField, namesElement. rewrite Htag.
  destruct (Anonymous field); cbn [negb andb].
  { unfold processAnonymousField.
    destruct (build fieldValue []) as [[[n a c s | t] |] | e]; cbn [bind];
      intros [= <-]; try (split; [exact Hel | reflexivity]).
    destruct element; [split; [exact I | reflexivity] | contradiction]. }
  destruct (IsXMLName field); cbn [andb].
  { intros [= <-]. destruct (String.eqb (xmlNameLocal fieldValue) EmptyString);
      cbn [negb]; [split; [exact Hel | reflexivity] |].
    destruct element; [split; [exact I | reflexivity] | contradiction]. }
  unfold processField.
  destruct (contains (tagOptions field) "attr").
  { intros [= <-]. destruct element; [split; [exact I | reflexivity] | contradiction]. }
  destruct (contains (tagOptions field) "omitempty" && isEmptyValue fieldValue);
    [intros [= <-]; split; [exact Hel | reflexivity] |].
  unfold processChildTags. cbv zeta.
  destruct (match fieldValue with
            | VSlice items | VArray items => _
            | _ => _
            end) as [kids | e]; cbn [bind]; [| discriminate].
  intros [= <-]. destruct element; [split; [exact I | reflexivity] | contradiction].
Qed.

Lemma handleFields_name (fields : list (StructField * Value)) :
  forall element node : Node,
    isElement element ->
    handleFields build fields element = Ok (Some node) ->
    nodeName node = structName fields (nodeName element).
Proof.
  induction fields as [| [field fieldValue] rest IH]; intros element node Hel;
    cbn [handleFields structName].
  { now intros [= <-]. }
  destruct (String.eqb (Tag field) "-") eqn:Htag.
  { unfold namesElement. rewrite Htag, andb_false_r. cbn [andb]. now apply IH. }
  destruct (handleField build element field fieldValue) as [element' | e] eqn:E;
    [| discriminate].
  destruct (handleField_name _ _ _ _ Hel Htag E) as [Hel' Hname].
  intros Hrest. rewrite (IH _ _ Hel' Hrest). now rewrite Hname.
Qed.

Lemma handleFields_filter (fields : list (StructField * Value)) :
  forall element : Node,
    handleFields build fields element
    = handleFields build (List.filter isRead fields) element.
Proof.
  induction fields as [| [field fieldValue] rest IH]; intros element; [reflexivity |].
  cbn [handleFields List.filter]. unfold isRead at 1. cbn [fst].
  destruct (String.eqb (Tag field) "-") eqn:Htag; cbn [negb]; [apply IH |].
  cbn [handleFields]. rewrite Htag.
  destruct (handleField build element field fieldValue); [apply IH | reflexivity].
Qed.

End Helpers.

(** [strings.Split] on a separator that occurs gives two pieces or more. *)
Lemma Split_nonempty (s : string) (sep : ascii) : Split s sep <> [].
Proof.
  destruct s as [| c s]; [discriminate |]. cbn [Split].
  destruct (Ascii.eqb c sep); [discriminate |].
  destruct (Split s sep); discriminate.
Qed.

Lemma Split_Contains (s : string) (sep : ascii) :
  Contains s sep = true ->
  exists (first second : string) (more : list string),
    Split s sep = first :: second :: more.
Proof.
  induction s as [| c s IH]; [discriminate |].
  cbn [Contains Split]. destruct (Ascii.eqb c sep); cbn [orb].
  - intros _. destruct (Split s sep) as [| piece pieces] eqn:E;
      [now apply Split_nonempty in E | eauto].
  - intros Hc. destruct (IH Hc) as (first & second & more & ->). eauto.
Qed.

End NameFacts.

(** X8: whenever the builder returns a node for a struct, the node is an
    element with its flag unset, named by the [Local] of the last field of
    type [xml.Name] that is read (not embedded, not tagged [-]) and whose
    [Local] is not empty, and by the head of the tag path only when there
    is none: such a field overrides the root tag given in the options. *)
Theorem struct_element_name `{GoRuntime} (fields : list (StructField * Value))
        (opts : MarshalOptions) (tags : list string) (node : Node) :
  structToNode (VStruct fields) opts tags = Ok (Some node) ->
  exists (attrs : list Attribute) (children : list Node),
    node = ElementNode (structName fields (hd EmptyString tags)) attrs children false.
Proof.
  intros Hnode.
  pose proof (proj1 (FlagFacts.structToNode_fieldYields opts (VStruct fields))
                    tags node Hnode) as Hflag.
  pose proof (BuilderFacts.structToNode_total opts (VStruct fields) tags) as Ht.
  cbn [derefsToNil] in Ht. destruct Ht as (node' & Hnode' & Hel).
  rewrite Hnode in Hnode'. injection Hnode' as <-.
  cbn [structToNode] in Hnode. unfold handleStructNode in Hnode.
  apply NameFacts.handleFields_name in Hnode; [| exact I].
  destruct node as [name attrs children sc | text]; [| contradiction].
  cbn [nodeName] in Hnode. cbn [noSelfClose] in Hflag.
  apply andb_true_iff in Hflag as [Hsc _]. apply negb_true_iff in Hsc.
  subst. eauto.
Qed.

Lemma struct_element_name_witness :
  exists (attrs : list Attribute) (children : list Node),
    ElementNode "item" [mkAttribute "id" "7"] [] false
    = ElementNode
        (structName [(mkStructField "XMLName" "" false true,
                      VStruct [(field "Space" "", VString "");
                               (field "Local" "", VString "item")]);
                     (field "ID" "id,attr", VInt Int 7)]
                    (hd EmptyString ["root"]))
        attrs children false.
Proof.
  apply (@struct_element_name
           sampleRuntime
           [(mkStructField "XMLName" "" false true,
             VStruct [(field "Space" "", VString "");
                      (field "Local" "", VString "item")]);
            (field "ID" "id,attr", VInt Int 7)]
           defaultOptions ["root"]).
  reflexivity.
Defined.

(** X9: a child field from which no node is built (its value ends on nil
    or is a sequence whose items all do, an empty one included) adds
    nothing under a simple tag; under a path tag such as [a>b] it adds
    one child, the element named by the first piece of the path, without
    attributes, which holds the chain of the elements named by the pieces
    between the first and the last, each without attributes and the
    innermost without children. *)
Theorem processField_path_of_nil `{GoRuntime} (opts : MarshalOptions) (element : Node)
        (fieldValue : Value) (name : string) (options : list string) :
  contains options "attr" = false ->
  contains options "omitempty" && isEmptyValue fieldValue = false ->
  yieldsNothing fieldValue = true ->
  let build := fun v tags => structToNode v opts tags in
  if Contains name ">" then
    processField build element fieldValue name options
    = Ok (appendChildren element
            [ElementNode (hd EmptyString (Split name ">")) []
                         (wrapChain (tl (removelast (Split name ">"))) []) false])
  else processField build element fieldValue name options = Ok element.
Proof.
  intros Hattr Hempty Hnil build. unfold processField. rewrite Hattr, Hempty.
  unfold processChildTags. cbv zeta.
  assert (Hitems : forall (items : list Value) (lastTag : string) (kids : list Node),
             forallb derefsToNil items = true ->
             buildItemsFrom build items [lastTag] kids = Ok kids).
  { induction items as [| item items IH]; intros lastTag kids Hall; [reflexivity |].
    cbn [forallb] in Hall. apply andb_true_iff in Hall as [Hitem Hall].
    cbn [buildItemsFrom]. unfold build at 1.
    rewrite (proj2 (BuilderFacts.structToNode_nil opts item [lastTag]) Hitem).
    now apply IH. }
  assert (Hkids : forall lastTag : string,
             match fieldValue with
             | VSlice items | VArray items => buildItems build items [lastTag]
             | _ =>
               do childNode <- build fieldValue [lastTag];
               Ok (match childNode with
                   | Some n => [n]
                   | None => []
                   end)
             end = Ok []).
  { intros lastTag. unfold build, buildItems.
    destruct fieldValue; cbn [yieldsNothing] in Hnil; try discriminate Hnil;
      try (now apply Hitems);
      now rewrite (proj2 (BuilderFacts.structToNode_nil opts _ [lastTag]) Hnil). }
  destruct (Contains name ">") eqn:Hpath.
  - rewrite Hkids. cbn [bind].
    destruct (NameFacts.Split_Contains name ">" Hpath) as (first & second & more & ->).
    cbn [hd]. change (removelast (first :: second :: more))
                with (first :: removelast (second :: more)).
    cbn [wrapChain tl]. reflexivity.
  - rewrite Hkids. cbn [bind removelast wrapChain].
    destruct element as [n a c s | t]; cbn [appendChildren]; [| reflexivity].
    now rewrite app_nil_r.
Qed.

Lemma processField_path_of_nil_witness :
  @processField sampleRuntime sampleBuild (ElementNode "r" [] [] false)
                (VSlice []) "a>b" []
  = Ok (ElementNode "r" [] [ElementNode "a" [] [] false] false)
  /\ @processField sampleRuntime sampleBuild (ElementNode "r" [] [] false)
                   (VSlice [VPtr None]) "a>b>c" ["omitempty"]
     = Ok (ElementNode "r" [] [ElementNode "a" [] [ElementNode "b" [] [] false] false]
                       false)
  /\ @processField sampleRuntime sampleBuild (ElementNode "r" [] [] false)
                   (VPtr None) "a" []
     = Ok (ElementNode "r" [] [] false).
Proof.
  split; [| split].
  - exact (@processField_path_of_nil sampleRuntime defaultOptions
             (ElementNode "r" [] [] false) (VSlice []) "a>b" []
             eq_refl eq_refl eq_refl).
  - exact (@processField_path_of_nil sampleRuntime defaultOptions
             (ElementNode "r" [] [] false) (VSlice [VPtr None]) "a>b>c" ["omitempty"]
             eq_refl eq_refl eq_refl).
  - exact (@processField_path_of_nil sampleRuntime defaultOptions
             (ElementNode "r" [] [] false) (VPtr None) "a" []
             eq_refl eq_refl eq_refl).
Defined.

(** X10: a field tagged [-] leaves no trace, whatever it holds and also
    when it is embedded: the tree of a struct is the tree of the struct
    without these fields. *)
Theorem ignored_fields `{GoRuntime} (fields : list (StructField * Value))
        (opts : MarshalOptions) (tags : list string) :
  structToNode (VStruct fields) opts tags
  = structToNode (VStruct (List.filter isRead fields)) opts tags.
Proof.
  cbn [structToNode]. unfold handleStructNode. apply NameFacts.handleFields_filter.
Qed.

Module RuntimeFacts.

Section TwoRuntimes.
Variables R1 R2 : GoRuntime.
Hypothesis same_v : forall v : Value, @Sprintf_v R1 v = @Sprintf_v R2 v.

Lemma valueToString_runtime (val : Value) :
  @valueToString R1 val = @valueToString R2 val.
Proof.
  pattern val. apply Value_induction; clear val;
    [intros val | intros elem IH | intros elem IH | intros items IH | intros items IH
     | intros fields IH]; try (cbn [valueToString]; apply same_v).
  - destruct val as [b | k i | k u | k f | s | [elem |] | [elem |] | items | items
                     | len | k | fields]; try exact I; try reflexivity;
      cbn [valueToString]; apply same_v.
  - exact IH.
Qed.

Lemma handleField_runtime (build : Value -> list string -> result (option Node))
      (element : Node) (field : StructField) (fieldValue : Value) :
  @handleField R1 build element field fieldValue
  = @handleField R2 build element field fieldValue.
Proof.
  unfold handleField, processField. now rewrite valueToString_runtime.
Qed.

Lemma handleFields_runtime (build : Value -> list string -> result (option Node))
      (fields : list (StructField * Value)) :
  forall element : Node,
    @handleFields R1 build fields element = @handleFields R2 build fields element.
Proof.
  induction fields as [| [field fieldValue] rest IH]; intros element; [reflexivity |].
  cbn [handleFields]. rewrite handleField_runtime.
  destruct (String.eqb (Tag field) "-"); [apply IH |].
  destruct (@handleField R2 build element field fieldValue); [apply IH | reflexivity].
Qed.

Lemma structToNode_runtime (opts1 opts2 : MarshalOptions) (val : Value) :
  fieldAgree (fun v tags => @structToNode R1 v opts1 tags)
             (fun v tags => @structToNode R2 v opts2 tags) val.
Proof.
  pattern val. apply Value_induction; clear val;
    [intros val | intros elem IH | intros elem IH | intros items IH | intros items IH
     | intros fields IH].
  - destruct val as [b | k i | k u | k f | s | [elem |] | [elem |] | items | items
                     | len | k | fields]; try exact I;
      (split; [| exact I]); intros tags; cbn [structToNode]; try reflexivity;
        unfold handleSimpleNode; now rewrite valueToString_runtime.
  - split; [| exact I]. intros tags. cbn [structToNode]. apply IH.
  - split; [| exact I]. intros tags. cbn [structToNode]. apply IH.
  - assert (Hitems : Forall (agree (fun v tags => @structToNode R1 v opts1 tags)
                                   (fun v tags => @structToNode R2 v opts2 tags)) items).
    { eapply Forall_impl; [exact IH |]. now intros item [Hitem _]. }
    split; [| exact Hitems]. intros tags.
    rewrite !BuilderFacts.structToNode_slice_sequential.
    unfold handleSliceNode_seq, buildItems.
    now rewrite (BuilderFacts.buildItemsFrom_agree _ _ _ _ Hitems).
  - assert (Hitems : Forall (agree (fun v tags => @structToNode R1 v opts1 tags)
                                   (fun v tags => @structToNode R2 v opts2 tags)) items).
    { eapply Forall_impl; [exact IH |]. now intros item [Hitem _]. }
    split; [| exact Hitems]. intros tags.
    change (@structToNode R1 (VArray items) opts1 tags)
      with (@structToNode R1 (VSlice items) opts1 tags).
    change (@structToNode R2 (VArray items) opts2 tags)
      with (@structToNode R2 (VSlice items) opts2 tags).
    rewrite !BuilderFacts.structToNode_slice_sequential.
    unfold handleSliceNode_seq, buildItems.
    now rewrite (BuilderFacts.buildItemsFrom_agree _ _ _ _ Hitems).
  - split; [| exact I]. intros tags. cbn [structToNode]. unfold handleStructNode.
    rewrite handleFields_runtime.
    now apply (@BuilderFacts.handleFields_agree R2).
Qed.

End TwoRuntimes.

End RuntimeFacts.

(** X11: the tree that is built depends neither on the options, nor on
    the order in which the goroutines of the sequences complete, nor on the
    compressor: two runtimes that print opaque values alike build the
    same tree, nested sequences included. *)
Theorem structToNode_runtime_independent (R1 R2 : GoRuntime)
        (opts1 opts2 : MarshalOptions) (val : Value) (tags : list string) :
  (forall v : Value, @Sprintf_v R1 v = @Sprintf_v R2 v) ->
  @structToNode R1 val opts1 tags = @structToNode R2 val opts2 tags.
Proof.
  intros Hv. apply (proj1 (RuntimeFacts.structToNode_runtime R1 R2 Hv opts1 opts2 val)).
Qed.

Lemma structToNode_runtime_independent_witness :
  @structToNode sampleRuntime
     (VStruct [(field "A" "a", VSlice [VSlice [VInt Int 1; VInt Int 2]; VSlice []])])
     defaultOptions ["r"]
  = @structToNode inOrderRuntime
      (VStruct [(field "A" "a", VSlice [VSlice [VInt Int 1; VInt Int 2]; VSlice []])])
      (rootOptions "x") ["r"].
Proof.
  apply structToNode_runtime_independent. intros v. reflexivity.
Defined.

(** X12: the header option only puts the declaration, and a line break
    when an indentation is set, in front of the markup: without
    compression, what [Marshal] returns with the header is the
    declaration followed by what it returns without. *)
Theorem Marshal_header `{GoRuntime} (v : Interface) (opts : MarshalOptions) (out : string) :
  Compress opts = false ->
  Marshal v (Some (withHeader false opts)) = Returned (Ok out) ->
  Marshal v (Some (withHeader true opts))
  = Returned (Ok (xmlHeader
                  +:+ (if negb (String.eqb (Indent opts) EmptyString)
                       then String "010" EmptyString else EmptyString)
                  +:+ out)).
Proof.
  intros Hc. destruct v as [| typeName val].
  { rewrite MarshalFacts.Marshal_nil. cbn [withHeader RootTag].
    destruct (String.eqb (RootTag opts) EmptyString); discriminate. }
  rewrite !MarshalFacts.Marshal_Iface. cbn [withHeader RootTag].
  set (rootTag := if String.eqb (RootTag opts) EmptyString then typeName
                  else RootTag opts).
  rewrite (proj1 (BuilderFacts.structToNode_options (withHeader false opts)
                                                    (withHeader true opts) val)
                 [rootTag]).
  destruct (structToNode val (withHeader true opts) [rootTag]) as [[node |] | e];
    try discriminate.
  unfold encodeRoot, encodeWith. cbv zeta.
  cbn [withHeader Compress SelfClosingTags Indent].
  rewrite Hc.
  change (injectNamespace (withHeader false opts) node)
    with (injectNamespace (withHeader true opts) node).
  rewrite !OutputFacts.Accept_output. cbn [w Write selfClosing indent depth NewEncoder].
  unfold headerText. cbn [withHeader XMLHeader Indent].
  intros [= <-]. rewrite !append_nil_l.
  destruct (negb (String.eqb (Indent opts) EmptyString));
    now rewrite ?append_assoc, ?append_nil_l.
Qed.

Lemma Marshal_header_witness :
  @Marshal sampleRuntime (Iface "T" (VInt Int 1))
           (Some (withHeader true (rootOptions "r")))
  = Returned (Ok (xmlHeader +:+ EmptyString +:+ "<r>1</r>")).
Proof.
  apply (@Marshal_header sampleRuntime (Iface "T" (VInt Int 1)) (rootOptions "r"));
    reflexivity.
Defined.

(** ** The sequential revision of the serializer *)

Module SequentialFacts.

Section Facts.
Context `{GoRuntime}.
Variable opts : MarshalOptions.

(** With no tag left, only a value that ends on nil is accepted. *)
Lemma structToNode_no_tag (val : Value) :
  Sequential.structToNode val opts []
  = if derefsToNil val then Ok None else Err "tag hierarchy is empty".
Proof.
  pattern val. apply Value_induction; clear val;
    [intros val | intros elem IH | intros elem IH | intros items IH | intros items IH
     | intros fields IH]; try reflexivity; try exact IH.
  destruct val as [b | k i | k u | k f | s | [elem |] | [elem |] | items | items
                   | len | k | fields]; try exact I; reflexivity.
Qed.

Lemma buildItemsFrom_no_tag (items : list Value) :
  forall children : list Node,
    buildItemsFrom (fun v tags => Sequential.structToNode v opts tags) items [] children
    = if forallb derefsToNil items then Ok children else Err "tag hierarchy is empty".
Proof.
  induction items as [| item items IH]; intros children; [reflexivity |].
  cbn [buildItemsFrom forallb]. rewrite structToNode_no_tag.
  destruct (derefsToNil item); cbn [andb]; [apply IH | reflexivity].
Qed.

End Facts.

End SequentialFacts.

(** X13: in the revision that builds sequences one item after the other,
    a sequence reached with one tag left, as the root value of [Marshal]
    is, has no tag for its items: the build fails with the error
    [tag hierarchy is empty] as soon as one item does not end on nil, and
    gives an empty element otherwise. *)
Theorem Sequential_root_sequence `{GoRuntime} (typeName : string) (items : list Value)
        (opts : MarshalOptions) :
  let rootTag := if String.eqb (RootTag opts) EmptyString then typeName else RootTag opts in
  (Sequential.structToNode (VSlice items) opts [rootTag]
   = if forallb derefsToNil items then Ok (Some (ElementNode rootTag [] [] false))
     else Err "tag hierarchy is empty")
  /\ (Sequential.structToNode (VArray items) opts [rootTag]
      = Sequential.structToNode (VSlice items) opts [rootTag])
  /\ (Sequential.Marshal (Iface typeName (VSlice items)) (Some opts)
      = if forallb derefsToNil items
        then Returned (encodeRoot opts (ElementNode rootTag [] [] false))
        else Returned (Err "error converting structure to node: tag hierarchy is empty")).
Proof.
  intros rootTag.
  assert (Hseq : Sequential.structToNode (VSlice items) opts [rootTag]
                 = if forallb derefsToNil items
                   then Ok (Some (ElementNode rootTag [] [] false))
                   else Err "tag hierarchy is empty").
  { cbn [Sequential.structToNode]. unfold handleSliceNode_seq, buildItems.
    rewrite SequentialFacts.buildItemsFrom_no_tag.
    now destruct (forallb derefsToNil items). }
  repeat split; [exact Hseq |].
  unfold Sequential.Marshal. cbn [default from_option]. unfold id. cbv zeta.
  cbn [TypeOf Name ValueOf Sequential.structToNodeOf].
  assert (Htag : andThen (if String.eqb (RootTag opts) EmptyString
                          then Returned (Ok typeName) else Returned (Ok (RootTag opts)))
                 = fun k : string -> outcome string => k rootTag).
  { unfold rootTag. now destruct (String.eqb (RootTag opts) EmptyString). }
  rewrite Htag, Hseq. now destruct (forallb derefsToNil items).
Qed.

Module RevisionFacts.

Section Refine.
Context `{GoRuntime}.
Variables build1 build2 : Value -> list string -> result (option Node).




End Refine.


End RevisionFacts.



(** ** The cache of field metadata *)

Module CacheFacts.

Lemma collect_filter (rest : list StructField) :
  forall fields : list fieldMeta,
    Cached.collect rest fields
    = fields ++ map (fun field => mkFieldMeta (tagName field) field)
                    (List.filter (fun field => negb (String.eqb (Tag field) "-")) rest).
Proof.
  induction rest as [| field rest IH]; intros fields; cbn [Cached.collect List.filter].
  - now rewrite app_nil_r.
  - destruct (String.eqb (Tag field) "-"); cbn [negb]; [apply IH |].
    rewrite IH. cbn [map]. now rewrite <- app_assoc.
Qed.

(** The list that the tree builder walks is the one the loop collects. *)
Lemma collect_metadata {A : Type} (fields : list (StructField * A)) :
  map fst (GetFieldMetadata fields) = Cached.collect (map fst fields) [].
Proof.
  rewrite collect_filter. cbn [app].
  induction fields as [| [field a] fields IH]; [reflexivity |].
  cbn [GetFieldMetadata map List.filter fst].
  destruct (String.eqb (Tag field) "-"); cbn [negb]; [exact IH |].
  cbn [map fst]. now rewrite IH.
Qed.

Section Coherence.
Context {ReflectType : Type} `{Countable ReflectType}.
Variable declared : ReflectType -> list StructField.

Lemma cacheAfter_lookup (stored : list ReflectType) (t : ReflectType) :
  Cached.cacheAfter declared stored !! t
  = if decide (t ∈ stored) then Some (Cached.collect (declared t) []) else None.
Proof.
  unfold Cached.cacheAfter.
  enough (Hgen : forall m : gmap ReflectType (list fieldMeta),
             foldl (fun fieldCache t0 => <[t0 := Cached.collect (declared t0) []]> fieldCache)
                   m stored !! t
             = if decide (t ∈ stored) then Some (Cached.collect (declared t) [])
               else m !! t).
  { rewrite Hgen. destruct (decide (t ∈ stored)); [reflexivity | apply lookup_empty]. }
  induction stored as [| t0 stored IH]; intros m; cbn [foldl].
  - destruct (decide (t ∈ [])) as [Hin | _]; [| reflexivity].
    now apply not_elem_of_nil in Hin.
  - rewrite IH. destruct (decide (t ∈ stored)) as [Hin | Hnot].
    + rewrite decide_True by (rewrite elem_of_cons; tauto). reflexivity.
    + destruct (decide (t = t0)) as [-> | Hne].
      * rewrite lookup_insert_eq. rewrite decide_True by (rewrite elem_of_cons; tauto).
        reflexivity.
      * rewrite lookup_insert_ne by congruence.
        rewrite decide_False by (rewrite elem_of_cons; tauto). reflexivity.
Qed.

End Coherence.

End CacheFacts.

(** X15: the cache of field metadata is coherent.  Whatever types were
    stored before, in any order and by any number of calls,
    [GetFieldMetadata] returns for a type the list computed from its
    declaration: the fields not tagged [-], in declaration order, each
    with the first part of its tag, or its identifier, as name.  A miss
    stores that list, a hit leaves the cache as it is, and a second call
    returns the same list. *)
Theorem GetFieldMetadata_cached {ReflectType : Type} `{Countable ReflectType}
        (declared : ReflectType -> list StructField) (stored : list ReflectType)
        (t : ReflectType) :
  let fieldCache := Cached.cacheAfter declared stored in
  fst (Cached.GetFieldMetadata declared t fieldCache)
  = map (fun field => mkFieldMeta (tagName field) field)
        (List.filter (fun field => negb (String.eqb (Tag field) "-")) (declared t))
  /\ snd (Cached.GetFieldMetadata declared t fieldCache)
     = Cached.cacheAfter declared (if decide (t ∈ stored) then stored else stored ++ [t])
  /\ fst (Cached.GetFieldMetadata declared t
            (snd (Cached.GetFieldMetadata declared t fieldCache)))
     = fst (Cached.GetFieldMetadata declared t fieldCache).
Proof.
  intros fieldCache.
  assert (Hfresh : Cached.collect (declared t) []
                   = map (fun field => mkFieldMeta (tagName field) field)
                         (List.filter (fun field => negb (String.eqb (Tag field) "-"))
                                      (declared t))).
  { now rewrite CacheFacts.collect_filter. }
  assert (Hcall : forall stored0 : list ReflectType,
             Cached.GetFieldMetadata declared t (Cached.cacheAfter declared stored0)
             = (Cached.collect (declared t) [],
                Cached.cacheAfter declared
                  (if decide (t ∈ stored0) then stored0 else stored0 ++ [t]))).
  { intros stored0. unfold Cached.GetFieldMetadata.
    rewrite CacheFacts.cacheAfter_lookup.
    destruct (decide (t ∈ stored0)); [reflexivity |].
    cbv zeta. f_equal. unfold Cached.cacheAfter. now rewrite foldl_app. }
  subst fieldCache. rewrite !Hcall. cbn [fst snd]. rewrite Hcall. cbn [fst].
  repeat split. exact Hfresh.
Qed.

(** ** The other encoders *)

Module EncodersFacts.
Import EncoderFacts.

Lemma attributesText_app (a b : list Attribute) :
  attributesText (a ++ b) = attributesText a +:+ attributesText b.
Proof.
  induction a as [| attr a IH]; [reflexivity |].
  cbn [app attributesText]. now rewrite IH, !append_assoc.
Qed.

Lemma writeXmlns_text (attrs : list Attribute) (e : Encoder) :
  NamespaceFirst.writeXmlns e attrs
  = Write e (attributesText (firstn 1 (List.filter isXmlns attrs))).
Proof.
  induction attrs as [| attr attrs IH]; cbn [NamespaceFirst.writeXmlns List.filter].
  - now rewrite Write_nil.
  - unfold isXmlns at 1.
    destruct (String.eqb_spec (AttrName attr) "xmlns") as [Hx | _]; [| exact IH].
    cbn [firstn attributesText]. rewrite Hx, append_nil_r. reflexivity.
Qed.

Lemma writeOthers_text (attrs : list Attribute) :
  forall e : Encoder,
    NamespaceFirst.writeOthers e attrs
    = Write e (attributesText (List.filter (fun attr => negb (isXmlns attr)) attrs)).
Proof.
  unfold NamespaceFirst.writeOthers.
  induction attrs as [| attr attrs IH]; intros e; cbn [foldl List.filter].
  - now rewrite Write_nil.
  - rewrite IH. unfold isXmlns at 2.
    destruct (String.eqb (AttrName attr) "xmlns"); cbn [negb]; [reflexivity |].
    cbn [attributesText]. now rewrite Write_Write.
Qed.

Lemma writeIndent_text (e : Encoder) :
  NamespaceFirst.writeIndent e = Write e (NamespaceFirst.linePrefix e).
Proof.
  unfold NamespaceFirst.writeIndent, NamespaceFirst.linePrefix.
  destruct (negb (String.eqb (indent e) EmptyString));
    [destruct (0 <? depth e)%nat; reflexivity | now rewrite Write_nil].
Qed.

Lemma NamespaceFirst_openTag_text (e : Encoder) (name : string) (attrs : list Attribute) :
  NamespaceFirst.openTag e name attrs
  = Write e (NamespaceFirst.linePrefix e +:+ "<" +:+ name
             +:+ attributesText (namespaceFirst attrs)).
Proof.
  unfold NamespaceFirst.openTag, namespaceFirst. cbv zeta.
  rewrite writeOthers_text, writeXmlns_text, writeIndent_text, !Write_Write.
  now rewrite attributesText_app, !append_assoc.
Qed.

Lemma NamespaceFirst_writeIndent_appends (e : Encoder) :
  exists out : string, NamespaceFirst.writeIndent e = Write e out.
Proof. rewrite writeIndent_text. eauto. Qed.

(** What [Accept] does to the encoder is one write. *)
Lemma NamespaceFirst_Accept_appends (node : Node) :
  forall e : Encoder, exists out : string, NamespaceFirst.Accept e node = Write e out.
Proof.
  induction node as [text | name attrs children sc IH] using Node_induction; intros e.
  - cbn [NamespaceFirst.Accept]. unfold VisitText. eauto.
  - cbn [NamespaceFirst.Accept]. unfold NamespaceFirst.VisitElement. cbv zeta.
    rewrite NamespaceFirst_openTag_text.
    destruct (_ || _); [rewrite Write_Write; eauto |].
    assert (Hfold : forall e0 : Encoder,
               exists out : string,
                 foldl NamespaceFirst.Accept e0 children = Write e0 out).
    { clear -IH. induction IH as [| child rest Hchild _ IHrest]; intros e0; cbn [foldl].
      - exists EmptyString. now rewrite Write_nil.
      - destruct (Hchild e0) as [o1 H1]. rewrite H1.
        destruct (IHrest (Write e0 o1)) as [o2 H2]. rewrite H2, Write_Write. eauto. }
    rewrite !Write_Write.
    destruct (Hfold (setDepth (Write e (NamespaceFirst.linePrefix e +:+ "<" +:+ name
                                         +:+ attributesText (namespaceFirst attrs) +:+ ">"))
                              (S (depth e)))) as [out1 Hout1].
    rewrite !append_assoc. cbn [depth Write] in *. rewrite ?append_assoc in Hout1.
    rewrite Hout1. rewrite !setDepth_Write.
    destruct (_ && _).
    + rewrite writeIndent_text, !Write_Write. destruct e; cbn. eauto.
    + rewrite !Write_Write. destruct e; cbn. eauto.
Qed.



(** *** Without indentation *)

Lemma namespaceFirst_leads (attrs : list Attribute) :
  HasAttribute (tl attrs) "xmlns" = false -> namespaceFirst attrs = attrs.
Proof.
  intros Htl.
  assert (Hnone : forall l : list Attribute,
             HasAttribute l "xmlns" = false ->
             List.filter isXmlns l = []
             /\ List.filter (fun attr => negb (isXmlns attr)) l = l).
  { induction l as [| a l IH]; [split; reflexivity |].
    unfold HasAttribute. cbn [existsb List.filter]. fold (HasAttribute l "xmlns").
    intros Hl. apply orb_false_iff in Hl as [Ha Hl].
    change (isXmlns a = false) in Ha.
    rewrite Ha. cbn [negb]. destruct (IH Hl) as [-> ->]. split; reflexivity. }
  unfold namespaceFirst. destruct attrs as [| a attrs]; [reflexivity |].
  cbn [tl] in Htl. destruct (Hnone attrs Htl) as [Hx Ho].
  cbn [List.filter]. rewrite Hx, Ho.
  destruct (isXmlns a); reflexivity.
Qed.

Lemma Plain_attributes_text (attrs : list Attribute) :
  forall p : Plain.Encoder,
    foldl (fun e attr =>
             Plain.Write e (" " +:+ AttrName attr +:+ "=" +:+ dquote
                            +:+ escapeString (AttrValue attr) +:+ dquote))
          p attrs
    = Plain.Write p (attributesText attrs).
Proof.
  induction attrs as [| attr attrs IH]; intros p; cbn [foldl attributesText].
  - destruct p. unfold Plain.Write. cbn. now rewrite append_nil_r.
  - rewrite IH. unfold Plain.Write. cbn. now rewrite append_assoc.
Qed.

Lemma compactLike_Write (e : Encoder) (p : Plain.Encoder) (out : string) :
  compactLike e p -> compactLike (Write e out) (Plain.Write p out).
Proof.
  intros (Hw & Hs & Hi). unfold compactLike. cbn. now rewrite Hw.
Qed.

Lemma compactLike_setDepth (e : Encoder) (p : Plain.Encoder) (d : nat) :
  compactLike e p <-> compactLike (setDepth e d) p.
Proof. reflexivity. Qed.

Lemma Accept_compactLike (node : Node) :
  xmlnsLeads node = true ->
  forall (e : Encoder) (p : Plain.Encoder),
    compactLike e p -> compactLike (NamespaceFirst.Accept e node) (Plain.Accept p node).
Proof.
  induction node as [text | name attrs children sc IH] using Node_induction;
    intros Hleads e p Hep.
  { now apply compactLike_Write. }
  cbn [xmlnsLeads] in Hleads. apply andb_true_iff in Hleads as [Hattrs Hkids].
  apply negb_true_iff in Hattrs.
  cbn [NamespaceFirst.Accept Plain.Accept].
  unfold NamespaceFirst.VisitElement, Plain.VisitElement. cbv zeta.
  rewrite NamespaceFirst_openTag_text, Plain_attributes_text.
  rewrite (namespaceFirst_leads attrs Hattrs).
  assert (Hprefix : NamespaceFirst.linePrefix e = EmptyString).
  { unfold NamespaceFirst.linePrefix. now rewrite (proj2 (proj2 Hep)). }
  rewrite Hprefix, append_nil_l.
  assert (Hopen : compactLike (Write e ("<" +:+ name +:+ attributesText attrs))
                              (Plain.Write (Plain.Write p ("<" +:+ name))
                                           (attributesText attrs))).
  { destruct Hep as (Hw & Hs & Hi). unfold compactLike. cbn.
    now rewrite Hw, !append_assoc. }
  unfold isSelfClosingTag. cbn [selfClosing Write Plain.selfClosing Plain.Write].
  rewrite (proj1 (proj2 Hep)).
  destruct (sc || _); [now apply compactLike_Write |].
  apply compactLike_Write.
  assert (Hfold : forall (e0 : Encoder) (p0 : Plain.Encoder),
             compactLike e0 p0 ->
             compactLike (foldl NamespaceFirst.Accept e0 children)
                         (foldl Plain.Accept p0 children)).
  { clear -IH Hkids. induction IH as [| child rest Hchild _ IHrest]; intros e0 p0 H0;
      cbn [foldl]; [exact H0 |].
    cbn [forallb] in Hkids. apply andb_true_iff in Hkids as [Hc Hkids].
    apply (IHrest Hkids). now apply Hchild. }
  match goal with
  | |- context [foldl NamespaceFirst.Accept ?e0 children] =>
    pose proof (Hfold e0 _ (compactLike_Write _ _ ">" Hopen)) as Hdone
  end.
  match goal with
  | |- compactLike (if ?c then _ else _) _ =>
    assert (Hc : c = false)
      by (cbn [indent setDepth]; now rewrite (proj2 (proj2 Hdone)))
  end.
  rewrite Hc. exact Hdone.
Qed.

End EncodersFacts.

(** X16: the encoder that writes the namespace first puts the first
    attribute named [xmlns] in front of the others wherever it stands in
    the list, keeps the order of the others, and never writes a second
    attribute named [xmlns]: right after the attributes comes the end of
    the start tag. *)
Theorem namespace_written_first (e : Encoder) (name : string) (attrs : list Attribute)
        (children : list Node) (sc : bool) :
  exists rest : string,
    w (NamespaceFirst.Accept e (ElementNode name attrs children sc))
    = w e +:+ NamespaceFirst.linePrefix e +:+ "<" +:+ name
      +:+ attributesText (namespaceFirst attrs) +:+ rest
    /\ (rest = "/>"
        \/ exists inner : string, rest = ">" +:+ inner +:+ "</" +:+ name +:+ ">").
Proof.
  cbn [NamespaceFirst.Accept]. unfold NamespaceFirst.VisitElement. cbv zeta.
  rewrite EncodersFacts.NamespaceFirst_openTag_text.
  destruct (_ || _).
  { exists "/>". cbn [w Write]. split; [now rewrite !append_assoc | now left]. }
  assert (Hfold : forall e0 : Encoder,
             exists out : string, foldl NamespaceFirst.Accept e0 children = Write e0 out).
  { induction children as [| child rest IHc]; intros e0; cbn [foldl].
    - exists EmptyString. now rewrite EncoderFacts.Write_nil.
    - destruct (EncodersFacts.NamespaceFirst_Accept_appends child e0) as [o1 H1].
      rewrite H1. destruct (IHc (Write e0 o1)) as [o2 H2].
      rewrite H2, EncoderFacts.Write_Write. eauto. }
  match goal with
  | |- context [foldl NamespaceFirst.Accept ?e0 children] =>
    destruct (Hfold e0) as [out1 ->]
  end.
  destruct (_ && _).
  - rewrite EncodersFacts.writeIndent_text.
    match goal with
    | |- context [Write ?x (NamespaceFirst.linePrefix ?x)] =>
      exists (">" +:+ (out1 +:+ NamespaceFirst.linePrefix x) +:+ "</" +:+ name +:+ ">")
    end.
    cbn [w Write setDepth]. split; [now rewrite !append_assoc |].
    right. eexists. reflexivity.
  - exists (">" +:+ out1 +:+ "</" +:+ name +:+ ">").
    cbn [w Write setDepth]. split; [now rewrite !append_assoc |].
    right. eexists. reflexivity.
Qed.

(** X17: without indentation, the encoder that writes the namespace
    first writes no white space: on a tree in which no attribute after the
    first is named [xmlns], its output is that of the first encoder, which
    knows no indentation. *)
Theorem compact_as_first_encoder (buf : string) (tags : list string) (node : Node) :
  xmlnsLeads node = true ->
  w (NamespaceFirst.Accept (NewEncoder buf tags EmptyString) node)
  = Plain.w (Plain.Accept (Plain.NewEncoder buf tags) node).
Proof.
  intros Hleads.
  apply (EncodersFacts.Accept_compactLike node Hleads
           (NewEncoder buf tags EmptyString) (Plain.NewEncoder buf tags)).
  repeat split.
Qed.

Lemma compact_as_first_encoder_witness :
  w (NamespaceFirst.Accept
       (NewEncoder "" ["b"] EmptyString)
       (ElementNode "a" [mkAttribute "xmlns" "u"; mkAttribute "id" "1"]
                    [ElementNode "b" [] [] false; TextNode sampleText] false))
  = Plain.w (Plain.Accept
               (Plain.NewEncoder "" ["b"])
               (ElementNode "a" [mkAttribute "xmlns" "u"; mkAttribute "id" "1"]
                            [ElementNode "b" [] [] false; TextNode sampleText] false)).
Proof. apply compact_as_first_encoder. reflexivity. Defined.

(** X18: the table of self-closing names depends only on which names are
    listed: two lists in which the same names occur, in any order and any
    number of times, give the same encoder. *)
Theorem NewEncoder_names (buf : string) (tags1 tags2 : list string) (ind : string) :
  forallb (contains tags2) tags1 = true -> forallb (contains tags1) tags2 = true ->
  NewEncoder buf tags1 ind = NewEncoder buf tags2 ind.
Proof.
  intros H12 H21. unfold NewEncoder. f_equal. apply map_eq. intros name.
  rewrite !EncoderFacts.selfClosing_fold.
  assert (Hin : forall (l1 l2 : list string),
             forallb (contains l2) l1 = true -> name ∈ l1 -> name ∈ l2).
  { intros l1 l2 Hall Hname. rewrite forallb_forall in Hall.
    apply list_elem_of_In in Hname. specialize (Hall name Hname).
    unfold contains in Hall. apply existsb_exists in Hall as (o & Ho & Heq).
    apply String.eqb_eq in Heq. subst o. now apply list_elem_of_In. }
  destruct (decide (name ∈ tags1)) as [H1 | H1];
    destruct (decide (name ∈ tags2)) as [H2 | H2]; try reflexivity.
  - exfalso. apply H2. exact (Hin _ _ H12 H1).
  - exfalso. apply H1. exact (Hin _ _ H21 H2).
Qed.

Lemma NewEncoder_names_witness :
  NewEncoder "" ["br"; "hr"; "br"] "  " = NewEncoder "" ["hr"; "br"] "  ".
Proof. apply NewEncoder_names; reflexivity. Defined.
